(** * raygui: a shallow embedding of the immediate-mode GUI core

    The development follows [src/raygui.h].  Each C function that a
    property depends on is transcribed as a Rocq function of the same
    name; process-wide globals ([guiState], [guiLocked], [guiAlpha],
    [guiControlExclusiveMode], [guiControlExclusiveRec], [guiStyle],
    [guiStyleLoaded]) become fields of explicit state records that are
    threaded through the calls.

    C [int] is modelled as [Z]; C [float] is IEEE-754 binary32, taken
    from the Standard Library's [SpecFloat] with [prec = 24] and
    [emax = 128].  Code that computes with floats is written once, over
    the interface [FloatOps], and is run at two instances: [binary32]
    (what the compiled program does) and [exact] (rationals, no
    rounding). *)

From Stdlib Require Import ZArith List Bool Lia QArith Qround Lqa.
From Stdlib Require Import SpecFloat.
From Stdlib Require Ascii String.
Import String.StringSyntax.
Delimit Scope string_scope with string.
From stdpp Require Import base list.

Local Open Scope Z_scope.

(** ** Floating point *)

Class FloatOps (F : Type) := {
  f_of_Z : Z -> F;           (* (float)n *)
  f_to_Z : F -> Z;           (* (int)x, truncation toward zero *)
  f_add : F -> F -> F;
  f_sub : F -> F -> F;
  f_mul : F -> F -> F;
  f_div : F -> F -> F;
  f_opp : F -> F;
  f_ltb : F -> F -> bool;    (* x < y *)
  f_leb : F -> F -> bool;    (* x <= y *)
  f_eqb : F -> F -> bool     (* x == y *)
}.

Declare Scope float_scope.
Delimit Scope float_scope with F.
Infix "+" := f_add : float_scope.
Infix "-" := f_sub : float_scope.
Infix "*" := f_mul : float_scope.
Infix "/" := f_div : float_scope.
Notation "- x" := (f_opp x) : float_scope.
Infix "<?" := f_ltb : float_scope.
Infix "<=?" := f_leb : float_scope.
Infix "=?" := f_eqb : float_scope.
Notation "x >? y" := (f_ltb y x) (only parsing) : float_scope.
Notation "x >=? y" := (f_leb y x) (only parsing) : float_scope.

Module Binary32.

Definition prec : Z := 24.
Definition emax : Z := 128.

Definition float := spec_float.

Definition of_Z (n : Z) : float := binary_normalize prec emax n 0 false.

(** [(int)x]: the integer part of [x].  The conversion of a NaN or of
    an infinity is undefined in C; the model returns 0 there. *)
Definition to_Z (x : float) : Z :=
  match x with
  | S754_finite s m e =>
      let mag := match e with
                 | Z0 => Zpos m
                 | Zpos _ => Zpos m * 2 ^ e
                 | Zneg _ => Zpos m / 2 ^ (- e)
                 end in
      if s then - mag else mag
  | _ => 0
  end.

Definition is_nan (x : float) : bool :=
  match x with S754_nan => true | _ => false end.

#[global] Instance ops : FloatOps float := {|
  f_of_Z := of_Z;
  f_to_Z := to_Z;
  f_add := SFadd prec emax;
  f_sub := SFsub prec emax;
  f_mul := SFmul prec emax;
  f_div := SFdiv prec emax;
  f_opp := SFopp;
  f_ltb := SFltb;
  f_leb := SFleb;
  f_eqb := SFeqb
|}.

End Binary32.

Module Exact.

Definition of_Z (n : Z) : Q := inject_Z n.

(** Truncation toward zero, as the C conversion does. *)
Definition to_Z (x : Q) : Z := Z.quot (Qnum x) (Zpos (Qden x)).

Definition ltb (x y : Q) : bool := negb (Qle_bool y x).

#[global] Instance ops : FloatOps Q := {|
  f_of_Z := of_Z;
  f_to_Z := to_Z;
  f_add := Qplus;
  f_sub := Qminus;
  f_mul := Qmult;
  f_div := Qdiv;
  f_opp := Qopp;
  f_ltb := ltb;
  f_leb := Qle_bool;
  f_eqb := Qeq_bool
|}.

End Exact.

(** ** Global interaction state (raygui.h, lines 1379-1391, 1513-1541) *)

Definition STATE_NORMAL : Z := 0.
Definition STATE_FOCUSED : Z := 1.
Definition STATE_PRESSED : Z := 2.
Definition STATE_DISABLED : Z := 3.

Record Rectangle (F : Type) := mkRectangle {
  rec_x : F; rec_y : F; rec_width : F; rec_height : F
}.
Arguments mkRectangle {F}.
Arguments rec_x {F}.
Arguments rec_y {F}.
Arguments rec_width {F}.
Arguments rec_height {F}.

Record Vector2 (F : Type) := mkVector2 { v2_x : F; v2_y : F }.
Arguments mkVector2 {F}.
Arguments v2_x {F}.
Arguments v2_y {F}.

(** The globals the interaction code reads and writes.  [guiState] is a
    C enum that [GuiSetState] fills from an unchecked [int]. *)
Record Globals (F : Type) := mkGlobals {
  guiState : Z;
  guiLocked : bool;
  guiAlpha : F;
  guiControlExclusiveMode : bool;
  guiControlExclusiveRec : Rectangle F
}.
Arguments mkGlobals {F}.
Arguments guiState {F}.
Arguments guiLocked {F}.
Arguments guiAlpha {F}.
Arguments guiControlExclusiveMode {F}.
Arguments guiControlExclusiveRec {F}.

Section GlobalState.
Context {F : Type} `{FloatOps F}.

Definition set_guiState (g : Globals F) (s : Z) : Globals F :=
  mkGlobals s (guiLocked g) (guiAlpha g)
            (guiControlExclusiveMode g) (guiControlExclusiveRec g).

Definition set_guiAlpha (g : Globals F) (a : F) : Globals F :=
  mkGlobals (guiState g) (guiLocked g) a
            (guiControlExclusiveMode g) (guiControlExclusiveRec g).

Definition set_exclusive (g : Globals F) (m : bool) (r : Rectangle F)
  : Globals F :=
  mkGlobals (guiState g) (guiLocked g) (guiAlpha g) m r.

(* void GuiEnable(void) { if (guiState == STATE_DISABLED) guiState = STATE_NORMAL; } *)
Definition GuiEnable (g : Globals F) : Globals F :=
  if guiState g =? STATE_DISABLED then set_guiState g STATE_NORMAL else g.

(* void GuiDisable(void) { if (guiState == STATE_NORMAL) guiState = STATE_DISABLED; } *)
Definition GuiDisable (g : Globals F) : Globals F :=
  if guiState g =? STATE_NORMAL then set_guiState g STATE_DISABLED else g.

Definition GuiLock (g : Globals F) : Globals F :=
  mkGlobals (guiState g) true (guiAlpha g)
            (guiControlExclusiveMode g) (guiControlExclusiveRec g).

Definition GuiUnlock (g : Globals F) : Globals F :=
  mkGlobals (guiState g) false (guiAlpha g)
            (guiControlExclusiveMode g) (guiControlExclusiveRec g).

(* void GuiSetState(int state) { guiState = (GuiState)state; } *)
Definition GuiSetState (g : Globals F) (state : Z) : Globals F :=
  set_guiState g state.

Definition GuiGetState (g : Globals F) : Z := guiState g.

(* void GuiSetAlpha(float alpha)
   { if (alpha < 0.0f) alpha = 0.0f; else if (alpha > 1.0f) alpha = 1.0f;
     guiAlpha = alpha; } *)
Definition GuiSetAlpha (g : Globals F) (alpha : F) : Globals F :=
  let alpha :=
    if (alpha <? f_of_Z 0)%F then f_of_Z 0
    else if (alpha >? f_of_Z 1)%F then f_of_Z 1
    else alpha in
  set_guiAlpha g alpha.

End GlobalState.

(** The globals as the C initialisers leave them. *)
Definition initial_globals : Globals Binary32.float :=
  mkGlobals STATE_NORMAL false (Binary32.of_Z 1) false
            (mkRectangle (S754_zero false) (S754_zero false)
                         (S754_zero false) (S754_zero false)).

(** [x] lies in the closed interval [0, 1], by the float comparisons. *)
Definition in_unit_interval (x : Binary32.float) : Prop :=
  SFleb (Binary32.of_Z 0) x = true /\ SFleb x (Binary32.of_Z 1) = true.

(** ** Style table (raygui.h, lines 1366-1368, 1410-1412, 1565-1582, 7777-7858) *)

Definition RAYGUI_MAX_CONTROLS : Z := 16.
Definition RAYGUI_MAX_PROPS_BASE : Z := 16.
Definition RAYGUI_MAX_PROPS_EXTENDED : Z := 8.

(* GuiControl *)
Definition DEFAULT : Z := 0.
Definition LABEL : Z := 1.
Definition BUTTON : Z := 2.
Definition TOGGLE : Z := 3.
Definition SLIDER : Z := 4.
Definition PROGRESSBAR : Z := 5.
Definition CHECKBOX : Z := 6.
Definition COMBOBOX : Z := 7.
Definition DROPDOWNBOX : Z := 8.
Definition TEXTBOX : Z := 9.
Definition VALUEBOX : Z := 10.
Definition SPINNER : Z := 11.
Definition LISTVIEW : Z := 12.
Definition COLORPICKER : Z := 13.
Definition SCROLLBAR : Z := 14.
Definition STATUSBAR : Z := 15.

(* GuiControlProperty *)
Definition BORDER_COLOR_NORMAL : Z := 0.
Definition BASE_COLOR_NORMAL : Z := 1.
Definition TEXT_COLOR_NORMAL : Z := 2.
Definition BORDER_COLOR_FOCUSED : Z := 3.
Definition BASE_COLOR_FOCUSED : Z := 4.
Definition TEXT_COLOR_FOCUSED : Z := 5.
Definition BORDER_COLOR_PRESSED : Z := 6.
Definition BASE_COLOR_PRESSED : Z := 7.
Definition TEXT_COLOR_PRESSED : Z := 8.
Definition BORDER_COLOR_DISABLED : Z := 9.
Definition BASE_COLOR_DISABLED : Z := 10.
Definition TEXT_COLOR_DISABLED : Z := 11.
Definition BORDER_WIDTH : Z := 12.
Definition TEXT_PADDING : Z := 13.
Definition TEXT_ALIGNMENT : Z := 14.

(* GuiDefaultProperty *)
Definition TEXT_SIZE : Z := 16.
Definition TEXT_SPACING : Z := 17.
Definition LINE_COLOR : Z := 18.
Definition BACKGROUND_COLOR : Z := 19.
Definition TEXT_LINE_SPACING : Z := 20.
Definition TEXT_ALIGNMENT_VERTICAL : Z := 21.
Definition TEXT_WRAP_MODE : Z := 22.

(* Extended properties of the control families *)
Definition GROUP_PADDING : Z := 16.
Definition SLIDER_WIDTH : Z := 16.
Definition SLIDER_PADDING : Z := 17.
Definition PROGRESS_PADDING : Z := 16.
Definition ARROWS_SIZE : Z := 16.
Definition ARROWS_VISIBLE : Z := 17.
Definition SCROLL_SLIDER_PADDING : Z := 18.
Definition SCROLL_SLIDER_SIZE : Z := 19.
Definition SCROLL_PADDING : Z := 20.
Definition SCROLL_SPEED : Z := 21.
Definition CHECK_PADDING : Z := 16.
Definition COMBO_BUTTON_WIDTH : Z := 16.
Definition COMBO_BUTTON_SPACING : Z := 17.
Definition ARROW_PADDING : Z := 16.
Definition DROPDOWN_ITEMS_SPACING : Z := 17.
Definition SPIN_BUTTON_WIDTH : Z := 16.
Definition SPIN_BUTTON_SPACING : Z := 17.
Definition LIST_ITEMS_HEIGHT : Z := 16.
Definition LIST_ITEMS_SPACING : Z := 17.
Definition SCROLLBAR_WIDTH : Z := 18.
Definition SCROLLBAR_SIDE : Z := 19.
Definition COLOR_SELECTOR_SIZE : Z := 16.
Definition HUEBAR_WIDTH : Z := 17.
Definition HUEBAR_PADDING : Z := 18.
Definition HUEBAR_SELECTOR_HEIGHT : Z := 19.
Definition HUEBAR_SELECTOR_OVERFLOW : Z := 20.

Definition SCROLLBAR_LEFT_SIDE : Z := 0.
Definition SCROLLBAR_RIGHT_SIDE : Z := 1.

(* GuiTextAlignment, GuiTextAlignmentVertical, GuiTextWrapMode *)
Definition TEXT_ALIGN_LEFT : Z := 0.
Definition TEXT_ALIGN_CENTER : Z := 1.
Definition TEXT_ALIGN_RIGHT : Z := 2.
Definition TEXT_ALIGN_TOP : Z := 0.
Definition TEXT_ALIGN_MIDDLE : Z := 1.
Definition TEXT_ALIGN_BOTTOM : Z := 2.
Definition TEXT_WRAP_NONE : Z := 0.
Definition TEXT_WRAP_CHAR : Z := 1.
Definition TEXT_WRAP_WORD : Z := 2.

(** A C [int] is a [Z] in this range. *)
Definition is_int (v : Z) : Prop := - 2 ^ 31 <= v < 2 ^ 31.

(** [int] to [unsigned int] and back: the array holds [unsigned int]. *)
Definition to_unsigned (v : Z) : Z := v mod 2 ^ 32.
Definition to_signed (u : Z) : Z := if u <? 2 ^ 31 then u else u - 2 ^ 32.

Module Style.

(** [guiStyle] has [RAYGUI_MAX_CONTROLS*(BASE + EXTENDED)] cells. *)
Definition size : Z :=
  RAYGUI_MAX_CONTROLS * (RAYGUI_MAX_PROPS_BASE + RAYGUI_MAX_PROPS_EXTENDED).

Record table := mkTable {
  guiStyle : list Z;
  guiStyleLoaded : bool
}.

(** [static unsigned int guiStyle[...] = { 0 }; guiStyleLoaded = false] *)
Definition initial : table := mkTable (replicate (Z.to_nat size) 0) false.

Definition wf (t : table) : Prop := length (guiStyle t) = Z.to_nat size.

(** Array accesses.  An index outside the array is undefined behaviour
    in C: the model stops with [None]. *)
Definition array_get (a : list Z) (i : Z) : option Z :=
  if 0 <=? i then a !! Z.to_nat i else None.

Definition array_set (a : list Z) (i : Z) (v : Z) : option (list Z) :=
  if (0 <=? i) && (i <? Z.of_nat (length a))
  then Some (<[Z.to_nat i := v]> a) else None.

Definition slot (control property : Z) : Z :=
  control * (RAYGUI_MAX_PROPS_BASE + RAYGUI_MAX_PROPS_EXTENDED) + property.

(** [for (int i = i0; i < RAYGUI_MAX_CONTROLS; i++) guiStyle[slot i property] = value;]
    with [n] iterations left. *)
Fixpoint propagate (n : nat) (i : Z) (a : list Z) (property value : Z)
  : option (list Z) :=
  match n with
  | O => Some a
  | S n' =>
      a' ← array_set a (slot i property) value;
      propagate n' (i + 1) a' property value
  end.

(** The body of [GuiSetStyle] below its lazy-load line. *)
Definition set_style (t : table) (control property value : Z) : option table :=
  a ← array_set (guiStyle t) (slot control property) (to_unsigned value);
  a' ← (if (control =? 0) && (property <? RAYGUI_MAX_PROPS_BASE)
        then propagate (Z.to_nat (RAYGUI_MAX_CONTROLS - 1)) 1 a
                       property (to_unsigned value)
        else Some a);
  Some (mkTable a' (guiStyleLoaded t)).

(** The [GuiSetStyle] calls of [GuiLoadStyleDefault], in order. *)
Definition default_style : list (Z * Z * Z) :=
  [ (DEFAULT, BORDER_COLOR_NORMAL, 0x838383ff);
    (DEFAULT, BASE_COLOR_NORMAL, 0xc9c9c9ff);
    (DEFAULT, TEXT_COLOR_NORMAL, 0x686868ff);
    (DEFAULT, BORDER_COLOR_FOCUSED, 0x5bb2d9ff);
    (DEFAULT, BASE_COLOR_FOCUSED, 0xc9effeff);
    (DEFAULT, TEXT_COLOR_FOCUSED, 0x6c9bbcff);
    (DEFAULT, BORDER_COLOR_PRESSED, 0x0492c7ff);
    (DEFAULT, BASE_COLOR_PRESSED, 0x97e8ffff);
    (DEFAULT, TEXT_COLOR_PRESSED, 0x368bafff);
    (DEFAULT, BORDER_COLOR_DISABLED, 0xb5c1c2ff);
    (DEFAULT, BASE_COLOR_DISABLED, 0xe6e9e9ff);
    (DEFAULT, TEXT_COLOR_DISABLED, 0xaeb7b8ff);
    (DEFAULT, BORDER_WIDTH, 1);
    (DEFAULT, TEXT_PADDING, 0);
    (DEFAULT, TEXT_ALIGNMENT, TEXT_ALIGN_CENTER);
    (DEFAULT, TEXT_SIZE, 10);
    (DEFAULT, TEXT_SPACING, 1);
    (DEFAULT, LINE_COLOR, 0x90abb5ff);
    (DEFAULT, BACKGROUND_COLOR, 0xf5f5f5ff);
    (DEFAULT, TEXT_LINE_SPACING, 15);
    (DEFAULT, TEXT_ALIGNMENT_VERTICAL, TEXT_ALIGN_MIDDLE);
    (LABEL, TEXT_ALIGNMENT, TEXT_ALIGN_LEFT);
    (BUTTON, BORDER_WIDTH, 2);
    (SLIDER, TEXT_PADDING, 4);
    (PROGRESSBAR, TEXT_PADDING, 4);
    (CHECKBOX, TEXT_PADDING, 4);
    (CHECKBOX, TEXT_ALIGNMENT, TEXT_ALIGN_RIGHT);
    (DROPDOWNBOX, TEXT_PADDING, 0);
    (DROPDOWNBOX, TEXT_ALIGNMENT, TEXT_ALIGN_CENTER);
    (TEXTBOX, TEXT_PADDING, 4);
    (TEXTBOX, TEXT_ALIGNMENT, TEXT_ALIGN_LEFT);
    (VALUEBOX, TEXT_PADDING, 0);
    (VALUEBOX, TEXT_ALIGNMENT, TEXT_ALIGN_LEFT);
    (SPINNER, TEXT_PADDING, 0);
    (SPINNER, TEXT_ALIGNMENT, TEXT_ALIGN_LEFT);
    (STATUSBAR, TEXT_PADDING, 8);
    (STATUSBAR, TEXT_ALIGNMENT, TEXT_ALIGN_LEFT);
    (TOGGLE, GROUP_PADDING, 2);
    (SLIDER, SLIDER_WIDTH, 16);
    (SLIDER, SLIDER_PADDING, 1);
    (PROGRESSBAR, PROGRESS_PADDING, 1);
    (CHECKBOX, CHECK_PADDING, 1);
    (COMBOBOX, COMBO_BUTTON_WIDTH, 32);
    (COMBOBOX, COMBO_BUTTON_SPACING, 2);
    (DROPDOWNBOX, ARROW_PADDING, 16);
    (DROPDOWNBOX, DROPDOWN_ITEMS_SPACING, 2);
    (SPINNER, SPIN_BUTTON_WIDTH, 24);
    (SPINNER, SPIN_BUTTON_SPACING, 2);
    (SCROLLBAR, BORDER_WIDTH, 0);
    (SCROLLBAR, ARROWS_VISIBLE, 0);
    (SCROLLBAR, ARROWS_SIZE, 6);
    (SCROLLBAR, SCROLL_SLIDER_PADDING, 0);
    (SCROLLBAR, SCROLL_SLIDER_SIZE, 16);
    (SCROLLBAR, SCROLL_PADDING, 0);
    (SCROLLBAR, SCROLL_SPEED, 12);
    (LISTVIEW, LIST_ITEMS_HEIGHT, 28);
    (LISTVIEW, LIST_ITEMS_SPACING, 2);
    (LISTVIEW, SCROLLBAR_WIDTH, 12);
    (LISTVIEW, SCROLLBAR_SIDE, SCROLLBAR_RIGHT_SIDE);
    (COLORPICKER, COLOR_SELECTOR_SIZE, 8);
    (COLORPICKER, HUEBAR_WIDTH, 16);
    (COLORPICKER, HUEBAR_PADDING, 8);
    (COLORPICKER, HUEBAR_SELECTOR_HEIGHT, 8);
    (COLORPICKER, HUEBAR_SELECTOR_OVERFLOW, 2) ].

(** A run of [GuiSetStyle] calls on a table whose defaults are loaded. *)
Fixpoint set_styles (t : table) (l : list (Z * Z * Z)) : option table :=
  match l with
  | [] => Some t
  | (c, p, v) :: l' => t' ← set_style t c p v; set_styles t' l'
  end.

(** [GuiLoadStyleDefault]: the flag is raised first, so that the
    [GuiSetStyle] calls it makes do not load again; its font set-up
    does not touch the table. *)
Definition GuiLoadStyleDefault (t : table) : option table :=
  set_styles (mkTable (guiStyle t) true) default_style.

Definition lazy_load (t : table) : option table :=
  if guiStyleLoaded t then Some t else GuiLoadStyleDefault t.

Definition GuiSetStyle (t : table) (control property value : Z)
  : option table :=
  t' ← lazy_load t; set_style t' control property value.

(** [GuiGetStyle] may load the defaults, so it returns the table too. *)
Definition GuiGetStyle (t : table) (control property : Z)
  : option (table * Z) :=
  t' ← lazy_load t;
  u ← array_get (guiStyle t') (slot control property);
  Some (t', to_signed u).

(** A program of style calls, for the laws about call order. *)
Definition run_sets (t : table) (l : list (Z * Z * Z)) : option table :=
  foldl (fun ot '(c, p, v) => t' ← ot; GuiSetStyle t' c p v) (Some t) l.

Definition get_value (ot : option table) (control property : Z) : option Z :=
  t ← ot; snd <$> GuiGetStyle t control property.

(** Ids inside the table. *)
Definition control_id (c : Z) : Prop := 0 <= c < RAYGUI_MAX_CONTROLS.
Definition property_id (p : Z) : Prop :=
  0 <= p < RAYGUI_MAX_PROPS_BASE + RAYGUI_MAX_PROPS_EXTENDED.
Definition base_property (p : Z) : Prop := 0 <= p < RAYGUI_MAX_PROPS_BASE.

Definition valid_call (call : Z * Z * Z) : Prop :=
  control_id call.1.1 /\ property_id call.1.2 /\ is_int call.2.

(** The value the override-ordering law predicts for the slot
    [(c, p)] of a control [c <> DEFAULT] after the calls [l], starting
    from a slot that holds [v0]: the value of the last call that names
    [(c, p)] itself or [(DEFAULT, p)] with [p] a base property. *)
Definition writes_slot (c p : Z) (call : Z * Z * Z) : bool :=
  let '(c', p', _) := call in
  (p' =? p) && ((c' =? c) || ((c' =? 0) && (p <? RAYGUI_MAX_PROPS_BASE))).

Fixpoint last_write (c p v0 : Z) (l : list (Z * Z * Z)) : Z :=
  match l with
  | [] => v0
  | call :: l' =>
      last_write c p (if writes_slot c p call then call.2 else v0) l'
  end.

End Style.

(** ** Text: C strings, icon markers, UTF-8 (raygui.h, lines 8345-8372, 9168-9182, 9258-9294) *)

(** A C string is the list of its bytes before the terminating NUL, each
    a [Z] in [1, 255]; reading at the end of the list yields the NUL. *)
Definition char_at (text : list Z) (i : nat) : Z := nth i text 0.

Definition is_byte (b : Z) : Prop := 0 <= b < 256.

Definition cstring (s : String.string) : list Z :=
  map (fun a => Z.of_N (Ascii.N_of_ascii a)) (String.list_ascii_of_string s).

Definition ch_hash : Z := 35.      (* '#' *)
Definition ch_0 : Z := 48.         (* '0' *)
Definition ch_9 : Z := 57.         (* '9' *)
Definition ch_plus : Z := 43.      (* '+' *)
Definition ch_minus : Z := 45.     (* '-' *)
Definition ch_nl : Z := 10.        (* newline *)
Definition ch_cr : Z := 13.        (* carriage return *)
Definition ch_tab : Z := 9.        (* tab *)
Definition ch_space : Z := 32.     (* ' ' *)
Definition ch_dot : Z := 46.       (* '.' *)

Definition is_digit (c : Z) : bool := (ch_0 <=? c) && (c <=? ch_9).

Arguments ch_hash : simpl never.
Arguments ch_0 : simpl never.
Arguments ch_9 : simpl never.
Arguments ch_plus : simpl never.
Arguments ch_minus : simpl never.
Arguments is_digit : simpl never.

(* for (int i = 0; ((text[i] >= '0') && (text[i] <= '9')); ++i)
       value = value*10 + (int)(text[i] - '0'); *)
Fixpoint digits_value (text : list Z) (value : Z) : Z :=
  match text with
  | c :: rest =>
      if is_digit c then digits_value rest (value * 10 + (c - ch_0)) else value
  | [] => value
  end.

Definition TextToInteger (text : list Z) : Z :=
  let '(sign, text) :=
    if (char_at text 0 =? ch_plus) || (char_at text 0 =? ch_minus)
    then ((if char_at text 0 =? ch_minus then -1 else 1), drop 1 text)
    else (1, text) in
  digits_value text 0 * sign.

(* while ((pos < 4) && (text[pos] >= '0') && (text[pos] <= '9'))
   { iconValue[pos - 1] = text[pos]; pos++; }
   [fuel] bounds the iterations; the guard [pos < 4] stops the loop
   after three of them at most. *)
Fixpoint icon_digits (fuel : nat) (text : list Z) (pos : nat)
    (iconValue : list Z) : nat * list Z :=
  match fuel with
  | O => (pos, iconValue)
  | S fuel' =>
      if (pos <? 4)%nat && is_digit (char_at text pos)
      then icon_digits fuel' text (S pos)
             (<[(pos - 1)%nat := char_at text pos]> iconValue)
      else (pos, iconValue)
  end.

(** [GetTextIcon] returns the icon id it stores through [iconId] and the
    text from its new start. *)
Definition GetTextIcon (text : list Z) : Z * list Z :=
  if char_at text 0 =? ch_hash then
    let '(pos, iconValue) := icon_digits 4 text 1 [0; 0; 0; 0] in
    if char_at text pos =? ch_hash then
      let iconId := TextToInteger iconValue in
      if iconId >=? 0 then (iconId, drop (pos + 1) text) else (iconId, text)
    else (-1, text)
  else (-1, text).

(** The marker shape the icon scan accepts: ['#'], [ds], ['#'], [rest]. *)
Definition decimal (ds : list Z) : Z := digits_value ds 0.

Definition all_digits (ds : list Z) : Prop := Forall (fun c => is_digit c = true) ds.

Definition icon_marker (lo hi : nat) (text : list Z) : Prop :=
  exists ds rest,
    text = ch_hash :: ds ++ ch_hash :: rest /\ all_digits ds /\
    (lo <= length ds <= hi)%nat.

(** The [int] a [char] promotes to.  Whether plain [char] is signed is
    left to the platform. *)
Definition int_of_char (char_signed : bool) (b : Z) : Z :=
  if char_signed && (128 <=? b) then b - 256 else b.

Section Utf8.
Variable char_signed : bool.

Definition GetCodepointNext (text : list Z) : Z * Z :=
  let ptr i := int_of_char char_signed (char_at text i) in
  (* ((ptr[i] & 0xC0) ^ 0x80) is non-zero *)
  let not_cont i := negb (Z.lxor (Z.land (ptr i) 0xC0) 0x80 =? 0) in
  if 0xf0 =? Z.land 0xf8 (ptr 0%nat) then
    if not_cont 1%nat || not_cont 2%nat || not_cont 3%nat then (0x3f, 1)
    else (Z.lor (Z.lor (Z.lor (Z.shiftl (Z.land 0x07 (ptr 0%nat)) 18)
                              (Z.shiftl (Z.land 0x3f (ptr 1%nat)) 12))
                       (Z.shiftl (Z.land 0x3f (ptr 2%nat)) 6))
                (Z.land 0x3f (ptr 3%nat)), 4)
  else if 0xe0 =? Z.land 0xf0 (ptr 0%nat) then
    if not_cont 1%nat || not_cont 2%nat then (0x3f, 1)
    else (Z.lor (Z.lor (Z.shiftl (Z.land 0x0f (ptr 0%nat)) 12)
                       (Z.shiftl (Z.land 0x3f (ptr 1%nat)) 6))
                (Z.land 0x3f (ptr 2%nat)), 3)
  else if 0xc0 =? Z.land 0xe0 (ptr 0%nat) then
    if not_cont 1%nat then (0x3f, 1)
    else (Z.lor (Z.shiftl (Z.land 0x1f (ptr 0%nat)) 6)
                (Z.land 0x3f (ptr 1%nat)), 2)
  else if 0x00 =? Z.land 0x80 (ptr 0%nat) then (ptr 0%nat, 1)
  else (0x3f, 1).

(** One turn of the cursor of the line loop of [GuiDrawText]:
    [codepoint = GetCodepointNext(&lines[i][c], &codepointSize);
     if (codepoint == 0x3f) codepointSize = 1;] *)
Definition next_codepoint (line : list Z) (c : nat) : Z * Z :=
  let '(codepoint, codepointSize) := GetCodepointNext (drop c line) in
  (codepoint, if codepoint =? 0x3f then 1 else codepointSize).

(* for (int c = 0; (lines[i][c] != 0) && (lines[i][c] != newline)
                   && (lines[i][c] != carriage return); c++, lineSize++) *)
Fixpoint line_size (line : list Z) : nat :=
  match line with
  | [] => 0
  | b :: rest =>
      if (b =? 0) || (b =? ch_nl) || (b =? ch_cr) then 0%nat
      else S (line_size rest)
  end.

(** The cursor of [for (c = 0; c < lineSize; c += codepointSize)]:
    the codepoints met and the byte offsets they were read at.
    [None]: the iterations allowed by [fuel] did not reach the end. *)
Fixpoint decode_from (fuel : nat) (line : list Z) (c lineSize : nat)
  : option (list (Z * nat)) :=
  if (c <? lineSize)%nat then
    match fuel with
    | O => None
    | S fuel' =>
        let '(codepoint, codepointSize) := next_codepoint line c in
        rest ← decode_from fuel' line (c + Z.to_nat codepointSize) lineSize;
        Some ((codepoint, c) :: rest)
    end
  else Some [].

End Utf8.

(** Shapes of UTF-8 bytes. *)
Definition is_cont (b : Z) : bool := (0x80 <=? b) && (b <? 0xC0).

Definition lead_length (b : Z) : Z :=
  if b <? 0x80 then 1
  else if b <? 0xC0 then 0          (* a continuation byte: no sequence starts here *)
  else if b <? 0xE0 then 2
  else if b <? 0xF0 then 3
  else if b <? 0xF8 then 4
  else 0.                           (* 0xF8..0xFF start no sequence *)

(** [text] starts with a lead byte followed by the continuation bytes it
    announces. *)
Definition well_formed_at (text : list Z) : bool :=
  match lead_length (char_at text 0) with
  | 1 => true
  | 2 => is_cont (char_at text 1)
  | 3 => is_cont (char_at text 1) && is_cont (char_at text 2)
  | 4 => is_cont (char_at text 1) && is_cont (char_at text 2)
         && is_cont (char_at text 3)
  | _ => false
  end.

(** The value a well-formed sequence encodes. *)
Definition encoded_value (text : list Z) : Z :=
  let b i := char_at text i in
  match lead_length (b 0%nat) with
  | 1 => b 0%nat
  | 2 => (b 0%nat - 0xC0) * 64 + (b 1%nat - 0x80)
  | 3 => (b 0%nat - 0xE0) * 4096 + (b 1%nat - 0x80) * 64 + (b 2%nat - 0x80)
  | _ => (b 0%nat - 0xF0) * 262144 + (b 1%nat - 0x80) * 4096
         + (b 2%nat - 0x80) * 64 + (b 3%nat - 0x80)
  end.

(** ** Controls: buttons and sliders (raygui.h, lines 1068, 1979-2010, 3093-3204, 9084-9092) *)

(** What the host reports during one frame. *)
Record Input (F : Type) := mkInput {
  mousePoint : Vector2 F;       (* GetMousePosition() *)
  mouseDown : bool;             (* IsMouseButtonDown(MOUSE_LEFT_BUTTON) *)
  mousePressed : bool;          (* IsMouseButtonPressed(MOUSE_LEFT_BUTTON) *)
  mouseReleased : bool;         (* IsMouseButtonReleased(MOUSE_LEFT_BUTTON) *)
  wheelMove : F;                (* GetMouseWheelMove() *)
  scrollModifier : bool         (* IsKeyDown(KEY_LEFT_CONTROL) || IsKeyDown(KEY_LEFT_SHIFT) *)
}.
Arguments mkInput {F}.
Arguments mousePoint {F}.
Arguments mouseDown {F}.
Arguments mousePressed {F}.
Arguments mouseReleased {F}.
Arguments wheelMove {F}.
Arguments scrollModifier {F}.

Section Controls.
Context {F : Type} `{FloatOps F}.

(** [style control property] is [GuiGetStyle(control, property)] on
    the table of the frame. *)
Variable style : Z -> Z -> Z.

Local Open Scope float_scope.

Local Notation "# n" := (f_of_Z n) (at level 5, format "# n").

(* #define CHECK_BOUNDS_ID(src, dst) ((src.x == dst.x) && (src.y == dst.y)
     && (src.width == dst.width) && (src.height == dst.height)) *)
Definition CHECK_BOUNDS_ID (src dst : Rectangle F) : bool :=
  (rec_x src =? rec_x dst) && (rec_y src =? rec_y dst) &&
  (rec_width src =? rec_width dst) && (rec_height src =? rec_height dst).

Definition CheckCollisionPointRec (point : Vector2 F) (rec : Rectangle F)
  : bool :=
  (v2_x point >=? rec_x rec) && (v2_x point <=? rec_x rec + rec_width rec) &&
  (v2_y point >=? rec_y rec) && (v2_y point <=? rec_y rec + rec_height rec).

(** [GuiButton]: the state the control is drawn in and its result.
    The globals are read only. *)
Definition GuiButton (g : Globals F) (inp : Input F) (bounds : Rectangle F)
  : Z * Z :=
  let state := guiState g in
  if negb (state =? STATE_DISABLED)%Z && negb (guiLocked g)
     && negb (guiControlExclusiveMode g)
  then
    if CheckCollisionPointRec (mousePoint inp) bounds then
      (if mouseDown inp then STATE_PRESSED else STATE_FOCUSED,
       if mouseReleased inp then 1 else 0)%Z
    else (state, 0%Z)
  else (state, 0%Z).

(* if ( *value > maxValue) *value = maxValue;
   else if ( *value < minValue) *value = minValue; *)
Definition clamp_value (value minValue maxValue : F) : F :=
  if value >? maxValue then maxValue
  else if value <? minValue then minValue
  else value.

(* (maxValue - minValue)*((mousePoint.x - bounds.x - sliderWidth/2)
      /(bounds.width-sliderWidth)) + minValue *)
Definition slider_value_at (mouse : Vector2 F) (bounds : Rectangle F)
    (minValue maxValue : F) (sliderWidth : Z) : F :=
  (maxValue - minValue)
  * ((v2_x mouse - rec_x bounds - #(Z.quot sliderWidth 2))
     / (rec_width bounds - #sliderWidth))
  + minValue.

(** [GuiSliderPro], up to the value change check: the globals it
    leaves, the state the control is drawn in, the value it leaves in
    [*value] and its result.  [value = None] is the NULL pointer, for
    which the code works on a local initialised to
    [(maxValue - minValue)/2]. *)
Definition GuiSliderPro (g : Globals F) (inp : Input F)
    (bounds : Rectangle F) (value : option F) (minValue maxValue : F)
    (sliderWidth : Z) : Globals F * Z * F * Z :=
  let state := guiState g in
  let oldValue :=
    match value with
    | Some v => v
    | None => (maxValue - minValue) / #2
    end in
  let slider :=
    mkRectangle (rec_x bounds)
      (rec_y bounds + #(style SLIDER BORDER_WIDTH)
                    + #(style SLIDER SLIDER_PADDING))
      #0
      (rec_height bounds - #(2 * style SLIDER BORDER_WIDTH)
                         - #(2 * style SLIDER SLIDER_PADDING)) in
  let '(g', state', value') :=
    if negb (state =? STATE_DISABLED)%Z && negb (guiLocked g) then
      let mouse := mousePoint inp in
      let '(g1, state1, value1) :=
        if guiControlExclusiveMode g then
          if mouseDown inp then
            if CHECK_BOUNDS_ID bounds (guiControlExclusiveRec g) then
              (g, STATE_PRESSED,
               slider_value_at mouse bounds minValue maxValue sliderWidth)
            else (g, state, oldValue)
          else
            (set_exclusive g false (mkRectangle #0 #0 #0 #0), state, oldValue)
        else if CheckCollisionPointRec mouse bounds then
          if mouseDown inp then
            (set_exclusive g true bounds, STATE_PRESSED,
             if negb (CheckCollisionPointRec mouse slider)
             then slider_value_at mouse bounds minValue maxValue sliderWidth
             else oldValue)
          else (g, STATE_FOCUSED, oldValue)
        else (g, state, oldValue) in
      (g1, state1, clamp_value value1 minValue maxValue)
    else (g, state, oldValue) in
  (g', state', value', if oldValue =? value' then 0%Z else 1%Z).

End Controls.

(** ** Scroll bar and scroll panel (raygui.h, lines 1802-1957, 8881-9049) *)

Definition RAYGUI_WINDOWBOX_STATUSBAR_HEIGHT : Z := 24.
Definition RAYGUI_MIN_SCROLLBAR_WIDTH : Z := 40.
Definition RAYGUI_MIN_SCROLLBAR_HEIGHT : Z := 40.
Definition RAYGUI_MIN_MOUSE_WHEEL_SPEED : Z := 20.

(* if (value > maxValue) value = maxValue;
   if (value < minValue) value = minValue; *)
Definition normalize_value (value minValue maxValue : Z) : Z :=
  let value := if value >? maxValue then maxValue else value in
  if value <? minValue then minValue else value.

(** The rectangles [GuiScrollBar] lays out and the length of its
    slider. *)
Record ScrollBarLayout (F : Type) := mkScrollBarLayout {
  sb_isVertical : bool;
  sb_arrowUpLeft : Rectangle F;
  sb_arrowDownRight : Rectangle F;
  sb_scrollbar : Rectangle F;       (* the track, without the arrows *)
  sb_slider : Rectangle F;
  sb_sliderSize : Z
}.
Arguments mkScrollBarLayout {F}.
Arguments sb_isVertical {F}.
Arguments sb_arrowUpLeft {F}.
Arguments sb_arrowDownRight {F}.
Arguments sb_scrollbar {F}.
Arguments sb_slider {F}.
Arguments sb_sliderSize {F}.

Section Scroll.
Context {F : Type} `{FloatOps F}.

Local Open Scope float_scope.
Local Notation "# n" := (f_of_Z n) (at level 5, format "# n").

(** [GuiScrollBar], lines 8886-8944: the layout, from the bounds, the
    style and the value normalised on entry. *)
Definition GuiScrollBar_layout (style : Z -> Z -> Z) (bounds : Rectangle F)
    (value minValue maxValue : Z) : ScrollBarLayout F :=
  let isVertical := if rec_width bounds >? rec_height bounds then false else true in
  let borderWidth := style SCROLLBAR BORDER_WIDTH in
  let spinnerSize :=
    if negb (style SCROLLBAR ARROWS_VISIBLE =? 0)%Z then
      (if isVertical then f_to_Z (rec_width bounds) - 2 * borderWidth
       else f_to_Z (rec_height bounds) - 2 * borderWidth)%Z
    else 0%Z in
  let valueRange := (maxValue - minValue)%Z in
  let valueRange := if (valueRange <=? 0)%Z then 1%Z else valueRange in
  let sliderSize := style SCROLLBAR SCROLL_SLIDER_SIZE in
  let sliderSize := if (sliderSize <? 1)%Z then 1%Z else sliderSize in
  let arrowUpLeft :=
    mkRectangle (rec_x bounds + #borderWidth) (rec_y bounds + #borderWidth)
                #spinnerSize #spinnerSize in
  if isVertical then
    let arrowDownRight :=
      mkRectangle (rec_x bounds + #borderWidth)
                  (rec_y bounds + rec_height bounds - #spinnerSize - #borderWidth)
                  #spinnerSize #spinnerSize in
    let scrollbar :=
      mkRectangle
        (rec_x bounds + #borderWidth + #(style SCROLLBAR SCROLL_PADDING))
        (rec_y arrowUpLeft + rec_height arrowUpLeft)
        (rec_width bounds
         - #(2 * (borderWidth + style SCROLLBAR SCROLL_PADDING)))
        (rec_height bounds - rec_height arrowUpLeft
         - rec_height arrowDownRight - #(2 * borderWidth)) in
    let sliderSize :=
      if #sliderSize >=? rec_height scrollbar
      then (f_to_Z (rec_height scrollbar) - 2)%Z else sliderSize in
    let slider :=
      mkRectangle
        (rec_x bounds + #borderWidth
         + #(style SCROLLBAR SCROLL_SLIDER_PADDING))
        (rec_y scrollbar
         + #(f_to_Z ((#(value - minValue) / #valueRange)
                     * (rec_height scrollbar - #sliderSize))))
        (rec_width bounds
         - #(2 * (borderWidth + style SCROLLBAR SCROLL_SLIDER_PADDING)))
        #sliderSize in
    mkScrollBarLayout true arrowUpLeft arrowDownRight scrollbar slider sliderSize
  else
    let arrowDownRight :=
      mkRectangle (rec_x bounds + rec_width bounds - #spinnerSize - #borderWidth)
                  (rec_y bounds + #borderWidth)
                  #spinnerSize #spinnerSize in
    let scrollbar :=
      mkRectangle
        (rec_x arrowUpLeft + rec_width arrowUpLeft)
        (rec_y bounds + #borderWidth + #(style SCROLLBAR SCROLL_PADDING))
        (rec_width bounds - rec_width arrowUpLeft
         - rec_width arrowDownRight - #(2 * borderWidth))
        (rec_height bounds
         - #(2 * (borderWidth + style SCROLLBAR SCROLL_PADDING))) in
    let sliderSize :=
      if #sliderSize >=? rec_width scrollbar
      then (f_to_Z (rec_width scrollbar) - 2)%Z else sliderSize in
    let slider :=
      mkRectangle
        (rec_x scrollbar
         + #(f_to_Z ((#(value - minValue) / #valueRange)
                     * (rec_width scrollbar - #sliderSize))))
        (rec_y bounds + #borderWidth
         + #(style SCROLLBAR SCROLL_SLIDER_PADDING))
        #sliderSize
        (rec_height bounds
         - #(2 * (borderWidth + style SCROLLBAR SCROLL_SLIDER_PADDING))) in
    mkScrollBarLayout false arrowUpLeft arrowDownRight scrollbar slider sliderSize.

(** The track length: the height of the track of a vertical bar, the
    width of the track of a horizontal one. *)
Definition track_length (l : ScrollBarLayout F) : F :=
  if sb_isVertical l then rec_height (sb_scrollbar l)
  else rec_width (sb_scrollbar l).

(* (int)(((float)(mousePoint.y - scrollbar.y - slider.height/2)*valueRange)
          /(scrollbar.height - slider.height) + minValue), and the same
   along x for a horizontal bar *)
Definition scroll_value_at (mouse : Vector2 F) (l : ScrollBarLayout F)
    (valueRange minValue : Z) : Z :=
  if sb_isVertical l then
    f_to_Z ((v2_y mouse - rec_y (sb_scrollbar l)
             - rec_height (sb_slider l) / #2) * #valueRange
            / (rec_height (sb_scrollbar l) - rec_height (sb_slider l))
            + #minValue)
  else
    f_to_Z ((v2_x mouse - rec_x (sb_scrollbar l)
             - rec_width (sb_slider l) / #2) * #valueRange
            / (rec_width (sb_scrollbar l) - rec_width (sb_slider l))
            + #minValue).

(** [GuiScrollBar]: the globals it leaves and the value it returns.
    The integer division by [SCROLL_SPEED] is undefined in C for a
    speed of 0. *)
Definition GuiScrollBar (style : Z -> Z -> Z) (g : Globals F) (inp : Input F)
    (bounds : Rectangle F) (value minValue maxValue : Z) : Globals F * Z :=
  let state := guiState g in
  let value := normalize_value value minValue maxValue in
  let valueRange := (maxValue - minValue)%Z in
  let valueRange := if (valueRange <=? 0)%Z then 1%Z else valueRange in
  let l := GuiScrollBar_layout style bounds value minValue maxValue in
  if negb (state =? STATE_DISABLED)%Z && negb (guiLocked g) then
    let mouse := mousePoint inp in
    let '(g', value') :=
      if guiControlExclusiveMode g then
        if mouseDown inp
           && negb (CheckCollisionPointRec mouse (sb_arrowUpLeft l))
           && negb (CheckCollisionPointRec mouse (sb_arrowDownRight l))
        then
          if CHECK_BOUNDS_ID bounds (guiControlExclusiveRec g)
          then (g, scroll_value_at mouse l valueRange minValue)
          else (g, value)
        else (set_exclusive g false (mkRectangle #0 #0 #0 #0), value)
      else if CheckCollisionPointRec mouse bounds then
        let wheel := f_to_Z (wheelMove inp) in
        let value := if negb (wheel =? 0)%Z then (value + wheel)%Z else value in
        if mousePressed inp then
          (set_exclusive g true bounds,
           if CheckCollisionPointRec mouse (sb_arrowUpLeft l)
           then (value - Z.quot valueRange (style SCROLLBAR SCROLL_SPEED))%Z
           else if CheckCollisionPointRec mouse (sb_arrowDownRight l)
           then (value + Z.quot valueRange (style SCROLLBAR SCROLL_SPEED))%Z
           else if negb (CheckCollisionPointRec mouse (sb_slider l))
           then scroll_value_at mouse l valueRange minValue
           else value)
        else (g, value)
      else (g, value) in
    (g', normalize_value value' minValue maxValue)
  else (g, value).

(** The style after [GuiSetStyle(SCROLLBAR, SCROLL_SLIDER_SIZE, n)]. *)
Definition with_slider_size (style : Z -> Z -> Z) (n : Z) : Z -> Z -> Z :=
  fun control property =>
    if ((control =? SCROLLBAR) && (property =? SCROLL_SLIDER_SIZE))%Z
    then n else style control property.

(** [GuiScrollPanel], lines 1818-1866: what is laid out before the
    input is looked at. *)
Record ScrollPanelLayout := mkScrollPanelLayout {
  sp_bounds : Rectangle F;                 (* the bounds, below the header *)
  hasHorizontalScrollBar : bool;
  hasVerticalScrollBar : bool;
  horizontalScrollBarWidth : Z;
  verticalScrollBarWidth : Z;
  horizontalScrollBar : Rectangle F;
  verticalScrollBar : Rectangle F;
  sp_view : Rectangle F;
  horizontalMin : F;
  horizontalMax : F;
  verticalMin : F;
  verticalMax : F
}.

Definition GuiScrollPanel_layout (style : Z -> Z -> Z) (bounds : Rectangle F)
    (hasText : bool) (content : Rectangle F) : ScrollPanelLayout :=
  let borderWidth := style DEFAULT BORDER_WIDTH in
  let scrollbarWidth := style LISTVIEW SCROLLBAR_WIDTH in
  let leftSide := (style LISTVIEW SCROLLBAR_SIDE =? SCROLLBAR_LEFT_SIDE)%Z in
  (* the two places that compare (float)GuiGetStyle(...) with the side *)
  let leftSideF := #(style LISTVIEW SCROLLBAR_SIDE) =? #SCROLLBAR_LEFT_SIDE in
  let x := rec_x bounds in
  let y := rec_y bounds in
  let w := rec_width bounds in
  let h := rec_height bounds in
  let h := if h <? #RAYGUI_WINDOWBOX_STATUSBAR_HEIGHT * #2
           then #RAYGUI_WINDOWBOX_STATUSBAR_HEIGHT * #2 else h in
  let y := if hasText then y + (#RAYGUI_WINDOWBOX_STATUSBAR_HEIGHT - #1) else y in
  let h := if hasText then h - (#RAYGUI_WINDOWBOX_STATUSBAR_HEIGHT + #1) else h in
  let hasH := rec_width content >? w - #(2 * borderWidth) in
  let hasV := rec_height content >? h - #(2 * borderWidth) in
  let hasH :=
    if negb hasH
    then hasV && (rec_width content >? w - #(2 * borderWidth) - #scrollbarWidth)
    else hasH in
  let hasV :=
    if negb hasV
    then hasH && (rec_height content >? h - #(2 * borderWidth) - #scrollbarWidth)
    else hasV in
  let hsbw := if hasH then scrollbarWidth else 0%Z in
  let vsbw := if hasV then scrollbarWidth else 0%Z in
  let hbar :=
    mkRectangle ((if leftSide then x + #vsbw else x) + #borderWidth)
                (y + h - #hsbw - #borderWidth)
                (w - #vsbw - #(2 * borderWidth))
                #hsbw in
  let vbar :=
    mkRectangle (if leftSide then x + #borderWidth
                 else x + w - #vsbw - #borderWidth)
                (y + #borderWidth)
                #vsbw
                (h - #hsbw - #(2 * borderWidth)) in
  let hbar :=
    if rec_width hbar <? #RAYGUI_MIN_SCROLLBAR_WIDTH
    then mkRectangle (rec_x hbar) (rec_y hbar) #RAYGUI_MIN_SCROLLBAR_WIDTH
                     (rec_height hbar)
    else hbar in
  let vbar :=
    if rec_height vbar <? #RAYGUI_MIN_SCROLLBAR_HEIGHT
    then mkRectangle (rec_x vbar) (rec_y vbar) (rec_width vbar)
                     #RAYGUI_MIN_SCROLLBAR_HEIGHT
    else vbar in
  let view :=
    if leftSide
    then mkRectangle (x + #vsbw + #borderWidth) (y + #borderWidth)
                     (w - #(2 * borderWidth) - #vsbw)
                     (h - #(2 * borderWidth) - #hsbw)
    else mkRectangle (x + #borderWidth) (y + #borderWidth)
                     (w - #(2 * borderWidth) - #vsbw)
                     (h - #(2 * borderWidth) - #hsbw) in
  let view :=
    mkRectangle (rec_x view) (rec_y view)
      (if rec_width view >? rec_width content
       then rec_width content else rec_width view)
      (if rec_height view >? rec_height content
       then rec_height content else rec_height view) in
  let hMin :=
    if hasH then (if leftSide then #(- vsbw) else #0) - #borderWidth
    else (if leftSideF then #(- vsbw) else #0) - #borderWidth in
  let hMax :=
    if hasH
    then rec_width content - w + #vsbw + #borderWidth
         - (if leftSideF then #vsbw else #0)
    else #(- borderWidth) in
  let vMin := if hasV then #0 else #(-1) in
  let vMax :=
    if hasV then rec_height content - h + #hsbw + #borderWidth
    else #(- borderWidth) in
  mkScrollPanelLayout (mkRectangle x y w h) hasH hasV hsbw vsbw hbar vbar view
                      hMin hMax vMin vMax.

(** The style each bar of the panel is drawn with: the slider size is
    set to the share of the content that is visible. *)
Definition horizontal_bar_style (style : Z -> Z -> Z) (l : ScrollPanelLayout)
    (content : Rectangle F) : Z -> Z -> Z :=
  let borderWidth := style DEFAULT BORDER_WIDTH in
  let w := rec_width (sp_bounds l) in
  with_slider_size style
    (f_to_Z ((w - #(2 * borderWidth) - #(verticalScrollBarWidth l))
             / #(f_to_Z (rec_width content))
             * #(f_to_Z w - 2 * borderWidth - verticalScrollBarWidth l))).

Definition vertical_bar_style (style : Z -> Z -> Z) (l : ScrollPanelLayout)
    (content : Rectangle F) : Z -> Z -> Z :=
  let borderWidth := style DEFAULT BORDER_WIDTH in
  let h := rec_height (sp_bounds l) in
  with_slider_size style
    (f_to_Z ((h - #(2 * borderWidth) - #(horizontalScrollBarWidth l))
             / #(f_to_Z (rec_height content))
             * #(f_to_Z h - 2 * borderWidth - horizontalScrollBarWidth l))).

(** [GuiScrollPanel]: the globals it leaves, the state it is drawn in,
    the scroll offset it stores through [scroll] and the view.
    [scroll = None] is the NULL pointer: the code then starts from
    [(0, 0)] and stores nothing. *)
Definition GuiScrollPanel (style : Z -> Z -> Z) (g : Globals F)
    (inp : Input F) (bounds : Rectangle F) (hasText : bool)
    (content : Rectangle F) (scroll : option (Vector2 F))
  : Globals F * Z * Vector2 F * Rectangle F :=
  let state := guiState g in
  let scrollPos := match scroll with
                   | Some s => s
                   | None => mkVector2 #0 #0
                   end in
  let l := GuiScrollPanel_layout style bounds hasText content in
  let bounds := sp_bounds l in
  let '(state, scrollPos) :=
    if negb (state =? STATE_DISABLED)%Z && negb (guiLocked g) then
      if CheckCollisionPointRec (mousePoint inp) bounds then
        let state := if mouseDown inp then STATE_PRESSED else STATE_FOCUSED in
        let speedX := rec_width content / rec_width bounds in
        let speedY := rec_height content / rec_height bounds in
        let speedX := if speedX <? #RAYGUI_MIN_MOUSE_WHEEL_SPEED
                      then #RAYGUI_MIN_MOUSE_WHEEL_SPEED else speedX in
        let speedY := if speedY <? #RAYGUI_MIN_MOUSE_WHEEL_SPEED
                      then #RAYGUI_MIN_MOUSE_WHEEL_SPEED else speedY in
        if hasHorizontalScrollBar l && scrollModifier inp
        then (state, mkVector2 (v2_x scrollPos + wheelMove inp * speedX)
                               (v2_y scrollPos))
        else (state, mkVector2 (v2_x scrollPos)
                               (v2_y scrollPos + wheelMove inp * speedY))
      else (state, scrollPos)
    else (state, scrollPos) in
  (* Normalize scroll values *)
  let sx := v2_x scrollPos in
  let sx := if sx >? - horizontalMin l then - horizontalMin l else sx in
  let sx := if sx <? - horizontalMax l then - horizontalMax l else sx in
  let sy := v2_y scrollPos in
  let sy := if sy >? - verticalMin l then - verticalMin l else sy in
  let sy := if sy <? - verticalMax l then - verticalMax l else sy in
  let '(g, sx) :=
    if hasHorizontalScrollBar l then
      let '(g', v) :=
        GuiScrollBar (horizontal_bar_style style l content) g inp
          (horizontalScrollBar l) (f_to_Z (- sx))
          (f_to_Z (horizontalMin l)) (f_to_Z (horizontalMax l)) in
      (g', #(- v))
    else (g, #0) in
  let '(g, sy) :=
    if hasVerticalScrollBar l then
      let '(g', v) :=
        GuiScrollBar (vertical_bar_style style l content) g inp
          (verticalScrollBar l) (f_to_Z (- sy))
          (f_to_Z (verticalMin l)) (f_to_Z (verticalMax l)) in
      (g', #(- v))
    else (g, #0) in
  (g, state, mkVector2 sx sy, sp_view l).

End Scroll.

(** ** Colour conversion (raygui.h, lines 8758-8878) *)

Record Vector3 (F : Type) := mkVector3 { v3_x : F; v3_y : F; v3_z : F }.
Arguments mkVector3 {F}.
Arguments v3_x {F}.
Arguments v3_y {F}.
Arguments v3_z {F}.

Section ColorSpace.
Context {F : Type} `{FloatOps F}.

Local Open Scope float_scope.
Local Notation "# n" := (f_of_Z n) (at level 5, format "# n").

(** The literal [0.00001f]: the float nearest to 1/100000, which is
    what the quotient of the floats 1 and 100000 rounds to. *)
Definition achromatic_epsilon : F := #1 / #100000.

Definition ConvertRGBtoHSV (rgb : Vector3 F) : Vector3 F :=
  let min := if v3_x rgb <? v3_y rgb then v3_x rgb else v3_y rgb in
  let min := if min <? v3_z rgb then min else v3_z rgb in
  let max := if v3_x rgb >? v3_y rgb then v3_x rgb else v3_y rgb in
  let max := if max >? v3_z rgb then max else v3_z rgb in
  let delta := max - min in
  if delta <? achromatic_epsilon then mkVector3 #0 #0 max
  else if max >? #0 then
    let s := delta / max in
    let h :=
      if v3_x rgb >=? max then (v3_y rgb - v3_z rgb) / delta
      else if v3_y rgb >=? max then #2 + (v3_z rgb - v3_x rgb) / delta
      else #4 + (v3_x rgb - v3_y rgb) / delta in
    let h := h * #60 in
    let h := if h <? #0 then h + #360 else h in
    mkVector3 h s max
  else mkVector3 #0 #0 max.

Definition ConvertHSVtoRGB (hsv : Vector3 F) : Vector3 F :=
  if v3_y hsv <=? #0 then mkVector3 (v3_z hsv) (v3_z hsv) (v3_z hsv)
  else
    let hh := v3_x hsv in
    let hh := if hh >=? #360 then #0 else hh in
    let hh := hh / #60 in
    let i := f_to_Z hh in                 (* i = (long)hh *)
    let ff := hh - #i in
    let p := v3_z hsv * (#1 - v3_y hsv) in
    let q := v3_z hsv * (#1 - v3_y hsv * ff) in
    let t := v3_z hsv * (#1 - v3_y hsv * (#1 - ff)) in
    match i with
    | 0%Z => mkVector3 (v3_z hsv) t p
    | 1%Z => mkVector3 q (v3_z hsv) p
    | 2%Z => mkVector3 p (v3_z hsv) t
    | 3%Z => mkVector3 p q (v3_z hsv)
    | 4%Z => mkVector3 t p (v3_z hsv)
    | _ => mkVector3 (v3_z hsv) p q
    end.

(** [lo <= x <= hi], by the comparisons of the arithmetic. *)
Definition between (lo hi x : F) : Prop :=
  (lo <=? x) = true /\ (x <=? hi) = true.

End ColorSpace.

(** Equality of colours in exact arithmetic, channel by channel. *)
Definition colour_eq (a b : Vector3 Q) : Prop :=
  (v3_x a == v3_x b)%Q /\ (v3_y a == v3_y b)%Q /\ (v3_z a == v3_z b)%Q.

(** ** Text width and text drawing (raygui.h, lines 8248-8307, 8375-8405, 8437-8653) *)

Definition RAYGUI_ICON_SIZE : Z := 16.
Definition ICON_TEXT_PADDING : Z := 4.
Definition MAX_LINE_BUFFER_SIZE : nat := 256.
Definition RAYGUI_MAX_TEXT_LINES : nat := 128.

(** The font, as the text code reads it: metrics are looked up through
    [GetGlyphIndex(guiFont, codepoint)], which the host provides, so the
    model indexes them by codepoint. *)
Record Font (F : Type) := mkFont {
  baseSize : Z;
  texture_id : Z;
  glyph_advanceX : Z -> Z;      (* glyphs[index].advanceX *)
  glyph_rec_width : Z -> F      (* recs[index].width *)
}.
Arguments mkFont {F}.
Arguments baseSize {F}.
Arguments texture_id {F}.
Arguments glyph_advanceX {F}.
Arguments glyph_rec_width {F}.

(** The calls made to the host's drawing functions. *)
Inductive Draw (F : Type) :=
| DrawTextCodepoint (codepoint : Z) (position : Vector2 F)
| GuiDrawIcon (iconId posX posY : Z).
Arguments DrawTextCodepoint {F}.
Arguments GuiDrawIcon {F}.

(* for (int i = 0, k = 0; (i < textSize) && ( *count < RAYGUI_MAX_TEXT_LINES); i++)
     if (text[i] is the newline) { k++; lines[k] = &text[i + 1]; *count += 1; } *)
Fixpoint more_text_lines (text : list Z) (count : nat) : list (list Z) :=
  match text with
  | [] => []
  | b :: rest =>
      if (count <? RAYGUI_MAX_TEXT_LINES)%nat then
        if b =? ch_nl then rest :: more_text_lines rest (S count)
        else more_text_lines rest count
      else []
  end.

(** A plain character of a line: ASCII, and not one that ends a line. *)
Definition ascii_char (b : Z) : Prop :=
  0 < b < 128 /\ b <> ch_nl /\ b <> ch_cr.

(** [GetTextLines]: each line is a pointer into the text, so it runs to
    the end of the text. *)
Definition GetTextLines (text : list Z) : list (list Z) :=
  text :: more_text_lines text 1.

(* for (int j = 0; j < ellipsisWidth; j += ellipsisWidth/3): the values
   of [j] the body runs with; [None] when [fuel] turns do not end the loop *)
Fixpoint ellipsis_offsets (fuel : nat) (j ellipsisWidth : Z) : option (list Z) :=
  if j <? ellipsisWidth then
    match fuel with
    | O => None
    | S fuel' =>
        rest ← ellipsis_offsets fuel' (j + Z.quot ellipsisWidth 3) ellipsisWidth;
        Some (j :: rest)
    end
  else Some [].

Section Text.
Context {F : Type} `{FloatOps F}.

Variable char_signed : bool.
Variable style : Z -> Z -> Z.
Variable guiFont : Font F.
Variable guiIconScale : Z.

Local Open Scope float_scope.
Local Notation "# n" := (f_of_Z n) (at level 5, format "# n").

(* float scaleFactor = (float)GuiGetStyle(DEFAULT, TEXT_SIZE)/guiFont.baseSize; *)
Definition scaleFactor : F := #(style DEFAULT TEXT_SIZE) / #(baseSize guiFont).

(* if (guiFont.glyphs[index].advanceX == 0)
        glyphWidth = ((float)guiFont.recs[index].width*scaleFactor);
   else glyphWidth = (float)guiFont.glyphs[index].advanceX*scaleFactor; *)
Definition glyphWidth (codepoint : Z) : F :=
  if (glyph_advanceX guiFont codepoint =? 0)%Z
  then glyph_rec_width guiFont codepoint * scaleFactor
  else #(glyph_advanceX guiFont codepoint) * scaleFactor.

(** What one glyph adds to the pen: its width and the text spacing. *)
Definition glyph_advance (codepoint : Z) : F :=
  glyphWidth codepoint + #(style DEFAULT TEXT_SPACING).

(* for (int i = 0, codepointSize = 0; i < size; i += codepointSize)
   { codepoint = GetCodepointNext(&text[i], &codepointSize); ...
     textSize.x += (glyphWidth + (float)GuiGetStyle(DEFAULT, TEXT_SPACING)); } *)
Fixpoint measure_from (fuel : nat) (text : list Z) (i size : nat) (x : F)
  : option F :=
  if (i <? size)%nat then
    match fuel with
    | O => None
    | S fuel' =>
        let '(codepoint, codepointSize) :=
          GetCodepointNext char_signed (drop i text) in
        measure_from fuel' text (i + Z.to_nat codepointSize) size
                     (x + glyph_advance codepoint)
    end
  else Some x.

(* for (int i = 1; (i < 5) && (text[i] != 0); i++)
     if (text[i] == '#') { textIconOffset = i; break; } *)
Fixpoint icon_offset (fuel : nat) (text : list Z) (i : nat) : nat :=
  match fuel with
  | O => 0
  | S fuel' =>
      if (i <? 5)%nat && negb (char_at text i =? 0)%Z then
        if (char_at text i =? ch_hash)%Z then i
        else icon_offset fuel' text (S i)
      else 0%nat
  end.

(* for (int i = 0; i < MAX_LINE_BUFFER_SIZE; i++)
     if ((text[i] != 0) && (text[i] is not the newline)) size++; else break; *)
Fixpoint measured_size (fuel : nat) (text : list Z) : nat :=
  match fuel, text with
  | S fuel', b :: rest =>
      if negb (b =? 0)%Z && negb (b =? ch_nl)%Z
      then S (measured_size fuel' rest) else 0%nat
  | _, _ => 0%nat
  end.

Definition GetTextWidth (fuel : nat) (text : list Z) : option Z :=
  if negb (char_at text 0 =? 0)%Z then
    let textIconOffset :=
      if (char_at text 0 =? ch_hash)%Z then icon_offset 4 text 1 else 0%nat in
    let text := drop textIconOffset text in
    x ← (if (texture_id guiFont >? 0)%Z
         then measure_from fuel text 0
                           (measured_size MAX_LINE_BUFFER_SIZE text) #0
         else Some #0);
    let x := if (0 <? textIconOffset)%nat
             then x + #(RAYGUI_ICON_SIZE + ICON_TEXT_PADDING) else x in
    Some (f_to_Z x)
  else Some (f_to_Z #0).

(** The glyph loop of one line for [TEXT_WRAP_NONE]:
    [for (int c = 0, codepointSize = 0; c < lineSize; c += codepointSize)],
    lines 8545-8643, from the turn at byte [c] with the pen at
    [textOffsetX]; [position] is [textBoundsPosition], and
    [textOffsetY] stays 0 in this mode. *)
Section LineLoop.
Variable line : list Z.
Variable lineSize : nat.
Variable textSizeX : Z.
Variable boundsWidth : F.                (* textBounds.width *)
Variable textBoundsWidthOffset : F.
Variable ellipsisWidth : Z.
Variable position : Vector2 F.
Variable inner_fuel : nat.               (* turns allowed to the ellipsis loop *)

(* textOffsetX <= (textBounds.width - glyphWidth - textBoundsWidthOffset
                   - ellipsisWidth) *)
Definition glyph_fits (textOffsetX : F) (codepoint : Z) : bool :=
  textOffsetX <=? boundsWidth - glyphWidth codepoint
                  - textBoundsWidthOffset - #ellipsisWidth.

Definition glyph_at (textOffsetX : F) (codepoint : Z) : Draw F :=
  DrawTextCodepoint codepoint
    (mkVector2 (v2_x position + textOffsetX) (v2_y position + #0)).

Definition ellipsis_at (textOffsetX : F) (j : Z) : Draw F :=
  DrawTextCodepoint ch_dot
    (mkVector2 (v2_x position + textOffsetX + #j) (v2_y position + #0)).

Fixpoint draw_glyphs (fuel : nat) (c : nat) (textOffsetX : F)
    (textOverflow : bool) : option (list (Draw F)) :=
  if (c <? lineSize)%nat then
    match fuel with
    | O => None
    | S fuel' =>
        let '(codepoint, codepointSize) :=
          next_codepoint char_signed line c in
        if (codepoint =? ch_nl)%Z then Some []        (* break *)
        else
          '(drawn, textOverflow') ←
            (if negb (codepoint =? ch_space)%Z
                && negb (codepoint =? ch_tab)%Z then
               if #textSizeX >? boundsWidth then
                 if glyph_fits textOffsetX codepoint
                 then Some ([glyph_at textOffsetX codepoint], textOverflow)
                 else if negb textOverflow then
                   js ← ellipsis_offsets inner_fuel 0 ellipsisWidth;
                   Some (map (ellipsis_at textOffsetX) js, true)
                 else Some ([], textOverflow)
               else Some ([glyph_at textOffsetX codepoint], textOverflow)
             else Some ([], textOverflow));
          rest ← draw_glyphs fuel' (c + Z.to_nat codepointSize)
                             (textOffsetX + glyph_advance codepoint)
                             textOverflow';
          Some (drawn ++ rest)
    end
  else Some [].
End LineLoop.

(* int textSizeX = GetTextWidth(lines[i]);
   if (iconId >= 0) { textSizeX += RAYGUI_ICON_SIZE*guiIconScale;
                      if (lines[i][0] != 0) textSizeX += ICON_TEXT_PADDING; } *)
Definition line_width (fuel : nat) (iconId : Z) (line : list Z) : option Z :=
  textSizeX ← GetTextWidth fuel line;
  Some (if (iconId >=? 0)%Z then
          let t := (textSizeX + RAYGUI_ICON_SIZE * guiIconScale)%Z in
          if negb (char_at line 0 =? 0)%Z then (t + ICON_TEXT_PADDING)%Z else t
        else textSizeX).

(** One turn of [for (int i = 0; i < lineCount; i++)], lines
    8470-8645, for [TEXT_WRAP_NONE]: the calls made for the line. *)
Definition draw_text_line (fuel : nat) (textBounds : Rectangle F)
    (alignment : Z) (totalHeight posOffsetY : F) (line : list Z)
  : option (list (Draw F)) :=
  let '(iconId, line) := GetTextIcon line in
  textSizeX ← line_width fuel iconId line;
  let x :=
    if (alignment =? TEXT_ALIGN_CENTER)%Z
    then rec_x textBounds + rec_width textBounds / #2 - #(Z.quot textSizeX 2)
    else if (alignment =? TEXT_ALIGN_RIGHT)%Z
    then rec_x textBounds + rec_width textBounds - #textSizeX
    else rec_x textBounds in
  let x := if (#textSizeX >? rec_width textBounds)
              && negb (char_at line 0 =? 0)%Z
           then rec_x textBounds else x in
  let pixelOffset := Z.rem (f_to_Z (rec_height textBounds)) 2 in
  let alignmentVertical := style DEFAULT TEXT_ALIGNMENT_VERTICAL in
  let y :=
    if (alignmentVertical =? TEXT_ALIGN_TOP)%Z
    then rec_y textBounds + posOffsetY
    else if (alignmentVertical =? TEXT_ALIGN_MIDDLE)%Z
    then rec_y textBounds + posOffsetY + rec_height textBounds / #2
         - totalHeight / #2 + #pixelOffset
    else if (alignmentVertical =? TEXT_ALIGN_BOTTOM)%Z
    then rec_y textBounds + posOffsetY + rec_height textBounds
         - totalHeight + #pixelOffset
    else rec_y textBounds in
  let x := #(f_to_Z x) in
  let y := #(f_to_Z y) in
  let iconWidth := (RAYGUI_ICON_SIZE * guiIconScale + ICON_TEXT_PADDING)%Z in
  let icon :=
    if (iconId >=? 0)%Z
    then [GuiDrawIcon iconId (f_to_Z x)
            (f_to_Z (rec_y textBounds + rec_height textBounds / #2
                     - #(Z.quot (RAYGUI_ICON_SIZE * guiIconScale) 2)
                     + #pixelOffset))]
    else [] in
  let x := if (iconId >=? 0)%Z then x + #iconWidth else x in
  let textBoundsWidthOffset := if (iconId >=? 0)%Z then #iconWidth else #0 in
  ellipsisWidth ← GetTextWidth fuel (cstring "..."%string);
  glyphs ← draw_glyphs line (line_size line) textSizeX (rec_width textBounds)
                       textBoundsWidthOffset ellipsisWidth (mkVector2 x y)
                       fuel fuel 0 #0 false;
  Some (icon ++ glyphs).

(* posOffsetY += (float)GuiGetStyle(DEFAULT, TEXT_LINE_SPACING) after each line *)
Fixpoint draw_text_lines (fuel : nat) (textBounds : Rectangle F)
    (alignment : Z) (totalHeight posOffsetY : F) (lines : list (list Z))
  : option (list (Draw F)) :=
  match lines with
  | [] => Some []
  | line :: lines' =>
      d ← draw_text_line fuel textBounds alignment totalHeight posOffsetY line;
      rest ← draw_text_lines fuel textBounds alignment totalHeight
               (posOffsetY + #(style DEFAULT TEXT_LINE_SPACING)) lines';
      Some (d ++ rest)
  end.

(** [GuiDrawText] for [TEXT_WRAP_MODE = TEXT_WRAP_NONE].  The wrap mode
    is read once, before the loops, and in this mode it is never
    written: the branches of the other two modes are dead and are left
    out.  The result lists the drawing calls in order; [None] means
    that some loop did not end within [fuel] turns. *)
Definition GuiDrawText (fuel : nat) (text : list Z) (textBounds : Rectangle F)
    (alignment : Z) : option (list (Draw F)) :=
  if (char_at text 0 =? 0)%Z then Some []
  else
    let lines := GetTextLines text in
    let lineCount := Z.of_nat (length lines) in
    let textSize := style DEFAULT TEXT_SIZE in
    let totalHeight :=
      #(lineCount * textSize + Z.quot ((lineCount - 1) * textSize) 2) in
    draw_text_lines fuel textBounds alignment totalHeight #0 lines.

(** *** Specification side: the truncated line, said declaratively *)

(** A codepoint that has a glyph to draw. *)
Definition visible (codepoint : Z) : bool :=
  negb (codepoint =? ch_space)%Z && negb (codepoint =? ch_tab)%Z.

(** The codepoints of a line up to a newline codepoint. *)
Fixpoint until_newline (cps : list Z) : list Z :=
  match cps with
  | [] => []
  | cp :: rest => if (cp =? ch_nl)%Z then [] else cp :: until_newline rest
  end.

(** Each codepoint with the pen offset it is met at. *)
Fixpoint with_pen (textOffsetX : F) (cps : list Z) : list (Z * F) :=
  match cps with
  | [] => []
  | cp :: rest =>
      (cp, textOffsetX) :: with_pen (textOffsetX + glyph_advance cp) rest
  end.

(** The pen after the codepoints [cps], from the pen at [textOffsetX]. *)
Fixpoint pen_end (textOffsetX : F) (cps : list Z) : F :=
  match cps with
  | [] => textOffsetX
  | cp :: rest => pen_end (textOffsetX + glyph_advance cp) rest
  end.

(** The drawing of a line that is wider than the bounds, said over its
    codepoints and their pen offsets, split in [pre ++ post]: the glyphs
    of the visible codepoints of [pre], which all fit, and then, when
    [post] is not empty, three dots from the pen offset of its first
    codepoint on, a third of the ellipsis width apart; that codepoint is
    the first visible one that does not fit. *)
Definition truncated_drawing (boundsWidth textBoundsWidthOffset : F)
    (ellipsisWidth : Z) (position : Vector2 F)
    (pre post : list (Z * F)) (draws : list (Draw F)) : Prop :=
  Forall (fun p => visible p.1 = true ->
                   glyph_fits boundsWidth textBoundsWidthOffset
                              ellipsisWidth p.2 p.1 = true) pre /\
  let glyphs := map (fun p => glyph_at position p.2 p.1)
                    (List.filter (fun p => visible p.1) pre) in
  match post with
  | [] => draws = glyphs
  | (cp, X0) :: _ =>
      visible cp = true /\
      glyph_fits boundsWidth textBoundsWidthOffset ellipsisWidth X0 cp
        = false /\
      draws = glyphs ++ [ellipsis_at position X0 0;
                         ellipsis_at position X0 (Z.quot ellipsisWidth 3);
                         ellipsis_at position X0 (2 * Z.quot ellipsisWidth 3)]
  end.

End Text.

(** ** Concrete frames, for running the code *)

(** [GuiGetStyle] on the table as [GuiLoadStyleDefault] leaves it. *)
Definition default_style_value (control property : Z) : Z :=
  match Style.get_value (Some Style.initial) control property with
  | Some v => v
  | None => 0
  end.

Definition rect32 (x y w h : Z) : Rectangle Binary32.float :=
  mkRectangle (Binary32.of_Z x) (Binary32.of_Z y)
              (Binary32.of_Z w) (Binary32.of_Z h).

(** The left button is held down with the pointer at [(x, y)]. *)
Definition held_at (x y : Z) : Input Binary32.float :=
  mkInput (mkVector2 (Binary32.of_Z x) (Binary32.of_Z y))
          true false false (Binary32.of_Z 0) false.

Definition rgb32 (r g b : Z) : Vector3 Binary32.float :=
  mkVector3 (Binary32.of_Z r) (Binary32.of_Z g) (Binary32.of_Z b).

(** The float nearest to [a/b], and the colour 0.2, 0.6, 0.1. *)
Definition ratio32 (a b : Z) : Binary32.float :=
  f_div (Binary32.of_Z a) (Binary32.of_Z b).

Definition sample_colour : Vector3 Binary32.float :=
  mkVector3 (ratio32 1 5) (ratio32 3 5) (ratio32 1 10).

(** [GuiGetStyle] after one more [GuiSetStyle(c, p, v)] that does not
    propagate: [c <> DEFAULT], or [p] is not a base property. *)
Definition set_style_value (style : Z -> Z -> Z) (c p v : Z) : Z -> Z -> Z :=
  fun c' p' => if (c' =? c) && (p' =? p) then v else style c' p'.

(** A style with arrows on the scroll bars and bars 20 pixels wide. *)
Definition arrows_style : Z -> Z -> Z :=
  set_style_value
    (set_style_value default_style_value SCROLLBAR ARROWS_VISIBLE 1)
    LISTVIEW SCROLLBAR_WIDTH 20.

(** A titled scroll panel 200 by 48 over a content 180 by 300, and the
    layout of its vertical bar as [GuiScrollPanel] calls [GuiScrollBar]
    for a scroll offset of 0. *)
Section SmallPanel.
Context {F : Type} `{FloatOps F}.

Definition small_panel_bounds : Rectangle F :=
  mkRectangle (f_of_Z 0) (f_of_Z 0) (f_of_Z 200) (f_of_Z 48).
Definition small_panel_content : Rectangle F :=
  mkRectangle (f_of_Z 0) (f_of_Z 0) (f_of_Z 180) (f_of_Z 300).

Definition small_panel_layout : ScrollPanelLayout :=
  GuiScrollPanel_layout arrows_style small_panel_bounds true small_panel_content.

Definition small_panel_vertical_bar : ScrollBarLayout F :=
  GuiScrollBar_layout
    (vertical_bar_style arrows_style small_panel_layout small_panel_content)
    (verticalScrollBar small_panel_layout)
    (f_to_Z (f_opp (f_of_Z 0)))
    (f_to_Z (verticalMin small_panel_layout))
    (f_to_Z (verticalMax small_panel_layout)).
End SmallPanel.

(** The globals after a slider with bounds [{0, 0, 100, 20}] was pressed
    at [(50, 10)]: the drag session that slider owns. *)
Definition slider_A : Rectangle Binary32.float := rect32 0 0 100 20.

Definition globals_dragging : Globals Binary32.float :=
  (GuiSliderPro default_style_value initial_globals (held_at 50 10) slider_A
     (Some (Binary32.of_Z 0)) (Binary32.of_Z 0) (Binary32.of_Z 1) 16).1.1.1.

(** A font with a base size of 10 whose glyphs all advance by 5, and
    text bounds [{0, 0, w, 20}]. *)
Section MonoFont.
Context {F : Type} `{FloatOps F}.

Definition mono_font : Font F :=
  mkFont 10 1 (fun _ => 5) (fun _ => f_of_Z 0).

Definition text_bounds (w : Z) : Rectangle F :=
  mkRectangle (f_of_Z 0) (f_of_Z 0) (f_of_Z w) (f_of_Z 20).

(** The glyph of [codepoint] drawn at [(x, 5)], the line of a text
    10 high centred in bounds 20 high. *)
Definition glyph_drawn (codepoint x : Z) : Draw F :=
  DrawTextCodepoint codepoint (mkVector2 (f_of_Z x) (f_of_Z 5)).
End MonoFont.

Definition hello_world : list Z := cstring "Hello World"%string.

(** The codepoints of the glyphs drawn, in order. *)
Definition drawn_codepoints {F : Type} (draws : list (Draw F)) : list Z :=
  flat_map (fun d => match d with
                     | DrawTextCodepoint codepoint _ => [codepoint]
                     | GuiDrawIcon _ _ _ => []
                     end) draws.

(** The default style with a text size of 15. *)
Definition large_text_style : Z -> Z -> Z :=
  set_style_value default_style_value DEFAULT TEXT_SIZE 15.

(* ================================================================== *)
(** * More of the library *)
(* ================================================================== *)

(** ** UTF-8 encoding (raygui.h, lines 9216-9254) *)

(** [(char)x]: the byte that is stored. *)
Definition to_char (x : Z) : Z := x mod 256.

(** [CodepointToUTF8]: the static buffer [utf8[6]] as the call leaves it,
    and the size it stores through [byteSize].  The bytes past the size
    keep what earlier calls left there. *)
Definition CodepointToUTF8 (utf8 : list Z) (codepoint : Z) : list Z * Z :=
  if codepoint <=? 0x7f then
    (<[0%nat := to_char codepoint]> utf8, 1)
  else if codepoint <=? 0x7ff then
    (<[1%nat := to_char (Z.lor (Z.land codepoint 0x3f) 0x80)]>
       (<[0%nat := to_char (Z.lor (Z.land (Z.shiftr codepoint 6) 0x1f) 0xc0)]>
          utf8), 2)
  else if codepoint <=? 0xffff then
    (<[2%nat := to_char (Z.lor (Z.land codepoint 0x3f) 0x80)]>
       (<[1%nat := to_char (Z.lor (Z.land (Z.shiftr codepoint 6) 0x3f) 0x80)]>
          (<[0%nat := to_char (Z.lor (Z.land (Z.shiftr codepoint 12) 0x0f)
                                     0xe0)]> utf8)), 3)
  else if codepoint <=? 0x10ffff then
    (<[3%nat := to_char (Z.lor (Z.land codepoint 0x3f) 0x80)]>
       (<[2%nat := to_char (Z.lor (Z.land (Z.shiftr codepoint 6) 0x3f) 0x80)]>
          (<[1%nat := to_char (Z.lor (Z.land (Z.shiftr codepoint 12) 0x3f)
                                     0x80)]>
             (<[0%nat := to_char (Z.lor (Z.land (Z.shiftr codepoint 18) 0x07)
                                        0xf0)]> utf8))), 4)
  else (utf8, 0).

(** ** Colours as integers (raygui.h, lines 9065-9081) *)

Record Color := mkColor {
  col_r : Z;
  col_g : Z;
  col_b : Z;
  col_a : Z
}.

(** A colour whose four channels are [unsigned char]s. *)
Definition is_color (c : Color) : Prop :=
  is_byte (col_r c) /\ is_byte (col_g c) /\ is_byte (col_b c) /\
  is_byte (col_a c).

(* color.r = (unsigned char)(hexValue >> 24) & 0xFF; ... the shift of a
   negative [int] is arithmetic *)
Definition GetColor (hexValue : Z) : Color :=
  mkColor (Z.land (to_char (Z.shiftr hexValue 24)) 0xFF)
          (Z.land (to_char (Z.shiftr hexValue 16)) 0xFF)
          (Z.land (to_char (Z.shiftr hexValue 8)) 0xFF)
          (Z.land (to_char hexValue) 0xFF).

(* (((int)color.r << 24) | ((int)color.g << 16) | ((int)color.b << 8)
   | (int)color.a), on 32 bits with wrap-around *)
Definition ColorToInt (color : Color) : Z :=
  to_signed
    (to_unsigned
       (Z.lor (Z.lor (Z.lor (Z.shiftl (col_r color) 24)
                            (Z.shiftl (col_g color) 16))
                     (Z.shiftl (col_b color) 8))
              (col_a color))).

(** ** Lines of a text, said declaratively *)

(** The number of newline bytes of a text. *)
Definition newlines (text : list Z) : nat :=
  length (List.filter (fun b => b =? ch_nl) text).

(** ** A custom style table *)

(* TextBox/TextBoxMulti/ValueBox/Spinner: TEXT_READONLY = 16 *)
Definition TEXT_READONLY : Z := 16.

(** The cleared table with the read-only flag of TEXTBOX set to 1. *)
Definition custom_table : Style.table :=
  Style.mkTable
    (<[Z.to_nat (Style.slot TEXTBOX TEXT_READONLY) := 1]>
       (Style.guiStyle Style.initial))
    false.

(** ** Splitting the text of a control (raygui.h, lines 8701-8754) *)

Definition RAYGUI_TEXTSPLIT_MAX_ITEMS : nat := 128.
Definition RAYGUI_TEXTSPLIT_MAX_TEXT_SIZE : nat := 1024.

(** A write to an array cell.  Outside the array it is undefined
    behaviour in C: the model stops with [None]. *)
Definition write_at {A : Type} (a : list A) (i : nat) (v : A)
  : option (list A) :=
  if (i <? length a)%nat then Some (<[i := v]> a) else None.

(** The statics of [GuiTextSplit] and the array of the caller, as the
    call leaves them: pointers into [buffer] are byte offsets. *)
Record Split := mkSplit {
  split_buffer : list Z;          (* static char buffer[1024] *)
  split_result : list nat;        (* static const char *result[128] *)
  split_rows : option (list Z);   (* textRow: NULL, or the caller's array *)
  split_count : nat               (* counter, stored through count *)
}.

(* if (textRow != NULL)
   { if (buffer[i] is the newline) textRow[counter] = textRow[counter - 1] + 1;
     else textRow[counter] = textRow[counter - 1]; } *)
Definition write_row (rows : option (list Z)) (counter : nat) (newline : bool)
  : option (option (list Z)) :=
  match rows with
  | None => Some None
  | Some r =>
      prev ← r !! (counter - 1)%nat;
      r' ← write_at r counter (if newline then prev + 1 else prev);
      Some (Some r')
  end.

(* for (int i = 0; i < RAYGUI_TEXTSPLIT_MAX_TEXT_SIZE; i++), from the turn
   at [i] with [turns] turns left *)
Fixpoint GuiTextSplit_from (turns : nat) (text : list Z) (delimiter : Z)
    (i : nat) (s : Split) : option Split :=
  match turns with
  | O => Some s
  | S turns' =>
      let b := char_at text i in
      buffer ← write_at (split_buffer s) i b;
      if b =? 0 then
        Some (mkSplit buffer (split_result s) (split_rows s) (split_count s))
      else if (b =? delimiter) || (b =? ch_nl) then
        result ← write_at (split_result s) (split_count s) (i + 1)%nat;
        rows ← write_row (split_rows s) (split_count s) (b =? ch_nl);
        buffer ← write_at buffer i 0;
        let counter := S (split_count s) in
        let s' := mkSplit buffer result rows counter in
        if (RAYGUI_TEXTSPLIT_MAX_ITEMS <? counter)%nat then Some s'
        else GuiTextSplit_from turns' text delimiter (S i) s'
      else
        GuiTextSplit_from turns' text delimiter (S i)
          (mkSplit buffer (split_result s) (split_rows s) (split_count s))
  end.

(** [GuiTextSplit]: [result0] is what earlier calls left in the static
    array of pointers. *)
Definition GuiTextSplit (result0 : list nat) (text : list Z) (delimiter : Z)
    (textRow : option (list Z)) : option Split :=
  let buffer := replicate RAYGUI_TEXTSPLIT_MAX_TEXT_SIZE 0 in
  result ← write_at result0 0 0%nat;
  rows ← match textRow with
          | None => Some None
          | Some r => r' ← write_at r 0 0; Some (Some r')
          end;
  GuiTextSplit_from RAYGUI_TEXTSPLIT_MAX_TEXT_SIZE text delimiter 0
                    (mkSplit buffer result rows 1).

(** The C string that starts a buffer; [None] when the buffer ends
    before a terminator is met. *)
Fixpoint cstring_at (buffer : list Z) : option (list Z) :=
  match buffer with
  | [] => None
  | b :: rest => if b =? 0 then Some [] else (cons b) <$> cstring_at rest
  end.

(** [items[k]], the string that the [k]-th pointer points to. *)
Definition split_item (s : Split) (k : nat) : option (list Z) :=
  offset ← split_result s !! k;
  cstring_at (drop offset (split_buffer s)).

(** *** Specification side *)

(** The bytes at which [GuiTextSplit] cuts. *)
Definition separator (delimiter b : Z) : bool :=
  (b =? delimiter) || (b =? ch_nl).

(** The pieces of a text between its separators. *)
Fixpoint pieces (delimiter : Z) (text : list Z) : list (list Z) :=
  match text with
  | [] => [[]]
  | b :: rest =>
      if separator delimiter b then [] :: pieces delimiter rest
      else match pieces delimiter rest with
           | piece :: more => (b :: piece) :: more
           | [] => [[b]]
           end
  end.

(** The row of each piece after the first, from row [row]: a newline
    starts a new row, the delimiter stays on the row. *)
Fixpoint piece_rows (delimiter : Z) (row : Z) (text : list Z) : list Z :=
  match text with
  | [] => []
  | b :: rest =>
      if separator delimiter b then
        let row' := if b =? ch_nl then row + 1 else row in
        row' :: piece_rows delimiter row' rest
      else piece_rows delimiter row rest
  end.

(** A byte of a C string: not the terminator. *)
Definition text_byte (b : Z) : Prop := 0 < b < 256.

(** The text of three items on two rows: ONE;TWO, a newline, THREE. *)
Definition three_items : list Z :=
  cstring "ONE;TWO"%string ++ ch_nl :: cstring "THREE"%string.

(** ** Toggles, check boxes and combo boxes
       (raygui.h, lines 2048-2143, 2217-2281, 2284-2345) *)

Section MoreControls.
Context {F : Type} `{FloatOps F}.

Variable style : Z -> Z -> Z.

Local Open Scope float_scope.
Local Notation "# n" := (f_of_Z n) (at level 5, format "# n").

(** The controls below take input only under this test:
    [(state != STATE_DISABLED) && !guiLocked && !guiControlExclusiveMode]. *)
Definition live (g : Globals F) : bool :=
  negb (guiState g =? STATE_DISABLED)%Z && negb (guiLocked g)
  && negb (guiControlExclusiveMode g).

(** [GuiToggle]: the state the control is drawn in, [*active] after the
    call and the result. *)
Definition GuiToggle (g : Globals F) (inp : Input F) (bounds : Rectangle F)
    (active : bool) : Z * bool * Z :=
  let state := guiState g in
  let '(state, active) :=
    if live g then
      if CheckCollisionPointRec (mousePoint inp) bounds then
        if mouseDown inp then (STATE_PRESSED, active)
        else if mouseReleased inp then (STATE_NORMAL, negb active)
        else (STATE_FOCUSED, active)
      else (state, active)
    else (state, active) in
  (state, active, 0%Z).

(** [GuiCheckBox]: the state the control is drawn in, [*checked] after
    the call and the result; [text = None] is the NULL pointer. *)
Definition GuiCheckBox (char_signed : bool) (guiFont : Font F) (fuel : nat)
    (g : Globals F) (inp : Input F) (bounds : Rectangle F)
    (text : option (list Z)) (checked : bool) : option (Z * bool * Z) :=
  let state := guiState g in
  textBounds ←
    match text with
    | Some text =>
        textWidth ← GetTextWidth char_signed style guiFont fuel text;
        let width := #textWidth + #2 in
        let x :=
          if (style CHECKBOX TEXT_ALIGNMENT =? TEXT_ALIGN_LEFT)%Z
          then rec_x bounds - width - #(style CHECKBOX TEXT_PADDING)
          else rec_x bounds + rec_width bounds
               + #(style CHECKBOX TEXT_PADDING) in
        Some (mkRectangle x
                (rec_y bounds + rec_height bounds / #2
                 - #(Z.quot (style DEFAULT TEXT_SIZE) 2))
                width #(style DEFAULT TEXT_SIZE))
    | None => Some (mkRectangle #0 #0 #0 #0)
    end;
  Some
    (if live g then
       let totalBounds :=
         mkRectangle
           (if (style CHECKBOX TEXT_ALIGNMENT =? TEXT_ALIGN_LEFT)%Z
            then rec_x textBounds else rec_x bounds)
           (rec_y bounds)
           (rec_width bounds + rec_width textBounds
            + #(style CHECKBOX TEXT_PADDING))
           (rec_height bounds) in
       if CheckCollisionPointRec (mousePoint inp) totalBounds then
         (if mouseDown inp then STATE_PRESSED else STATE_FOCUSED,
          if mouseReleased inp then negb checked else checked,
          if mouseReleased inp then 1 else 0)%Z
       else (state, checked, 0%Z)
     else (state, checked, 0%Z)).

(* #define RAYGUI_TOGGLEGROUP_MAX_ITEMS 32: int rows[32] = { 0 } *)
Definition RAYGUI_TOGGLEGROUP_MAX_ITEMS : nat := 32.

(** [for (int i = 0; i < itemCount; i++)] of [GuiToggleGroup], from the
    turn at [i] with [turns] turns left: [*active] after the loop.
    Reading [rows[i]] or [items[i]] outside what they hold stops the
    model. *)
Fixpoint toggle_group_from (turns : nat) (g : Globals F) (inp : Input F)
    (s : Split) (rows : list Z) (i : nat) (bounds : Rectangle F)
    (initBoundsX : F) (prevRow : Z) (active : Z) : option Z :=
  match turns with
  | O => Some active
  | S turns' =>
      row ← rows !! i;
      _ ← split_item s i;
      let '(bounds, prevRow) :=
        if negb (prevRow =? row)%Z then
          (mkRectangle initBoundsX
             (rec_y bounds
              + (rec_height bounds + #(style TOGGLE GROUP_PADDING)))
             (rec_width bounds) (rec_height bounds), row)
        else (bounds, prevRow) in
      let active :=
        if (Z.of_nat i =? active)%Z then active
        else if (GuiToggle g inp bounds false).1.2 then Z.of_nat i
             else active in
      toggle_group_from turns' g inp s rows (S i)
        (mkRectangle
           (rec_x bounds
            + (rec_width bounds + #(style TOGGLE GROUP_PADDING)))
           (rec_y bounds) (rec_width bounds) (rec_height bounds))
        initBoundsX prevRow active
  end.

(** [GuiToggleGroup]: [*active] after the call. *)
Definition GuiToggleGroup (g : Globals F) (inp : Input F)
    (result0 : list nat) (bounds : Rectangle F) (text : list Z)
    (active : Z) : option Z :=
  s ← GuiTextSplit result0 text 59
        (Some (replicate RAYGUI_TOGGLEGROUP_MAX_ITEMS 0));
  rows ← split_rows s;
  prevRow ← rows !! 0%nat;
  toggle_group_from (split_count s) g inp s rows 0 bounds (rec_x bounds)
                    prevRow active.

End MoreControls.

(** [GuiComboBox]: the style table it leaves, the state the control is
    drawn in and [*active] after the call.  The style is read through
    the table, since the call writes it. *)
Definition GuiComboBox {F : Type} `{FloatOps F}
    (t : Style.table) (g : Globals F) (inp : Input F)
    (result0 : list nat) (bounds : Rectangle F) (text : list Z)
    (active : Z) : option (Style.table * Z * Z) :=
  let state := guiState g in
  '(t, buttonWidth) ← Style.GuiGetStyle t COMBOBOX COMBO_BUTTON_WIDTH;
  '(t, buttonSpacing) ← Style.GuiGetStyle t COMBOBOX COMBO_BUTTON_SPACING;
  let bounds :=
    mkRectangle (rec_x bounds) (rec_y bounds)
      (f_sub (rec_width bounds) (f_of_Z (buttonWidth + buttonSpacing)))
      (rec_height bounds) in
  '(t, selectorSpacing) ← Style.GuiGetStyle t COMBOBOX COMBO_BUTTON_SPACING;
  '(t, selectorWidth) ← Style.GuiGetStyle t COMBOBOX COMBO_BUTTON_WIDTH;
  let selector :=
    mkRectangle
      (f_add (f_add (rec_x bounds) (rec_width bounds))
             (f_of_Z selectorSpacing))
      (rec_y bounds) (f_of_Z selectorWidth) (rec_height bounds) in
  s ← GuiTextSplit result0 text 59 None;
  let itemCount := Z.of_nat (split_count s) in
  let active :=
    if active <? 0 then 0
    else if active >? itemCount - 1 then itemCount - 1 else active in
  let '(state, active) :=
    if live g && (itemCount >? 1) then
      if CheckCollisionPointRec (mousePoint inp) bounds
         || CheckCollisionPointRec (mousePoint inp) selector then
        (if mouseDown inp then STATE_PRESSED else STATE_FOCUSED,
         if mousePressed inp
         then (if active + 1 >=? itemCount then 0 else active + 1)
         else active)
      else (state, active)
    else (state, active) in
  (* GuiDrawText(items[*active], ...) *)
  _ ← (if 0 <=? active then split_item s (Z.to_nat active) else None);
  '(t, tempBorderWidth) ← Style.GuiGetStyle t BUTTON BORDER_WIDTH;
  '(t, tempTextAlign) ← Style.GuiGetStyle t BUTTON TEXT_ALIGNMENT;
  t ← Style.GuiSetStyle t BUTTON BORDER_WIDTH 1;
  t ← Style.GuiSetStyle t BUTTON TEXT_ALIGNMENT TEXT_ALIGN_CENTER;
  let _ := GuiButton g inp selector in
  t ← Style.GuiSetStyle t BUTTON TEXT_ALIGNMENT tempTextAlign;
  t ← Style.GuiSetStyle t BUTTON BORDER_WIDTH tempBorderWidth;
  Some (t, state, active).

(** The cells of [guiStyle] are [unsigned int]s. *)
Definition cells_unsigned (t : Style.table) : Prop :=
  Forall (fun u => 0 <= u < 2 ^ 32) (Style.guiStyle t).

(** ** Reading a float (raygui.h, lines 9187-9213) *)

Section ReadingFloats.
Context {F : Type} `{FloatOps F}.

Local Open Scope float_scope.
Local Notation "# n" := (f_of_Z n) (at level 5, format "# n").

(* for (; ((text[i] >= '0') && (text[i] <= '9')); i++)
       value = value*10.0f + (float)(text[i] - '0');
   the value, and the text from [text[i]] on *)
Fixpoint float_digits (text : list Z) (value : F) : F * list Z :=
  match text with
  | c :: rest =>
      if is_digit c then float_digits rest (value * #10 + #(c - ch_0))
      else (value, text)
  | [] => (value, [])
  end.

(* for (; ((text[i] >= '0') && (text[i] <= '9')); i++)
   { value += ((float)(text[i] - '0'))/divisor; divisor = divisor*10.0f; } *)
Fixpoint float_fraction (text : list Z) (value divisor : F) : F :=
  match text with
  | c :: rest =>
      if is_digit c
      then float_fraction rest (value + #(c - ch_0) / divisor)
                          (divisor * #10)
      else value
  | [] => value
  end.

Definition TextToFloat (text : list Z) : F :=
  let '(sign, text) :=
    if ((char_at text 0 =? ch_plus) || (char_at text 0 =? ch_minus))%Z
    then ((if (char_at text 0 =? ch_minus)%Z then #(-1) else #1),
          drop 1 text)
    else (#1, text) in
  let '(value, text) := float_digits text #0 in
  if negb (char_at text 0 =? ch_dot)%Z then value * sign
  else float_fraction (drop 1 text) value #10.

End ReadingFloats.

(** ** Loading a style from memory (raygui.h, lines 8027-8245)

    The function as it is compiled with RAYGUI_STANDALONE, where the
    font that follows the properties is not read. *)

(** [memcpy(&x, fileData + ptr, n)]: the [n] bytes at [ptr].  The
    function never looks at [dataSize]; a read past the end of
    [fileData] stops the model. *)
Definition memcpy_from (fileData : list Z) (ptr n : nat) : option (list Z) :=
  if (ptr + n <=? length fileData)%nat
  then Some (take n (drop ptr fileData)) else None.

(** The value of the bytes of an integer on a little-endian host. *)
Fixpoint little_endian (bytes : list Z) : Z :=
  match bytes with
  | [] => 0
  | b :: rest => b + 256 * little_endian rest
  end.

Definition read_short (fileData : list Z) (ptr : nat) : option Z :=
  bytes ← memcpy_from fileData ptr 2;
  let u := little_endian bytes in
  Some (if u <? 2 ^ 15 then u else u - 2 ^ 16).

Definition read_int (fileData : list Z) (ptr : nat) : option Z :=
  bytes ← memcpy_from fileData ptr 4; Some (to_signed (little_endian bytes)).

Definition read_unsigned (fileData : list Z) (ptr : nat) : option Z :=
  bytes ← memcpy_from fileData ptr 4; Some (little_endian bytes).

(* for (int i = 1; i < RAYGUI_MAX_CONTROLS; i++)
       GuiSetStyle(i, (int)propertyId, propertyValue);
   from [i], with [n] iterations left *)
Fixpoint set_for_controls (n : nat) (i : Z) (t : Style.table)
    (propertyId propertyValue : Z) : option Style.table :=
  match n with
  | O => Some t
  | S n' =>
      t' ← Style.GuiSetStyle t i propertyId propertyValue;
      set_for_controls n' (i + 1) t' propertyId propertyValue
  end.

(* for (int i = 0; i < propertyCount; i++) { ... fileDataPtr += 8; ... }
   with [count] iterations left; [propertyValue], an [unsigned int], is
   passed to [GuiSetStyle] as an [int] *)
Fixpoint load_properties (count : nat) (fileData : list Z) (ptr : nat)
    (t : Style.table) : option Style.table :=
  match count with
  | O => Some t
  | S count' =>
      controlId ← read_short fileData ptr;
      propertyId ← read_short fileData (ptr + 2);
      propertyValue ← read_unsigned fileData (ptr + 2 + 2);
      let value := to_signed propertyValue in
      t' ← (if controlId =? 0 then
              t' ← Style.GuiSetStyle t 0 propertyId value;
              if propertyId <? RAYGUI_MAX_PROPS_BASE
              then set_for_controls (Z.to_nat (RAYGUI_MAX_CONTROLS - 1)) 1
                                    t' propertyId value
              else Some t'
            else Style.GuiSetStyle t controlId propertyId value);
      load_properties count' fileData (ptr + 8) t'
  end.

Definition GuiLoadStyleFromMemory (t : Style.table) (fileData : list Z)
  : option Style.table :=
  signature ← memcpy_from fileData 0 4;
  version ← read_short fileData 4;
  reserved ← read_short fileData (4 + 2);
  propertyCount ← read_int fileData (4 + 2 + 2);
  if (char_at signature 0 =? 114) && (char_at signature 1 =? 71)
     && (char_at signature 2 =? 83) && (char_at signature 3 =? 32)
  then load_properties (Z.to_nat propertyCount) fileData 12 t
  else Some t.

(** The property records of a style file: control, property and value of
    the [count] records from [ptr] on. *)
Fixpoint records (count : nat) (fileData : list Z) (ptr : nat)
  : list (Z * Z * Z) :=
  match count with
  | O => []
  | S count' =>
      match read_short fileData ptr, read_short fileData (ptr + 2),
            read_unsigned fileData (ptr + 2 + 2) with
      | Some c, Some p, Some v =>
          (c, p, to_signed v) :: records count' fileData (ptr + 8)
      | _, _, _ => []
      end
  end.

Definition property_count (fileData : list Z) : nat :=
  Z.to_nat (to_signed (little_endian (take 4 (drop 8 fileData)))).

Definition has_signature (fileData : list Z) : bool :=
  (char_at fileData 0 =? 114) && (char_at fileData 1 =? 71)
  && (char_at fileData 2 =? 83) && (char_at fileData 3 =? 32).

(** The cell of a record lies in [guiStyle]. *)
Definition in_table (record : Z * Z * Z) : Prop :=
  0 <= Style.slot record.1.1 record.1.2 < Style.size.

(** A file of two records after the header: DEFAULT's border width 3,
    and BUTTON's text size 20; and the same file with control 16 in the
    second record. *)
Definition style_file : list Z :=
  [114; 71; 83; 32;  200; 0;  0; 0;  2; 0; 0; 0;
   0; 0;  12; 0;  3; 0; 0; 0;
   2; 0;  16; 0;  20; 0; 0; 0].

Definition bad_style_file : list Z :=
  [114; 71; 83; 32;  200; 0;  0; 0;  2; 0; 0; 0;
   0; 0;  12; 0;  3; 0; 0; 0;
   16; 0;  16; 0;  20; 0; 0; 0].

(** ** List view (raygui.h, lines 3343-3502) *)

Section ListView.
Context {F : Type} `{FloatOps F}.

Variable style : Z -> Z -> Z.

Local Open Scope float_scope.
Local Notation "# n" := (f_of_Z n) (at level 5, format "# n").

(* int visibleItems = (int)bounds.height/(GuiGetStyle(LISTVIEW, LIST_ITEMS_HEIGHT)
       + GuiGetStyle(LISTVIEW, LIST_ITEMS_SPACING));
   if (visibleItems > count) visibleItems = count;
   the division is undefined for a divisor of 0 *)
Definition visible_items (bounds : Rectangle F) (count : Z) : option Z :=
  let step :=
    (style LISTVIEW LIST_ITEMS_HEIGHT + style LISTVIEW LIST_ITEMS_SPACING)%Z in
  if (step =? 0)%Z then None
  else
    let visibleItems := Z.quot (f_to_Z (rec_height bounds)) step in
    Some (if (visibleItems >? count)%Z then count else visibleItems).

(* for (int i = 0; i < visibleItems; i++)
   {
       if (CheckCollisionPointRec(mousePoint, itemBounds)) { ...; break; }
       itemBounds.y += (GuiGetStyle(LISTVIEW, LIST_ITEMS_HEIGHT)
                        + GuiGetStyle(LISTVIEW, LIST_ITEMS_SPACING));
   }
   the [i] at which the loop breaks, from [i] with [turns] turns left *)
Fixpoint item_under (turns : nat) (i : Z) (mouse : Vector2 F)
    (itemBounds : Rectangle F) : option Z :=
  match turns with
  | O => None
  | S turns' =>
      if CheckCollisionPointRec mouse itemBounds then Some i
      else
        item_under turns' (i + 1) mouse
          (mkRectangle (rec_x itemBounds)
             (rec_y itemBounds
              + #(style LISTVIEW LIST_ITEMS_HEIGHT
                  + style LISTVIEW LIST_ITEMS_SPACING))
             (rec_width itemBounds) (rec_height itemBounds))
  end.

(* for (int i = 0; ((i < visibleItems) && (text != NULL)); i++)
       ... GuiDrawText(text[startIndex + i], ...) ...
   the items read, from [i] with [turns] turns left; reading outside
   [text] stops the model *)
Fixpoint items_drawn (turns : nat) (i : Z) (text : list (list Z))
    (startIndex : Z) : option (list (list Z)) :=
  match turns with
  | O => Some []
  | S turns' =>
      item ← (if (0 <=? startIndex + i)%Z
              then text !! Z.to_nat (startIndex + i) else None);
      rest ← items_drawn turns' (i + 1) text startIndex;
      Some (item :: rest)
  end.

(** What [GuiListViewEx] leaves and draws. *)
Record ListViewResult := mkListViewResult {
  lv_globals : Globals F;
  lv_state : Z;
  lv_startIndex : Z;        (* written to [*scrollIndex] *)
  lv_itemSelected : Z;      (* written to [*active] *)
  lv_itemFocused : Z;       (* written to [*focus] *)
  lv_drawn : list (list Z)  (* the items passed to [GuiDrawText] *)
}.

(** [GuiListViewEx]; [None] for a pointer is NULL, and [count] is the
    number of items the caller says [text] has. *)
Definition GuiListViewEx (g : Globals F) (inp : Input F)
    (bounds : Rectangle F) (text : option (list (list Z))) (count : Z)
    (scrollIndex active focus : option Z) : option ListViewResult :=
  let state := guiState g in
  let itemFocused := match focus with None => (-1)%Z | Some v => v end in
  let itemSelected := match active with None => (-1)%Z | Some v => v end in
  let itemsHeight := style LISTVIEW LIST_ITEMS_HEIGHT in
  let itemsSpacing := style LISTVIEW LIST_ITEMS_SPACING in
  let useScrollBar :=
    #((itemsHeight + itemsSpacing) * count) >? rec_height bounds in
  let itemY :=
    rec_y bounds + #itemsSpacing + #(style DEFAULT BORDER_WIDTH) in
  let itemWidth :=
    rec_width bounds - #(2 * itemsSpacing) - #(style DEFAULT BORDER_WIDTH) in
  let itemWidth :=
    if useScrollBar then itemWidth - #(style LISTVIEW SCROLLBAR_WIDTH)
    else itemWidth in
  let itemBounds :=
    mkRectangle (rec_x bounds + #itemsSpacing) itemY itemWidth
                #itemsHeight in
  visibleItems ← visible_items bounds count;
  let startIndex := match scrollIndex with None => 0%Z | Some v => v end in
  let startIndex :=
    if ((startIndex <? 0) || (startIndex >? count - visibleItems))%Z
    then 0%Z else startIndex in
  let endIndex := (startIndex + visibleItems)%Z in
  let '(state, itemFocused, itemSelected, startIndex, endIndex) :=
    if live g then
      if CheckCollisionPointRec (mousePoint inp) bounds then
        let '(itemFocused, itemSelected) :=
          match item_under (Z.to_nat visibleItems) 0 (mousePoint inp)
                           itemBounds with
          | Some i =>
              ((startIndex + i)%Z,
               if mousePressed inp
               then (if (itemSelected =? startIndex + i)%Z then (-1)%Z
                     else (startIndex + i)%Z)
               else itemSelected)
          | None => (itemFocused, itemSelected)
          end in
        let '(startIndex, endIndex) :=
          if useScrollBar then
            let startIndex := (startIndex - f_to_Z (wheelMove inp))%Z in
            let startIndex :=
              if (startIndex <? 0)%Z then 0%Z
              else if (startIndex >? count - visibleItems)%Z
                   then (count - visibleItems)%Z else startIndex in
            let endIndex := (startIndex + visibleItems)%Z in
            (startIndex, if (endIndex >? count)%Z then count else endIndex)
          else (startIndex, endIndex) in
        (STATE_FOCUSED, itemFocused, itemSelected, startIndex, endIndex)
      else (state, (-1)%Z, itemSelected, startIndex, endIndex)
    else (state, itemFocused, itemSelected, startIndex, endIndex) in
  drawn ←
    match text with
    | Some text => items_drawn (Z.to_nat visibleItems) 0 text startIndex
    | None => Some []
    end;
  let '(g, startIndex) :=
    if useScrollBar then
      let scrollBarBounds :=
        mkRectangle
          (rec_x bounds + rec_width bounds
           - #(style LISTVIEW BORDER_WIDTH)
           - #(style LISTVIEW SCROLLBAR_WIDTH))
          (rec_y bounds + #(style LISTVIEW BORDER_WIDTH))
          #(style LISTVIEW SCROLLBAR_WIDTH)
          (rec_height bounds - #(2 * style DEFAULT BORDER_WIDTH)) in
      let percentVisible := #(endIndex - startIndex) / #count in
      let sliderSize := rec_height bounds * percentVisible in
      let style' :=
        set_style_value
          (set_style_value style SCROLLBAR SCROLL_SLIDER_SIZE
                           (f_to_Z sliderSize))
          SCROLLBAR SCROLL_SPEED (count - visibleItems) in
      GuiScrollBar style' g inp scrollBarBounds startIndex 0
                   (count - visibleItems)
    else (g, startIndex) in
  Some (mkListViewResult g state startIndex itemSelected itemFocused drawn).

End ListView.

(** ** Value box and spinner (raygui.h, lines 2791-2979) *)

(** The keyboard of the frame, as the value box asks for it. *)
Record Keys := mkKeys {
  charPressed : Z;            (* GetCharPressed() *)
  backspacePressed : bool;    (* IsKeyPressed(KEY_BACKSPACE) *)
  enterPressed : bool         (* IsKeyPressed(KEY_ENTER) || IsKeyPressed(KEY_KP_ENTER) *)
}.

Definition RAYGUI_VALUEBOX_MAX_CHARS : Z := 32.

(* if ( *value > maxValue) *value = maxValue;
   else if ( *value < minValue) *value = minValue; *)
Definition clamp_int (value minValue maxValue : Z) : Z :=
  if value >? maxValue then maxValue
  else if value <? minValue then minValue else value.

(** What [sprintf(textValue, "%i", value)] leaves in the buffer: the
    decimal digits of the value, after a minus sign for a negative
    one. *)
Definition numeral (textValue : list Z) (value : Z) : Prop :=
  exists ds,
    all_digits ds /\ ds <> [] /\
    ((0 <= value /\ textValue = ds /\ value = decimal ds) \/
     (value < 0 /\ textValue = ch_minus :: ds /\ value = - decimal ds)).

Section ValueBox.
Context {F : Type} `{FloatOps F}.

Variable char_signed : bool.
Variable style : Z -> Z -> Z.
Variable guiFont : Font F.
Variable fuel : nat.

Local Open Scope float_scope.
Local Notation "# n" := (f_of_Z n) (at level 5, format "# n").

(** [GuiValueBox]: the state the control is drawn in, [*value] after the
    call, the result and the text drawn.  [textValue] is the buffer as
    [sprintf] left it. *)
Definition GuiValueBox (g : Globals F) (inp : Input F) (keys : Keys)
    (bounds : Rectangle F) (textValue : list Z)
    (value minValue maxValue : Z) (editMode : bool)
  : option (Z * Z * Z * list Z) :=
  let state := guiState g in
  if live g then
    if editMode then
      let keyCount := Z.of_nat (length textValue) in
      typed ←
        (if (keyCount <? RAYGUI_VALUEBOX_MAX_CHARS)%Z then
           width ← GetTextWidth char_signed style guiFont fuel textValue;
           Some
             (if #width <? rec_width bounds then
                if ((charPressed keys >=? 48) && (charPressed keys <=? 57))%Z
                then (textValue ++ [charPressed keys], true)
                else (textValue, false)
              else (textValue, false))
         else Some (textValue, false));
      let '(textValue, valueHasChanged) := typed in
      let keyCount := length textValue in
      let '(textValue, valueHasChanged) :=
        if (0 <? keyCount)%nat && backspacePressed keys
        then (take (keyCount - 1) textValue, true)
        else (textValue, valueHasChanged) in
      let value :=
        if valueHasChanged then TextToInteger textValue else value in
      let '(value, result) :=
        if enterPressed keys
           || (negb (CheckCollisionPointRec (mousePoint inp) bounds)
               && mousePressed inp)
        then (clamp_int value minValue maxValue, 1%Z)
        else (value, 0%Z) in
      Some (STATE_PRESSED, value, result, textValue)
    else
      let value := clamp_int value minValue maxValue in
      Some
        (if CheckCollisionPointRec (mousePoint inp) bounds
         then (STATE_FOCUSED, value,
               if mousePressed inp then 1%Z else 0%Z, textValue)
         else (state, value, 0%Z, textValue))
  else Some (state, value, 0%Z, textValue).

(** [GuiSpinner]: [*value] after the call and the result.
    [format_int] stands for [sprintf] with ["%i"]. *)
Definition GuiSpinner (format_int : Z -> list Z) (g : Globals F)
    (inp : Input F) (keys : Keys) (bounds : Rectangle F)
    (value minValue maxValue : Z) (editMode : bool) : option (Z * Z) :=
  let tempValue := value in
  let buttonWidth := style SPINNER SPIN_BUTTON_WIDTH in
  let buttonSpacing := style SPINNER SPIN_BUTTON_SPACING in
  let spinner :=
    mkRectangle (rec_x bounds + #buttonWidth + #buttonSpacing)
                (rec_y bounds)
                (rec_width bounds - #(2 * (buttonWidth + buttonSpacing)))
                (rec_height bounds) in
  let leftButtonBound :=
    mkRectangle (rec_x bounds) (rec_y bounds) #buttonWidth
                (rec_height bounds) in
  let rightButtonBound :=
    mkRectangle (rec_x bounds + rec_width bounds - #buttonWidth)
                (rec_y bounds) #buttonWidth (rec_height bounds) in
  let tempValue :=
    if negb ((GuiButton g inp leftButtonBound).2 =? 0)%Z
    then (tempValue - 1)%Z else tempValue in
  let tempValue :=
    if negb ((GuiButton g inp rightButtonBound).2 =? 0)%Z
    then (tempValue + 1)%Z else tempValue in
  let tempValue :=
    if negb editMode then
      let tempValue :=
        if (tempValue <? minValue)%Z then minValue else tempValue in
      if (tempValue >? maxValue)%Z then maxValue else tempValue
    else tempValue in
  '(_, tempValue, result, _) ←
    GuiValueBox g inp keys spinner (format_int tempValue) tempValue
                minValue maxValue editMode;
  Some (tempValue, result).

End ValueBox.

(** ** Splitting a text (raygui.h, lines 9120-9164) *)

(* for (int i = 0; i < RAYGUI_TEXTSPLIT_MAX_TEXT_SIZE; i++), from the turn
   at [i] with [turns] turns left: the buffer, the pointers and the
   counter *)
Fixpoint TextSplit_from (turns : nat) (text : list Z) (delimiter : Z)
    (i : nat) (buffer : list Z) (result : list nat) (counter : nat)
  : option (list Z * list nat * nat) :=
  match turns with
  | O => Some (buffer, result, counter)
  | S turns' =>
      let b := char_at text i in
      buffer ← write_at buffer i b;
      if b =? 0 then Some (buffer, result, counter)
      else if b =? delimiter then
        buffer ← write_at buffer i 0;
        result ← write_at result counter (i + 1)%nat;
        let counter := S counter in
        if (counter =? RAYGUI_TEXTSPLIT_MAX_ITEMS)%nat
        then Some (buffer, result, counter)
        else TextSplit_from turns' text delimiter (S i) buffer result counter
      else TextSplit_from turns' text delimiter (S i) buffer result counter
  end.

(** [TextSplit]: the static buffer, the static array of pointers, as
    byte offsets into the buffer, and the count; [text = None] is the
    NULL pointer. *)
Definition TextSplit (result0 : list nat) (text : option (list Z))
    (delimiter : Z) : option (list Z * list nat * nat) :=
  let buffer := replicate RAYGUI_TEXTSPLIT_MAX_TEXT_SIZE 0 in
  result ← write_at result0 0 0%nat;
  match text with
  | None => Some (buffer, result, 0%nat)
  | Some text =>
      TextSplit_from RAYGUI_TEXTSPLIT_MAX_TEXT_SIZE text delimiter 0
                     buffer result 1
  end.

(** The number of delimiters in a text. *)
Definition delimiters (delimiter : Z) (text : list Z) : nat :=
  length (filter (fun b => b = delimiter) text).

(* ================================================================== *)
(** * Properties *)
(* ================================================================== *)

(** ** Float comparison *)

Lemma SFcompare_swap (x y : spec_float) :
  SFcompare y x = option_map CompOpp (SFcompare x y).
Proof.
  destruct x as [sx|sx| |sx mx ex], y as [sy|sy| |sy my ey]; simpl;
    try reflexivity;
    try (destruct sx; reflexivity);
    try (destruct sy; reflexivity);
    try (destruct sx, sy; reflexivity).
  destruct sx, sy; simpl; try reflexivity;
    rewrite (Z.compare_antisym ey ex);
    destruct (ey ?= ex) eqn:E; simpl; try reflexivity;
    rewrite (Pos.compare_cont_antisym mx my Eq); simpl;
    try rewrite CompOpp_involutive; reflexivity.
Qed.

Lemma SFcompare_None (x y : spec_float) :
  SFcompare x y = None ->
  Binary32.is_nan x = true \/ Binary32.is_nan y = true.
Proof.
  destruct x, y; simpl; intros E; try discriminate E; auto.
Qed.

Lemma SFltb_false_SFleb (x y : spec_float) :
  Binary32.is_nan x = false -> Binary32.is_nan y = false ->
  SFltb x y = false -> SFleb y x = true.
Proof.
  intros Hx Hy. unfold SFltb, SFleb. rewrite (SFcompare_swap x y).
  destruct (SFcompare x y) as [[]|] eqn:E; simpl; try congruence.
  apply SFcompare_None in E. destruct E; congruence.
Qed.

Lemma SFleb_SFltb_false (x y : spec_float) :
  SFleb x y = true -> SFltb y x = false.
Proof.
  unfold SFltb, SFleb. rewrite (SFcompare_swap x y).
  destruct (SFcompare x y) as [[]|]; simpl; congruence.
Qed.

(** ** Global state setters *)

(** C10.  [GuiDisable] moves the global state to DISABLED only from
    NORMAL, [GuiEnable] moves it to NORMAL only from DISABLED, and every
    other global state, in particular one forced through [GuiSetState],
    is left as it is by both calls. *)
Theorem enable_disable_preserve_forced_state (g : Globals Binary32.float) :
  (guiState g = STATE_NORMAL ->
     guiState (GuiDisable g) = STATE_DISABLED) /\
  (guiState g <> STATE_NORMAL -> GuiDisable g = g) /\
  (guiState g = STATE_DISABLED ->
     guiState (GuiEnable g) = STATE_NORMAL) /\
  (guiState g <> STATE_DISABLED -> GuiEnable g = g) /\
  (forall s : Z, s <> STATE_NORMAL -> s <> STATE_DISABLED ->
     GuiEnable (GuiSetState g s) = GuiSetState g s /\
     GuiDisable (GuiSetState g s) = GuiSetState g s /\
     GuiGetState (GuiEnable (GuiSetState g s)) = s /\
     GuiGetState (GuiDisable (GuiSetState g s)) = s).
Proof.
  unfold GuiDisable, GuiEnable, GuiSetState, GuiGetState.
  repeat split; intros.
  - rewrite H. reflexivity.
  - destruct (Z.eqb_spec (guiState g) STATE_NORMAL); congruence.
  - rewrite H. reflexivity.
  - destruct (Z.eqb_spec (guiState g) STATE_DISABLED); congruence.
  - simpl. destruct (Z.eqb_spec s STATE_DISABLED); congruence.
  - simpl. destruct (Z.eqb_spec s STATE_NORMAL); congruence.
  - simpl. destruct (Z.eqb_spec s STATE_DISABLED); [congruence|reflexivity].
  - simpl. destruct (Z.eqb_spec s STATE_NORMAL); [congruence|reflexivity].
Qed.

(** C9, as the code has it.  For every binary32 input [a], [GuiSetAlpha]
    stores [a] itself when [0 <= a <= 1], stores 0 when [a < 0] and 1
    when [a > 1]; the stored alpha lies in [0, 1] for every input that is
    not a NaN, and a NaN input is stored as it is. *)
Theorem GuiSetAlpha_clamps (g : Globals Binary32.float) (a : Binary32.float) :
  (in_unit_interval a -> guiAlpha (GuiSetAlpha g a) = a) /\
  (SFltb a (Binary32.of_Z 0) = true ->
     guiAlpha (GuiSetAlpha g a) = Binary32.of_Z 0) /\
  (SFltb (Binary32.of_Z 1) a = true ->
     guiAlpha (GuiSetAlpha g a) = Binary32.of_Z 1) /\
  (Binary32.is_nan a = false -> in_unit_interval (guiAlpha (GuiSetAlpha g a))) /\
  (Binary32.is_nan a = true -> guiAlpha (GuiSetAlpha g a) = a).
Proof.
  unfold GuiSetAlpha, in_unit_interval; cbn [guiAlpha set_guiAlpha f_ltb f_of_Z Binary32.ops].
  repeat split.
  - intros [H0 H1].
    rewrite (SFleb_SFltb_false _ _ H0), (SFleb_SFltb_false _ _ H1).
    reflexivity.
  - intros H. rewrite H. reflexivity.
  - intros H.
    destruct (SFltb a (Binary32.of_Z 0)) eqn:E.
    + exfalso. destruct a as [s|s| |s m e]; try discriminate.
      * destruct s; discriminate.
      * destruct s; try discriminate.
    + rewrite H. reflexivity.
  - destruct (SFltb a (Binary32.of_Z 0)) eqn:E0; [reflexivity|].
    destruct (SFltb (Binary32.of_Z 1) a) eqn:E1; [reflexivity|].
    apply SFltb_false_SFleb; auto.
  - destruct (SFltb a (Binary32.of_Z 0)) eqn:E0;
      [ reflexivity |].
    destruct (SFltb (Binary32.of_Z 1) a) eqn:E1; [reflexivity|].
    apply SFltb_false_SFleb; auto.
  - destruct a; simpl; try discriminate. reflexivity.
Qed.

(** C9, counterexample: a NaN passes both comparisons of [GuiSetAlpha]
    and is stored, so the stored alpha is not in [0, 1]. *)
Lemma GuiSetAlpha_nan_not_clamped :
  ~ in_unit_interval (guiAlpha (GuiSetAlpha initial_globals S754_nan)).
Proof.
  intros [H _]. vm_compute in H. discriminate H.
Qed.

(** ** Style table *)

Module StyleFacts.
Import Style.

Lemma to_signed_to_unsigned (v : Z) : is_int v -> to_signed (to_unsigned v) = v.
Proof.
  unfold is_int, to_signed, to_unsigned. intros Hv.
  destruct (Z.ltb_spec (v mod 2 ^ 32) (2 ^ 31)) as [Hlt|Hge].
  - destruct (Z.neg_nonneg_cases v) as [Hneg|Hpos].
    + rewrite <- (Z.mod_add v 1 (2 ^ 32)) in Hlt by lia.
      rewrite Z.mod_small in Hlt by lia. lia.
    + apply Z.mod_small. lia.
  - destruct (Z.neg_nonneg_cases v) as [Hneg|Hpos].
    + rewrite <- (Z.mod_add v 1 (2 ^ 32)) by lia.
      rewrite Z.mod_small by lia. lia.
    + rewrite Z.mod_small in Hge by lia. lia.
Qed.

Lemma bind_Some {A B : Type} (x : A) (f : A -> option B) :
  (Some x ≫= f) = f x.
Proof. reflexivity. Qed.

Lemma array_set_Some (a : list Z) (i v : Z) :
  0 <= i < Z.of_nat (length a) ->
  array_set a i v = Some (<[Z.to_nat i := v]> a).
Proof.
  intros Hi. unfold array_set.
  destruct (Z.leb_spec 0 i); [|lia].
  destruct (Z.ltb_spec i (Z.of_nat (length a))); [reflexivity|lia].
Qed.

Lemma array_get_insert (a : list Z) (i j v : Z) :
  0 <= i < Z.of_nat (length a) -> 0 <= j ->
  array_get (<[Z.to_nat i := v]> a) j =
  if j =? i then Some v else array_get a j.
Proof.
  intros Hi Hj. unfold array_get.
  destruct (Z.leb_spec 0 j); [|lia].
  destruct (Z.eqb_spec j i) as [->|Hne].
  - apply list_lookup_insert_eq. lia.
  - apply list_lookup_insert_ne. lia.
Qed.

(** The cells written by the propagation loop. *)
Lemma propagate_spec (n : nat) :
  forall (i : Z) (a : list Z) (p v : Z),
    length a = Z.to_nat size ->
    1 <= i -> i + Z.of_nat n <= RAYGUI_MAX_CONTROLS -> property_id p ->
    exists a',
      propagate n i a p v = Some a' /\
      length a' = Z.to_nat size /\
      forall c' p', control_id c' -> property_id p' ->
        array_get a' (slot c' p') =
        if (p' =? p) && (i <=? c') && (c' <? i + Z.of_nat n)
        then Some v else array_get a (slot c' p').
Proof.
  induction n as [|n IH]; intros i a p v Hlen Hi Hn Hp.
  - exists a. split; [reflexivity|]. split; [exact Hlen|].
    intros c' p' _ _.
    replace (c' <? i + Z.of_nat 0) with (c' <? i) by (f_equal; lia).
    destruct (p' =? p), (Z.leb_spec i c'), (Z.ltb_spec c' i);
      simpl; try reflexivity; lia.
  - unfold control_id, property_id, slot, size,
      RAYGUI_MAX_CONTROLS, RAYGUI_MAX_PROPS_BASE,
      RAYGUI_MAX_PROPS_EXTENDED in *.
    assert (Hidx : 0 <= i * (16 + 8) + p < Z.of_nat (length a))
      by (rewrite Hlen; lia).
    simpl propagate. unfold slot, RAYGUI_MAX_PROPS_BASE,
      RAYGUI_MAX_PROPS_EXTENDED.
    rewrite (array_set_Some a _ v Hidx). simpl.
    destruct (IH (i + 1) (<[Z.to_nat (i * (16 + 8) + p) := v]> a) p v)
      as (a' & Hrun & Hlen' & Hget).
    + rewrite length_insert. exact Hlen.
    + lia.
    + lia.
    + exact Hp.
    + exists a'. split; [exact Hrun|]. split; [exact Hlen'|].
      intros c' p' Hc' Hp'. rewrite (Hget c' p' Hc' Hp').
      rewrite (array_get_insert a _ _ v Hidx) by lia.
      destruct (Z.eqb_spec p' p), (Z.leb_spec (i + 1) c'),
        (Z.leb_spec i c'), (Z.ltb_spec c' (i + 1 + Z.of_nat n)),
        (Z.ltb_spec c' (i + Z.of_nat (S n))),
        (Z.eqb_spec (c' * (16 + 8) + p') (i * (16 + 8) + p));
        simpl; try reflexivity; lia.
Qed.

(** What one write does to every slot of the table. *)
Definition overwrites (c p c' p' : Z) : bool :=
  (p' =? p) && ((c' =? c) || ((c =? 0) && (p <? RAYGUI_MAX_PROPS_BASE))).

Lemma set_style_spec (t : table) (c p v : Z) :
  wf t -> control_id c -> property_id p ->
  exists t',
    set_style t c p v = Some t' /\
    wf t' /\ guiStyleLoaded t' = guiStyleLoaded t /\
    forall c' p', control_id c' -> property_id p' ->
      array_get (guiStyle t') (slot c' p') =
      if overwrites c p c' p' then Some (to_unsigned v)
      else array_get (guiStyle t) (slot c' p').
Proof.
  intros Hwf Hc Hp. unfold wf in Hwf.
  assert (Hidx : 0 <= slot c p < Z.of_nat (length (guiStyle t))).
  { rewrite Hwf. unfold control_id, property_id, slot, size,
      RAYGUI_MAX_CONTROLS, RAYGUI_MAX_PROPS_BASE,
      RAYGUI_MAX_PROPS_EXTENDED in *. lia. }
  unfold set_style. rewrite (array_set_Some _ _ (to_unsigned v) Hidx).
  rewrite bind_Some.
  assert (Hfirst : forall c' p', control_id c' -> property_id p' ->
    array_get (<[Z.to_nat (slot c p) := to_unsigned v]> (guiStyle t))
              (slot c' p') =
    if (p' =? p) && (c' =? c) then Some (to_unsigned v)
    else array_get (guiStyle t) (slot c' p')).
  { intros c' p' Hc' Hp'. rewrite array_get_insert; [|exact Hidx|].
    - unfold control_id, property_id, slot, RAYGUI_MAX_CONTROLS,
        RAYGUI_MAX_PROPS_BASE, RAYGUI_MAX_PROPS_EXTENDED in *.
      destruct (Z.eqb_spec (c' * (16 + 8) + p') (c * (16 + 8) + p)),
        (Z.eqb_spec p' p), (Z.eqb_spec c' c); simpl; try reflexivity; lia.
    - unfold control_id, property_id, slot, RAYGUI_MAX_CONTROLS,
        RAYGUI_MAX_PROPS_BASE, RAYGUI_MAX_PROPS_EXTENDED in *. lia. }
  destruct ((c =? 0) && (p <? RAYGUI_MAX_PROPS_BASE)) eqn:Eprop.
  - apply andb_true_iff in Eprop. destruct Eprop as [Ec Epb].
    apply Z.eqb_eq in Ec. subst c.
    destruct (propagate_spec (Z.to_nat (RAYGUI_MAX_CONTROLS - 1)) 1
                (<[Z.to_nat (slot 0 p) := to_unsigned v]> (guiStyle t))
                p (to_unsigned v))
      as (a' & Hrun & Hlen' & Hget).
    + rewrite length_insert. exact Hwf.
    + lia.
    + unfold RAYGUI_MAX_CONTROLS. lia.
    + exact Hp.
    + rewrite Hrun, bind_Some. eexists. split; [reflexivity|].
      split; [exact Hlen'|]. split; [reflexivity|].
      intros c' p' Hc' Hp'. simpl.
      rewrite (Hget c' p' Hc' Hp'), (Hfirst c' p' Hc' Hp').
      unfold overwrites. rewrite Epb.
      unfold control_id, RAYGUI_MAX_CONTROLS in *.
      destruct (Z.eqb_spec p' p), (Z.leb_spec 1 c'),
        (Z.ltb_spec c' (1 + Z.of_nat (Z.to_nat (16 - 1)))),
        (Z.eqb_spec c' 0); simpl; try reflexivity; lia.
  - rewrite bind_Some. eexists. split; [reflexivity|].
    split; [unfold wf; simpl; rewrite length_insert; exact Hwf|].
    split; [reflexivity|].
    intros c' p' Hc' Hp'. simpl. rewrite (Hfirst c' p' Hc' Hp').
    unfold overwrites. rewrite Eprop.
    destruct (p' =? p), (c' =? c); simpl; reflexivity.
Qed.

Lemma set_styles_wf (l : list (Z * Z * Z)) :
  forall t, wf t ->
    Forall (fun call => control_id call.1.1 /\ property_id call.1.2) l ->
    exists t', set_styles t l = Some t' /\ wf t' /\
               guiStyleLoaded t' = guiStyleLoaded t.
Proof.
  induction l as [|[[c p] v] l IH]; intros t Hwf Hall.
  - exists t. repeat split; assumption.
  - inversion Hall as [|? ? [Hc Hp] Hall']; subst. simpl in Hc, Hp.
    destruct (set_style_spec t c p v Hwf Hc Hp) as (t1 & E1 & Hwf1 & Hl1 & _).
    destruct (IH t1 Hwf1 Hall') as (t' & E' & Hwf' & Hl').
    exists t'. simpl set_styles. rewrite E1, bind_Some.
    repeat split; [exact E'|exact Hwf'|congruence].
Qed.

Lemma default_style_ids :
  Forall (fun call => control_id call.1.1 /\ property_id call.1.2)
         default_style.
Proof.
  unfold default_style.
  repeat (apply Forall_cons_2; [split; vm_compute; split; congruence|]).
  apply Forall_nil_2.
Qed.

(** The lazy load always succeeds and leaves a loaded table. *)
Lemma lazy_load_wf (t : table) :
  wf t ->
  exists t', lazy_load t = Some t' /\ wf t' /\ guiStyleLoaded t' = true /\
             (guiStyleLoaded t = true -> t' = t).
Proof.
  intros Hwf. unfold lazy_load. destruct (guiStyleLoaded t) eqn:El.
  - exists t. repeat split; assumption.
  - unfold GuiLoadStyleDefault.
    destruct (set_styles_wf default_style (mkTable (guiStyle t) true))
      as (t' & E & Hwf' & Hl'); [exact Hwf|exact default_style_ids|].
    exists t'. repeat split; try assumption. discriminate.
Qed.

Lemma GuiSetStyle_spec (t : table) (c p v : Z) :
  wf t -> control_id c -> property_id p ->
  exists t0 t',
    lazy_load t = Some t0 /\
    GuiSetStyle t c p v = Some t' /\
    wf t' /\ guiStyleLoaded t' = true /\
    forall c' p', control_id c' -> property_id p' ->
      array_get (guiStyle t') (slot c' p') =
      if overwrites c p c' p' then Some (to_unsigned v)
      else array_get (guiStyle t0) (slot c' p').
Proof.
  intros Hwf Hc Hp.
  destruct (lazy_load_wf t Hwf) as (t0 & E0 & Hwf0 & Hl0 & _).
  destruct (set_style_spec t0 c p v Hwf0 Hc Hp)
    as (t' & E' & Hwf' & Hl' & Hget).
  exists t0, t'. unfold GuiSetStyle. rewrite E0, bind_Some.
  repeat split; try assumption. congruence.
Qed.

Lemma GuiGetStyle_loaded (t : table) (c p u : Z) :
  guiStyleLoaded t = true ->
  array_get (guiStyle t) (slot c p) = Some u ->
  GuiGetStyle t c p = Some (t, to_signed u).
Proof.
  intros Hl Hu. unfold GuiGetStyle, lazy_load. rewrite Hl, bind_Some, Hu.
  reflexivity.
Qed.

(** A slot of a control other than DEFAULT follows the last call that
    writes it. *)
Lemma run_sets_last_write (c p : Z) (l : list (Z * Z * Z)) :
  control_id c -> property_id p ->
  forall (t : table) (cur : Z),
    wf t -> guiStyleLoaded t = true -> is_int cur ->
    array_get (guiStyle t) (slot c p) = Some (to_unsigned cur) ->
    Forall valid_call l ->
    get_value (run_sets t l) c p = Some (last_write c p cur l).
Proof.
  intros Hc Hp. unfold run_sets.
  induction l as [|[[c1 p1] v1] l IH]; intros t cur Hwf Hl Hcur Hslot Hall.
  - simpl. rewrite (GuiGetStyle_loaded t c p _ Hl Hslot). simpl.
    rewrite to_signed_to_unsigned by exact Hcur. reflexivity.
  - inversion Hall as [|? ? (Hc1 & Hp1 & Hv1) Hall']; subst.
    simpl in Hc1, Hp1, Hv1.
    destruct (GuiSetStyle_spec t c1 p1 v1 Hwf Hc1 Hp1)
      as (t0 & t' & E0 & E' & Hwf' & Hl' & Hget).
    destruct (lazy_load_wf t Hwf) as (t0' & E0' & _ & _ & Hsame).
    assert (t0 = t) by (rewrite E0 in E0'; injection E0' as ->; auto).
    subst t0.
    cbn [foldl]. rewrite bind_Some, E'.
    cbn [last_write writes_slot snd].
    specialize (Hget c p Hc Hp). unfold overwrites in Hget.
    destruct ((p1 =? p) && ((c1 =? c) || (c1 =? 0) && (p <? RAYGUI_MAX_PROPS_BASE)))
      eqn:Ew.
    + apply IH; try assumption.
      rewrite Hget.
      apply andb_true_iff in Ew. destruct Ew as [Ep Ew].
      apply Z.eqb_eq in Ep. subst p1.
      rewrite (Z.eqb_refl p). simpl.
      rewrite (Z.eqb_sym c c1).
      destruct (c1 =? c), (c1 =? 0); simpl in *; try reflexivity;
        try discriminate. rewrite Ew. reflexivity.
    + apply IH; try assumption.
      rewrite Hget.
      rewrite (Z.eqb_sym p p1), (Z.eqb_sym c c1).
      destruct (Z.eqb_spec p1 p) as [->|]; simpl in *; [|exact Hslot].
      destruct (c1 =? c), (c1 =? 0); simpl in *; try discriminate;
        try exact Hslot.
      rewrite Ew. exact Hslot.
Qed.

End StyleFacts.

(** C1.  Override ordering.  Take a well-formed table, a control
    [c <> DEFAULT], a base property [p] and the call
    [GuiSetStyle(DEFAULT, p, v)] followed by any run [later] of calls
    with ids inside the table.  Then [GuiGetStyle(c, p)] returns the value
    of the last call of [later] that names [(c, p)] or [(DEFAULT, p)],
    and [v] when there is none.  In particular it returns [v] right after
    the DEFAULT write, [v2] after a later [GuiSetStyle(c, p, v2)], and
    [v3] again after a still later [GuiSetStyle(DEFAULT, p, v3)]. *)
Theorem style_override_ordering
    (t : Style.table) (c p v : Z) (later : list (Z * Z * Z)) :
  Style.wf t ->
  1 <= c < RAYGUI_MAX_CONTROLS -> Style.base_property p -> is_int v ->
  Forall Style.valid_call later ->
  Style.get_value (Style.run_sets t ((DEFAULT, p, v) :: later)) c p
    = Some (Style.last_write c p v later) /\
  Style.get_value (Style.run_sets t [(DEFAULT, p, v)]) c p = Some v /\
  (forall v2, is_int v2 ->
     Style.get_value (Style.run_sets t [(DEFAULT, p, v); (c, p, v2)]) c p
       = Some v2) /\
  (forall v2 v3, is_int v2 -> is_int v3 ->
     Style.get_value
       (Style.run_sets t [(DEFAULT, p, v); (c, p, v2); (DEFAULT, p, v3)]) c p
       = Some v3).
Proof.
  intros Hwf Hc Hp Hv Hall.
  assert (Hc' : Style.control_id c) by (unfold Style.control_id; lia).
  assert (Hp' : Style.property_id p).
  { unfold Style.property_id, Style.base_property,
      RAYGUI_MAX_PROPS_BASE, RAYGUI_MAX_PROPS_EXTENDED in *. lia. }
  assert (Hgen : forall l, Forall Style.valid_call l ->
    Style.get_value (Style.run_sets t ((DEFAULT, p, v) :: l)) c p
      = Some (Style.last_write c p v l)).
  { intros l Hl.
    destruct (StyleFacts.GuiSetStyle_spec t DEFAULT p v Hwf)
      as (t0 & t1 & E0 & E1 & Hwf1 & Hl1 & Hget); [| exact Hp' |].
    { unfold Style.control_id, DEFAULT, RAYGUI_MAX_CONTROLS. lia. }
    unfold Style.run_sets. cbn [foldl]. rewrite StyleFacts.bind_Some, E1.
    apply (StyleFacts.run_sets_last_write c p l Hc' Hp' t1 v Hwf1 Hl1 Hv);
      [|exact Hl].
    rewrite (Hget c p Hc' Hp'). unfold StyleFacts.overwrites, DEFAULT.
    rewrite Z.eqb_refl. simpl.
    unfold Style.base_property in Hp.
    destruct (Z.ltb_spec p RAYGUI_MAX_PROPS_BASE); [|lia].
    rewrite orb_true_r. reflexivity. }
  assert (Hvalid : forall c0 v0, Style.control_id c0 -> is_int v0 ->
            Style.valid_call (c0, p, v0)).
  { intros c0 v0 H1 H2. repeat split; simpl; solve [apply H1|apply Hp'|apply H2]. }
  assert (Hd : Style.control_id DEFAULT).
  { unfold Style.control_id, DEFAULT, RAYGUI_MAX_CONTROLS. lia. }
  split; [exact (Hgen later Hall)|].
  split; [exact (Hgen [] (Forall_nil_2 _))|].
  split.
  - intros v2 Hv2.
    rewrite Hgen by (apply Forall_cons_2; [auto | apply Forall_nil_2]).
    simpl. rewrite !Z.eqb_refl. reflexivity.
  - intros v2 v3 Hv2 Hv3.
    rewrite Hgen
      by (repeat (apply Forall_cons_2; [auto |]); apply Forall_nil_2).
    simpl. rewrite !Z.eqb_refl. simpl.
    unfold Style.base_property in Hp.
    destruct (Z.ltb_spec p RAYGUI_MAX_PROPS_BASE); [|lia].
    unfold DEFAULT. simpl. rewrite orb_true_r. reflexivity.
Qed.

(** C1, instance: the scenario of the specification on the initial
    table, whose defaults are loaded by the first call. *)
Lemma style_override_ordering_witness :
  Style.get_value
    (Style.run_sets Style.initial
       [(DEFAULT, BORDER_WIDTH, 2); (BUTTON, BORDER_WIDTH, 4)])
    BUTTON BORDER_WIDTH = Some 4.
Proof.
  refine (proj1 (style_override_ordering Style.initial BUTTON BORDER_WIDTH 2
                   [(BUTTON, BORDER_WIDTH, 4)] _ _ _ _ _)).
  - reflexivity.
  - unfold BUTTON, RAYGUI_MAX_CONTROLS. lia.
  - unfold Style.base_property, BORDER_WIDTH, RAYGUI_MAX_PROPS_BASE. lia.
  - unfold is_int. lia.
  - apply Forall_cons_2; [|apply Forall_nil_2].
    unfold Style.valid_call, Style.control_id, Style.property_id, is_int; simpl.
    unfold BUTTON, BORDER_WIDTH, RAYGUI_MAX_CONTROLS, RAYGUI_MAX_PROPS_BASE,
      RAYGUI_MAX_PROPS_EXTENDED. lia.
Defined.

(** ** Icon markers *)

Lemma digits_value_nonneg (ds : list Z) :
  forall acc, 0 <= acc -> 0 <= digits_value ds acc.
Proof.
  induction ds as [|d ds IH]; intros acc Hacc; simpl; [exact Hacc|].
  destruct (is_digit d) eqn:Ed; [|exact Hacc].
  apply IH. unfold is_digit, ch_0, ch_9 in *.
  apply andb_true_iff in Ed. destruct Ed as [H1 H2].
  apply Z.leb_le in H1. apply Z.leb_le in H2. lia.
Qed.

Lemma is_digit_not_sign (d : Z) :
  is_digit d = true -> (d =? ch_plus) || (d =? ch_minus) = false.
Proof.
  unfold is_digit, ch_0, ch_9, ch_plus, ch_minus. intros H.
  apply andb_true_iff in H. destruct H as [H1 H2].
  apply Z.leb_le in H1. apply Z.leb_le in H2.
  destruct (Z.eqb_spec d 43), (Z.eqb_spec d 45); simpl; try reflexivity; lia.
Qed.

Lemma is_digit_ge (d : Z) : is_digit d = true -> 0 <= d - ch_0.
Proof.
  unfold is_digit. intros H. apply andb_true_iff in H. destruct H as [H _].
  apply Z.leb_le in H. lia.
Qed.

(** A digit run of at most three digits closed by ['#'] is read whole. *)
Lemma GetTextIcon_accepts (ds rest : list Z) :
  all_digits ds -> (length ds <= 3)%nat ->
  GetTextIcon (ch_hash :: ds ++ ch_hash :: rest) = (decimal ds, rest).
Proof.
  intros Hds Hlen. unfold all_digits in Hds.
  assert (Hnn : 0 <= decimal ds) by (apply digits_value_nonneg; lia).
  assert (Hh : is_digit ch_hash = false) by reflexivity.
  assert (Hz : is_digit 0 = false) by reflexivity.
  destruct ds as [|d1 [|d2 [|d3 [|d4 ds]]]]; simpl in Hlen; try lia;
    repeat match goal with
           | H : Forall _ (_ :: _) |- _ =>
               apply Forall_cons_1 in H; destruct H as [? H]
           end;
    unfold GetTextIcon, TextToInteger, decimal in *;
    repeat (unfold char_at in *; simpl in *;
            rewrite ?Hh, ?Hz, ?Z.eqb_refl;
            repeat match goal with
                   | H : is_digit ?d = true |- _ =>
                       progress (rewrite ?H, ?(is_digit_not_sign d H))
                   end);
    try reflexivity;
    rewrite Z.mul_1_r;
    repeat match goal with
           | H : is_digit ?d = true |- _ => apply is_digit_ge in H
           end;
    match goal with
    | |- (if ?v >=? 0 then _ else _) = _ =>
        destruct (Z.geb_spec v 0); [reflexivity | lia]
    end.
Qed.

(** Any other text is left alone, with [iconId = -1]. *)
Lemma GetTextIcon_rejects (text : list Z) :
  ~ icon_marker 0 3 text -> GetTextIcon text = (-1, text).
Proof.
  intros Hno.
  assert (Hm : forall ds rest, text = ch_hash :: ds ++ ch_hash :: rest ->
                 all_digits ds -> (length ds <= 3)%nat -> False).
  { intros ds rest E Hd Hl. apply Hno. exists ds, rest.
    repeat split; [exact E|exact Hd|lia|exact Hl]. }
  clear Hno. unfold GetTextIcon.
  destruct text as [|c0 text]; [reflexivity|].
  unfold char_at at 1. cbn [nth].
  destruct (Z.eqb_spec c0 ch_hash) as [->|]; [|reflexivity].
  (* first character after the opening mark *)
  destruct text as [|c1 text]; [reflexivity|].
  cbn [icon_digits Nat.ltb Nat.leb andb]. unfold char_at at 1. cbn [nth].
  destruct (is_digit c1) eqn:E1.
  2:{ cbn [char_at nth]. unfold char_at. cbn [nth].
      destruct (Z.eqb_spec c1 ch_hash) as [->|]; [|reflexivity].
      exfalso. apply (Hm [] text); [reflexivity|constructor|simpl; lia]. }
  destruct text as [|c2 text]; [reflexivity|].
  cbn [icon_digits Nat.ltb Nat.leb andb]. unfold char_at at 1. cbn [nth].
  destruct (is_digit c2) eqn:E2.
  2:{ unfold char_at. cbn [nth].
      destruct (Z.eqb_spec c2 ch_hash) as [->|]; [|reflexivity].
      exfalso. apply (Hm [c1] text); [reflexivity| |simpl; lia].
      repeat constructor; assumption. }
  destruct text as [|c3 text]; [reflexivity|].
  cbn [icon_digits Nat.ltb Nat.leb andb]. unfold char_at at 1. cbn [nth].
  destruct (is_digit c3) eqn:E3.
  2:{ unfold char_at. cbn [nth].
      destruct (Z.eqb_spec c3 ch_hash) as [->|]; [|reflexivity].
      exfalso. apply (Hm [c1; c2] text); [reflexivity| |simpl; lia].
      repeat constructor; assumption. }
  cbn [icon_digits Nat.ltb Nat.leb andb]. unfold char_at. cbn [nth].
  destruct text as [|c4 text]; [reflexivity|]. cbn [nth].
  destruct (Z.eqb_spec c4 ch_hash) as [->|]; [|reflexivity].
  exfalso. apply (Hm [c1; c2; c3] text); [reflexivity| |simpl; lia].
  repeat constructor; assumption.
Qed.


(** C7, as the code has it.  A line that begins with ['#'], zero to
    three decimal digits and ['#'] yields the decimal value of the digits
    as the icon id (0 for no digit) and the text after the closing ['#'];
    every other line yields the id -1 and is returned unmoved. *)
Theorem GetTextIcon_marker (text : list Z) :
  (forall ds rest,
     text = ch_hash :: ds ++ ch_hash :: rest ->
     all_digits ds -> (length ds <= 3)%nat ->
     GetTextIcon text = (decimal ds, rest) /\ 0 <= decimal ds) /\
  (~ icon_marker 0 3 text -> GetTextIcon text = (-1, text)).
Proof.
  split.
  - intros ds rest -> Hd Hl. split.
    + apply GetTextIcon_accepts; assumption.
    + apply digits_value_nonneg. lia.
  - apply GetTextIcon_rejects.
Qed.

(** C7, counterexample: ["##x"] does not begin with ['#'], one to three
    digits and ['#'], yet icon 0 is detected and the text starts two
    bytes further. *)
Lemma GetTextIcon_empty_marker :
  ~ icon_marker 1 3 (cstring "##x"%string) /\
  GetTextIcon (cstring "##x"%string) = (0, cstring "x"%string).
Proof.
  split; [|reflexivity].
  intros (ds & rest & E & Hd & Hl).
  destruct ds as [|d ds]; [simpl in Hl; lia|].
  apply Forall_cons_1 in Hd. destruct Hd as [Hd _].
  injection E as E _. subst d. discriminate Hd.
Qed.

(** ** UTF-8 decoding *)

Lemma byte_cases (P : Z -> bool) :
  forallb P (map Z.of_nat (seq 0 256)) = true ->
  forall b, is_byte b -> P b = true.
Proof.
  intros H b [Hlo Hhi].
  apply (proj1 (forallb_forall P _) H).
  apply in_map_iff. exists (Z.to_nat b). split; [lia|].
  apply in_seq. lia.
Qed.

Lemma lor_shiftl_low (hi lo n : Z) :
  0 <= n -> 0 <= lo < 2 ^ n -> Z.lor (Z.shiftl hi n) lo = hi * 2 ^ n + lo.
Proof.
  intros Hn Hlo.
  pose proof (Z.add_lor_land (Z.shiftl hi n) lo) as Hadd.
  rewrite Z.shiftl_mul_pow2 in * by exact Hn.
  assert (Hland : Z.land (hi * 2 ^ n) lo = 0); [|lia].
  apply Z.bits_inj'. intros m Hm.
  rewrite Z.land_spec, Z.bits_0.
  destruct (Z.lt_ge_cases m n) as [Hlt|Hge].
  - rewrite Z.mul_pow2_bits_low by exact Hlt. reflexivity.
  - rewrite <- (Z.mod_small lo (2 ^ n)) by exact Hlo.
    rewrite Z.mod_pow2_bits_high by lia. apply andb_false_r.
Qed.

Lemma lor_high_low (hi lo n p : Z) :
  p = 2 ^ n -> 0 <= n -> 0 <= lo < p -> Z.lor (hi * p) lo = hi * p + lo.
Proof.
  intros -> Hn Hlo. rewrite <- Z.shiftl_mul_pow2 by exact Hn.
  rewrite lor_shiftl_low by assumption.
  rewrite Z.shiftl_mul_pow2 by exact Hn. reflexivity.
Qed.

Section Utf8Facts.
Variable char_signed : bool.

Let ioc := int_of_char char_signed.

(** The bit tests of [GetCodepointNext], read as ranges of the byte. *)
Lemma lead_tests (b : Z) :
  is_byte b ->
  (0xf0 =? Z.land 0xf8 (ioc b)) = (0xF0 <=? b) && (b <? 0xF8) /\
  (0xe0 =? Z.land 0xf0 (ioc b)) = (0xE0 <=? b) && (b <? 0xF0) /\
  (0xc0 =? Z.land 0xe0 (ioc b)) = (0xC0 <=? b) && (b <? 0xE0) /\
  (0x00 =? Z.land 0x80 (ioc b)) = (b <? 0x80) /\
  (Z.lxor (Z.land (ioc b) 0xC0) 0x80 =? 0) = is_cont b.
Proof.
  intros Hb. unfold ioc.
  pose (P := fun b =>
    Bool.eqb (0xf0 =? Z.land 0xf8 (int_of_char char_signed b))
             ((0xF0 <=? b) && (b <? 0xF8)) &&
    Bool.eqb (0xe0 =? Z.land 0xf0 (int_of_char char_signed b))
             ((0xE0 <=? b) && (b <? 0xF0)) &&
    Bool.eqb (0xc0 =? Z.land 0xe0 (int_of_char char_signed b))
             ((0xC0 <=? b) && (b <? 0xE0)) &&
    Bool.eqb (0x00 =? Z.land 0x80 (int_of_char char_signed b)) (b <? 0x80) &&
    Bool.eqb (Z.lxor (Z.land (int_of_char char_signed b) 0xC0) 0x80 =? 0)
             (is_cont b)).
  assert (HP : P b = true).
  { apply byte_cases; [|exact Hb]. destruct char_signed; vm_compute; reflexivity. }
  unfold P in HP. rewrite !andb_true_iff in HP.
  destruct HP as [[[[H1 H2] H3] H4] H5].
  apply eqb_prop in H1, H2, H3, H4, H5. auto.
Qed.

(** The payload bits of a byte of each shape. *)
Lemma payload_bits (b : Z) :
  is_byte b ->
  (b < 0x80 -> ioc b = b) /\
  (is_cont b = true -> Z.land 0x3f (ioc b) = b - 0x80) /\
  (0xC0 <= b < 0xE0 -> Z.land 0x1f (ioc b) = b - 0xC0) /\
  (0xE0 <= b < 0xF0 -> Z.land 0x0f (ioc b) = b - 0xE0) /\
  (0xF0 <= b < 0xF8 -> Z.land 0x07 (ioc b) = b - 0xF0).
Proof.
  intros Hb. unfold ioc.
  pose (P := fun b =>
    implb (b <? 0x80) (int_of_char char_signed b =? b) &&
    implb (is_cont b) (Z.land 0x3f (int_of_char char_signed b) =? b - 0x80) &&
    implb ((0xC0 <=? b) && (b <? 0xE0))
          (Z.land 0x1f (int_of_char char_signed b) =? b - 0xC0) &&
    implb ((0xE0 <=? b) && (b <? 0xF0))
          (Z.land 0x0f (int_of_char char_signed b) =? b - 0xE0) &&
    implb ((0xF0 <=? b) && (b <? 0xF8))
          (Z.land 0x07 (int_of_char char_signed b) =? b - 0xF0)).
  assert (HP : P b = true).
  { apply byte_cases; [|exact Hb]. destruct char_signed; vm_compute; reflexivity. }
  unfold P in HP. rewrite !andb_true_iff in HP.
  destruct HP as [[[[H1 H2] H3] H4] H5].
  repeat split.
  - intros H. apply Z.ltb_lt in H. rewrite H in H1. apply Z.eqb_eq. exact H1.
  - intros H. rewrite H in H2. apply Z.eqb_eq. exact H2.
  - intros [Ha Hc]. apply Z.leb_le in Ha. apply Z.ltb_lt in Hc.
    rewrite Ha, Hc in H3. apply Z.eqb_eq. exact H3.
  - intros [Ha Hc]. apply Z.leb_le in Ha. apply Z.ltb_lt in Hc.
    rewrite Ha, Hc in H4. apply Z.eqb_eq. exact H4.
  - intros [Ha Hc]. apply Z.leb_le in Ha. apply Z.ltb_lt in Hc.
    rewrite Ha, Hc in H5. apply Z.eqb_eq. exact H5.
Qed.

Lemma char_at_byte (text : list Z) (i : nat) :
  Forall is_byte text -> is_byte (char_at text i).
Proof.
  intros H. unfold char_at.
  destruct (nth_in_or_default i text 0) as [Hin | ->].
  - rewrite Forall_forall in H. apply H. apply list_elem_of_In. exact Hin.
  - unfold is_byte. lia.
Qed.

End Utf8Facts.

Section Utf8Decoder.
Variable char_signed : bool.

(** [GetCodepointNext] on any byte string: a well-formed sequence is
    decoded and its length returned; anything else gives ['?'] and 1. *)
Lemma GetCodepointNext_spec (text : list Z) :
  Forall is_byte text ->
  GetCodepointNext char_signed text =
  if well_formed_at text
  then (encoded_value text, lead_length (char_at text 0))
  else (0x3f, 1).
Proof.
  intros Hb.
  pose proof (char_at_byte text 0 Hb) as B0.
  pose proof (char_at_byte text 1 Hb) as B1.
  pose proof (char_at_byte text 2 Hb) as B2.
  pose proof (char_at_byte text 3 Hb) as B3.
  destruct (lead_tests char_signed _ B0) as (T4 & T3 & T2 & T1 & _).
  destruct (lead_tests char_signed _ B1) as (_ & _ & _ & _ & C1).
  destruct (lead_tests char_signed _ B2) as (_ & _ & _ & _ & C2).
  destruct (lead_tests char_signed _ B3) as (_ & _ & _ & _ & C3).
  destruct (payload_bits char_signed _ B0) as (P1 & _ & P2 & P3 & P4).
  destruct (payload_bits char_signed _ B1) as (_ & Q1 & _).
  destruct (payload_bits char_signed _ B2) as (_ & Q2 & _).
  destruct (payload_bits char_signed _ B3) as (_ & Q3 & _).
  unfold GetCodepointNext. cbv beta zeta.
  rewrite T4, T3, T2, T1, C1, C2, C3.
  unfold well_formed_at, encoded_value, lead_length.
  set (b0 := char_at text 0) in *. set (b1 := char_at text 1) in *.
  set (b2 := char_at text 2) in *. set (b3 := char_at text 3) in *.
  assert (Hc : forall b, is_cont b = true -> 0 <= b - 0x80 < 64).
  { intros b H. unfold is_cont in H. apply andb_true_iff in H.
    destruct H as [H H']. apply Z.leb_le in H. apply Z.ltb_lt in H'. lia. }
  destruct (Z.ltb_spec b0 0x80) as [L1|L1].
  { destruct (Z.leb_spec 0xF0 b0), (Z.leb_spec 0xE0 b0), (Z.leb_spec 0xC0 b0);
      try lia. simpl. rewrite P1 by exact L1. reflexivity. }
  destruct (Z.ltb_spec b0 0xC0) as [L2|L2].
  { destruct (Z.leb_spec 0xF0 b0), (Z.leb_spec 0xE0 b0), (Z.leb_spec 0xC0 b0);
      try lia. reflexivity. }
  destruct (Z.ltb_spec b0 0xE0) as [L3|L3].
  { destruct (Z.leb_spec 0xF0 b0), (Z.leb_spec 0xE0 b0), (Z.leb_spec 0xC0 b0);
      try lia. simpl.
    destruct (is_cont b1) eqn:E1; simpl; [|reflexivity].
    rewrite P2, Q1 by (auto; lia).
    pose proof (Hc b1 E1).
    rewrite !Z.shiftl_mul_pow2 by lia. change (2 ^ 6) with 64.
    rewrite (lor_high_low _ _ 6 64) by (reflexivity || lia).
    reflexivity. }
  destruct (Z.ltb_spec b0 0xF0) as [L4|L4].
  { destruct (Z.leb_spec 0xF0 b0), (Z.leb_spec 0xE0 b0); try lia. simpl.
    destruct (is_cont b1) eqn:E1; simpl; [|reflexivity].
    destruct (is_cont b2) eqn:E2; simpl; [|reflexivity].
    rewrite P3, Q1, Q2 by (auto; lia).
    pose proof (Hc b1 E1). pose proof (Hc b2 E2).
    rewrite !Z.shiftl_mul_pow2 by lia.
    change (2 ^ 6) with 64. change (2 ^ 12) with 4096.
    rewrite (lor_high_low _ ((b1 - 128) * 64) 12 4096) by (reflexivity || lia).
    replace ((b0 - 224) * 4096 + (b1 - 128) * 64)
      with (((b0 - 224) * 64 + (b1 - 128)) * 64) by lia.
    rewrite (lor_high_low _ _ 6 64) by (reflexivity || lia).
    f_equal; lia. }
  destruct (Z.ltb_spec b0 0xF8) as [L5|L5].
  { destruct (Z.leb_spec 0xF0 b0); try lia. simpl.
    destruct (is_cont b1) eqn:E1; simpl; [|reflexivity].
    destruct (is_cont b2) eqn:E2; simpl; [|reflexivity].
    destruct (is_cont b3) eqn:E3; simpl; [|reflexivity].
    rewrite P4, Q1, Q2, Q3 by (auto; lia).
    pose proof (Hc b1 E1). pose proof (Hc b2 E2). pose proof (Hc b3 E3).
    rewrite !Z.shiftl_mul_pow2 by lia.
    change (2 ^ 6) with 64. change (2 ^ 12) with 4096.
    change (2 ^ 18) with 262144.
    rewrite (lor_high_low _ ((b1 - 128) * 4096) 18 262144)
      by (reflexivity || lia).
    replace ((b0 - 240) * 262144 + (b1 - 128) * 4096)
      with (((b0 - 240) * 64 + (b1 - 128)) * 4096) by lia.
    rewrite (lor_high_low _ ((b2 - 128) * 64) 12 4096) by (reflexivity || lia).
    replace (((b0 - 240) * 64 + (b1 - 128)) * 4096 + (b2 - 128) * 64)
      with ((((b0 - 240) * 64 + (b1 - 128)) * 64 + (b2 - 128)) * 64) by lia.
    rewrite (lor_high_low _ _ 6 64) by (reflexivity || lia).
    f_equal; lia. }
  destruct (Z.leb_spec 0xF0 b0), (Z.leb_spec 0xE0 b0), (Z.leb_spec 0xC0 b0);
    try lia; reflexivity.
Qed.

End Utf8Decoder.

Lemma lead_length_bounds (text : list Z) :
  well_formed_at text = true -> 1 <= lead_length (char_at text 0) <= 4.
Proof.
  unfold well_formed_at, lead_length.
  repeat match goal with
         | |- context [if ?b then _ else _] => destruct b
         end; simpl; intros; try discriminate; lia.
Qed.

Lemma next_codepoint_size (char_signed : bool) (line : list Z) (c : nat) :
  Forall is_byte line -> 1 <= snd (next_codepoint char_signed line c) <= 4.
Proof.
  intros Hb. unfold next_codepoint.
  rewrite GetCodepointNext_spec by (apply Forall_drop; exact Hb).
  destruct (well_formed_at (drop c line)) eqn:Ew.
  - destruct (encoded_value (drop c line) =? 63); simpl; [lia|].
    apply lead_length_bounds. exact Ew.
  - simpl. lia.
Qed.

Lemma decode_from_terminates (char_signed : bool) (line : list Z) :
  Forall is_byte line ->
  forall (fuel c lineSize : nat),
    (lineSize - c <= fuel)%nat ->
    exists l, decode_from char_signed fuel line c lineSize = Some l.
Proof.
  intros Hb fuel. induction fuel as [|fuel IH]; intros c lineSize Hfuel.
  - simpl. destruct (Nat.ltb_spec c lineSize); [lia|]. exists []. reflexivity.
  - simpl. destruct (Nat.ltb_spec c lineSize); [|exists []; reflexivity].
    pose proof (next_codepoint_size char_signed line c Hb) as Hs.
    destruct (next_codepoint char_signed line c) as [cp size]. simpl in Hs.
    destruct (IH (c + Z.to_nat size)%nat lineSize) as [l Hl]; [lia|].
    rewrite Hl. eexists. reflexivity.
Qed.



(** ** Exclusive drag *)




(** ** Colour conversion *)

(** The comparisons of the exact arithmetic, reflected. *)
Lemma Exact_ltb_spec (x y : Q) : BoolSpec (x < y)%Q (y <= x)%Q (Exact.ltb x y).
Proof.
  unfold Exact.ltb. destruct (Qle_bool y x) eqn:E; constructor.
  - apply Qle_bool_iff. exact E.
  - apply Qnot_le_lt. intros Hle. apply Qle_bool_iff in Hle. congruence.
Qed.

Lemma Exact_leb_spec (x y : Q) : BoolSpec (x <= y)%Q (y < x)%Q (Qle_bool x y).
Proof.
  destruct (Qle_bool x y) eqn:E; constructor.
  - apply Qle_bool_iff. exact E.
  - apply Qnot_le_lt. intros Hle. apply Qle_bool_iff in Hle. congruence.
Qed.

Lemma Qdiv_between (n d lo hi : Q) :
  (0 < d)%Q -> (lo * d <= n)%Q -> (n <= hi * d)%Q ->
  (lo <= n / d)%Q /\ (n / d <= hi)%Q.
Proof.
  intros Hd Hlo Hhi. split.
  - apply Qle_shift_div_l; assumption.
  - apply Qle_shift_div_r; assumption.
Qed.

Ltac exact_arith :=
  cbn [f_ltb f_leb f_eqb f_add f_sub f_mul f_div f_opp f_of_Z f_to_Z
       Exact.ops] in *;
  unfold Exact.of_Z in *.

Ltac split_comparisons :=
  repeat match goal with
         | |- context [Exact.ltb ?x ?y] => destruct (Exact_ltb_spec x y)
         | |- context [Qle_bool ?x ?y] => destruct (Exact_leb_spec x y)
         end.

(** In exact arithmetic, the output ranges of [ConvertRGBtoHSV]. *)
Lemma ConvertRGBtoHSV_ranges_exact (r g b : Q) :
  (0 <= r <= 1)%Q -> (0 <= g <= 1)%Q -> (0 <= b <= 1)%Q ->
  let hsv := ConvertRGBtoHSV (mkVector3 r g b) in
  (0 <= v3_x hsv)%Q /\ (v3_x hsv < 360)%Q /\
  (0 <= v3_y hsv <= 1)%Q /\ (0 <= v3_z hsv <= 1)%Q.
Proof.
  intros Hr Hg Hb. unfold ConvertRGBtoHSV, achromatic_epsilon.
  cbn [v3_x v3_y v3_z]. exact_arith.
  change (inject_Z 0) with 0%Q. change (inject_Z 1) with 1%Q.
  change (inject_Z 2) with 2%Q. change (inject_Z 4) with 4%Q.
  change (inject_Z 60) with 60%Q. change (inject_Z 360) with 360%Q.
  change (inject_Z 100000) with 100000%Q.
  set (mn := if Exact.ltb (if Exact.ltb r g then r else g) b
             then (if Exact.ltb r g then r else g) else b).
  set (mx := if Exact.ltb b (if Exact.ltb g r then r else g)
             then (if Exact.ltb g r then r else g) else b).
  assert (Hmn : (mn <= r)%Q /\ (mn <= g)%Q /\ (mn <= b)%Q /\ (0 <= mn)%Q).
  { subst mn. destruct (Exact_ltb_spec r g);
      split_comparisons; repeat split; lra. }
  assert (Hmx : (r <= mx)%Q /\ (g <= mx)%Q /\ (b <= mx)%Q /\ (mx <= 1)%Q).
  { subst mx. destruct (Exact_ltb_spec g r);
      split_comparisons; repeat split; lra. }
  clearbody mn mx.
  destruct (Exact_ltb_spec (mx - mn) (1 / 100000)) as [Hd|Hd];
    cbn [v3_x v3_y v3_z]; [repeat split; lra|].
  assert (Hpos : (0 < mx - mn)%Q).
  { assert (0 < 1 / 100000)%Q by reflexivity. lra. }
  destruct (Exact_ltb_spec 0 mx) as [Hm|Hm];
    cbn [v3_x v3_y v3_z]; [|repeat split; lra].
  destruct (Qdiv_between (mx - mn) mx 0 1) as [Hs0 Hs1]; try lra.
  assert (Hq : forall n : Q, (- (mx - mn) <= n <= mx - mn)%Q ->
            (-1 <= n / (mx - mn) <= 1)%Q).
  { intros n Hn. destruct (Qdiv_between n (mx - mn) (-1) 1); try lra. }
  destruct (Exact_leb_spec mx r) as [Hxr|Hxr];
    [|destruct (Exact_leb_spec mx g) as [Hxg|Hxg]].
  - pose proof (Hq (g - b)%Q) as Hb1.
    set (q := ((g - b) / (mx - mn))%Q) in *.
    destruct (Exact_ltb_spec (q * 60) 0); repeat split; lra.
  - pose proof (Hq (b - r)%Q) as Hb1.
    set (q := ((b - r) / (mx - mn))%Q) in *.
    destruct (Exact_ltb_spec ((2 + q) * 60) 0); repeat split; lra.
  - pose proof (Hq (r - g)%Q) as Hb1.
    set (q := ((r - g) / (mx - mn))%Q) in *.
    destruct (Exact_ltb_spec ((4 + q) * 60) 0); repeat split; lra.
Qed.


(** Truncation of a non-negative rational. *)
Lemma Exact_to_Z_bounds (x : Q) :
  (0 <= x)%Q ->
  (0 <= Exact.to_Z x)%Z /\
  (inject_Z (Exact.to_Z x) <= x)%Q /\ (x < inject_Z (Exact.to_Z x) + 1)%Q.
Proof.
  intros Hx. unfold Exact.to_Z.
  assert (Hn : (0 <= Qnum x)%Z).
  { unfold Qle in Hx. simpl in Hx. lia. }
  rewrite Z.quot_div_nonneg by lia.
  replace (Qnum x / Z.pos (Qden x))%Z with (Qfloor x)
    by (destruct x; reflexivity).
  split; [destruct x; apply Z.div_pos; simpl in *; lia|]. split.
  - apply Qfloor_le.
  - pose proof (Qlt_floor x) as Hlt.
    rewrite inject_Z_plus in Hlt. exact Hlt.
Qed.

(** In exact arithmetic, [ConvertHSVtoRGB] maps a hue in degrees and a
    saturation and value in [0, 1] to channels in [0, 1]. *)
Lemma ConvertHSVtoRGB_ranges_exact (h s v : Q) :
  (0 <= h)%Q -> (h < 360)%Q -> (0 <= s <= 1)%Q -> (0 <= v <= 1)%Q ->
  let rgb := ConvertHSVtoRGB (mkVector3 h s v) in
  (0 <= v3_x rgb <= 1)%Q /\ (0 <= v3_y rgb <= 1)%Q /\ (0 <= v3_z rgb <= 1)%Q.
Proof.
  intros Hh0 Hh1 Hs Hv. unfold ConvertHSVtoRGB. cbn [v3_x v3_y v3_z].
  exact_arith.
  change (inject_Z 0) with 0%Q. change (inject_Z 1) with 1%Q.
  change (inject_Z 60) with 60%Q. change (inject_Z 360) with 360%Q.
  destruct (Exact_leb_spec s 0) as [Hs0|Hs0];
    [cbn [v3_x v3_y v3_z]; repeat split; lra|].
  destruct (Exact_leb_spec 360 h) as [Hge|_]; [lra|].
  assert (Hhh : (0 <= h / 60)%Q).
  { apply Qle_shift_div_l; lra. }
  destruct (Exact_to_Z_bounds (h / 60) Hhh) as (Hi & Hlo & Hhi).
  set (i := Exact.to_Z (h / 60)) in *.
  set (ff := (h / 60 - inject_Z i)%Q).
  assert (Hff : (0 <= ff)%Q /\ (ff < 1)%Q) by (subst ff; split; lra).
  clearbody ff.
  assert (Hp : (0 <= v * (1 - s))%Q /\ (v * (1 - s) <= 1)%Q) by (split; nra).
  assert (Hsf : (0 <= s * ff)%Q /\ (s * ff <= 1)%Q) by (split; nra).
  assert (Hsg : (0 <= s * (1 - ff))%Q /\ (s * (1 - ff) <= 1)%Q) by (split; nra).
  assert (Hq : (0 <= v * (1 - s * ff))%Q /\ (v * (1 - s * ff) <= 1)%Q).
  { set (a := (s * ff)%Q) in *. split; nra. }
  assert (Ht : (0 <= v * (1 - s * (1 - ff)))%Q /\
               (v * (1 - s * (1 - ff)) <= 1)%Q).
  { set (a := (s * (1 - ff))%Q) in *. split; nra. }
  destruct i as [|p|p]; [| |lia].
  - cbn [v3_x v3_y v3_z]. repeat split; lra.
  - destruct p as [[p|p|]|[p|p|]|]; cbn [v3_x v3_y v3_z];
      try (repeat split; lra);
      destruct p; cbn [v3_x v3_y v3_z]; repeat split; lra.
Qed.

Section ColorFacts.
Context {F : Type} `{FloatOps F}.

(** Whatever the arithmetic, the value returned by [ConvertRGBtoHSV]
    is one of the three channels. *)
Lemma ConvertRGBtoHSV_value (r g b : F) :
  let v := v3_z (ConvertRGBtoHSV (mkVector3 r g b)) in
  v = r \/ v = g \/ v = b.
Proof.
  unfold ConvertRGBtoHSV. cbn [v3_x v3_y v3_z].
  repeat match goal with
         | |- context [if ?c then _ else _] => destruct c
         end; cbn [v3_z]; auto.
Qed.

(** The achromatic branch, whatever the arithmetic: when the computed
    [max - min] is below the threshold, hue and saturation are 0 and
    the way back yields the gray triple of the value. *)
Lemma achromatic_round_trip (r g b : F) :
  let hsv := ConvertRGBtoHSV (mkVector3 r g b) in
  let mn := if f_ltb (if f_ltb r g then r else g) b
            then (if f_ltb r g then r else g) else b in
  let mx := if f_ltb b (if f_ltb g r then r else g)
            then (if f_ltb g r then r else g) else b in
  f_ltb (f_sub mx mn) achromatic_epsilon = true ->
  f_leb (f_of_Z 0) (f_of_Z 0) = true ->
  hsv = mkVector3 (f_of_Z 0) (f_of_Z 0) mx /\
  ConvertHSVtoRGB hsv = mkVector3 mx mx mx.
Proof.
  intros hsv mn mx Hd Hz. subst hsv. unfold ConvertRGBtoHSV.
  cbn [v3_x v3_y v3_z]. fold mn mx. rewrite Hd.
  split; [reflexivity|].
  unfold ConvertHSVtoRGB. cbn [v3_x v3_y v3_z]. rewrite Hz. reflexivity.
Qed.

End ColorFacts.

(** *** The way back from HSV, in exact arithmetic *)

Lemma Exact_to_Z_unique (x : Q) (i : Z) :
  0 <= i -> (inject_Z i <= x)%Q -> (x < inject_Z i + 1)%Q ->
  Exact.to_Z x = i.
Proof.
  intros Hi Hlo Hhi.
  assert (Hx : (0 <= x)%Q).
  { assert (0 <= inject_Z i)%Q
      by (change 0%Q with (inject_Z 0); rewrite <- Zle_Qle; exact Hi).
    lra. }
  destruct (Exact_to_Z_bounds x Hx) as (_ & Hlo' & Hhi').
  assert (H1 : (inject_Z i < inject_Z (Exact.to_Z x + 1))%Q)
    by (rewrite inject_Z_plus; change (inject_Z 1) with 1%Q; lra).
  assert (H2 : (inject_Z (Exact.to_Z x) < inject_Z (i + 1))%Q)
    by (rewrite inject_Z_plus; change (inject_Z 1) with 1%Q; lra).
  rewrite <- Zlt_Qlt in H1, H2. lia.
Qed.

(** [ConvertHSVtoRGB] on the hue [(k + f)*60] of sector [k]. *)
Lemma ConvertHSVtoRGB_sector (h s v f : Q) (k : Z) :
  (0 < s)%Q -> 0 <= k <= 5 -> (0 <= f)%Q -> (f < 1)%Q ->
  (h == (inject_Z k + f) * 60)%Q ->
  colour_eq (ConvertHSVtoRGB (mkVector3 h s v))
    (let p := (v * (1 - s))%Q in
     let q := (v * (1 - s * f))%Q in
     let t := (v * (1 - s * (1 - f)))%Q in
     match k with
     | 0 => mkVector3 v t p
     | 1 => mkVector3 q v p
     | 2 => mkVector3 p v t
     | 3 => mkVector3 p q v
     | 4 => mkVector3 t p v
     | _ => mkVector3 v p q
     end).
Proof.
  intros Hs Hk Hf0 Hf1 Hh. unfold ConvertHSVtoRGB. cbn [v3_x v3_y v3_z].
  exact_arith.
  change (inject_Z 0) with 0%Q. change (inject_Z 1) with 1%Q.
  change (inject_Z 60) with 60%Q. change (inject_Z 360) with 360%Q.
  assert (Hk0 : (0 <= inject_Z k)%Q)
    by (change 0%Q with (inject_Z 0); rewrite <- Zle_Qle; lia).
  assert (Hk5 : (inject_Z k <= 5)%Q)
    by (change 5%Q with (inject_Z 5); rewrite <- Zle_Qle; lia).
  destruct (Exact_leb_spec s 0) as [Hs0|_]; [lra|].
  destruct (Exact_leb_spec 360 h) as [Hge|_]; [lra|].
  assert (Hhh : (h / 60 == inject_Z k + f)%Q) by (rewrite Hh; field).
  rewrite (Exact_to_Z_unique (h / 60) k) by (try lia; lra).
  assert (Hff : (h / 60 - inject_Z k == f)%Q) by lra.
  assert (Hcases : k = 0 \/ k = 1 \/ k = 2 \/ k = 3 \/ k = 4 \/ k = 5) by lia.
  unfold colour_eq.
  destruct Hcases as [->|[->|[->|[->|[->| ->]]]]];
    cbn [v3_x v3_y v3_z]; rewrite ?Hff; repeat split; reflexivity.
Qed.

(** In exact arithmetic the way to HSV and back is the identity on
    every colour that is not achromatic. *)
Lemma round_trip_exact (r g b : Q) :
  (0 <= r <= 1)%Q -> (0 <= g <= 1)%Q -> (0 <= b <= 1)%Q ->
  let mn := if Exact.ltb (if Exact.ltb r g then r else g) b
            then (if Exact.ltb r g then r else g) else b in
  let mx := if Exact.ltb b (if Exact.ltb g r then r else g)
            then (if Exact.ltb g r then r else g) else b in
  Exact.ltb (mx - mn) achromatic_epsilon = false ->
  colour_eq (ConvertHSVtoRGB (ConvertRGBtoHSV (mkVector3 r g b)))
            (mkVector3 r g b).
Proof.
  intros Hr Hg Hb mn mx Hchromatic.
  unfold ConvertRGBtoHSV. cbn [v3_x v3_y v3_z]. exact_arith.
  fold mn mx. rewrite Hchromatic.
  unfold achromatic_epsilon in Hchromatic. exact_arith.
  change (inject_Z 0) with 0%Q in *. change (inject_Z 1) with 1%Q in *.
  change (inject_Z 2) with 2%Q. change (inject_Z 4) with 4%Q.
  change (inject_Z 60) with 60%Q. change (inject_Z 360) with 360%Q.
  change (inject_Z 100000) with 100000%Q in *.
  assert (Hmn : (mn <= r)%Q /\ (mn <= g)%Q /\ (mn <= b)%Q /\
                (mn == r \/ mn == g \/ mn == b)%Q).
  { subst mn. destruct (Exact_ltb_spec r g);
      split_comparisons; repeat split; try lra;
      auto using Qeq_refl. }
  assert (Hmx : (r <= mx)%Q /\ (g <= mx)%Q /\ (b <= mx)%Q /\
                (mx == r \/ mx == g \/ mx == b)%Q).
  { subst mx. destruct (Exact_ltb_spec g r);
      split_comparisons; repeat split; try lra;
      auto using Qeq_refl. }
  clearbody mn mx.
  destruct Hmn as (Hmn1 & Hmn2 & Hmn3 & Hmn).
  destruct Hmx as (Hmx1 & Hmx2 & Hmx3 & Hmx).
  destruct (Exact_ltb_spec (mx - mn) (1 / 100000)) as [|Hd];
    [discriminate Hchromatic|].
  assert (Hpos : (0 < mx - mn)%Q).
  { assert (0 < 1 / 100000)%Q by reflexivity. lra. }
  destruct (Exact_ltb_spec 0 mx) as [Hm|Hm]; [|lra].
  assert (Hs : (0 < (mx - mn) / mx)%Q) by (apply Qlt_shift_div_l; lra).
  assert (Hp : (mx * (1 - (mx - mn) / mx) == mn)%Q) by (field; lra).
  assert (Hq : forall n : Q,
            (mx * (1 - (mx - mn) / mx * (n / (mx - mn))) == mx - n)%Q)
    by (intros n; field; split; lra).
  assert (Ht : forall n : Q,
            (mx * (1 - (mx - mn) / mx * (1 - n / (mx - mn))) == mn + n)%Q)
    by (intros n; field; split; lra).
  assert (Hq1 : forall n : Q,
            (mx * (1 - (mx - mn) / mx * (1 + n / (mx - mn))) == mn - n)%Q)
    by (intros n; field; split; lra).
  assert (Ht1 : forall n : Q,
            (mx * (1 - (mx - mn) / mx * (1 - (1 + n / (mx - mn))))
             == mx + n)%Q)
    by (intros n; field; split; lra).
  assert (Hq0 : (mx * (1 - (mx - mn) / mx * 0) == mx)%Q) by (field; lra).
  assert (Hfrac : forall n : Q, (0 <= n)%Q -> (n < mx - mn)%Q ->
            (0 <= n / (mx - mn))%Q /\ (n / (mx - mn) < 1)%Q).
  { intros n Hn0 Hn1. split.
    - apply Qle_shift_div_l; lra.
    - apply Qlt_shift_div_r; lra. }
  assert (Hneg : forall n : Q, (n < 0)%Q -> (- (mx - mn) <= n)%Q ->
            (0 <= 1 + n / (mx - mn))%Q /\ (1 + n / (mx - mn) < 1)%Q /\
            (n / (mx - mn) < 0)%Q).
  { intros n Hn0 Hn1.
    assert (n / (mx - mn) < 0)%Q by (apply Qlt_shift_div_r; lra).
    assert (-1 <= n / (mx - mn))%Q by (apply Qle_shift_div_l; lra).
    repeat split; lra. }
  assert (Hone : forall n : Q, (n == mx - mn)%Q -> (n / (mx - mn) == 1)%Q).
  { intros n Hn. rewrite Hn. field. lra. }
  unfold colour_eq. cbn [v3_x v3_y v3_z].
  destruct (Exact_leb_spec mx r) as [Hxr|Hxr];
    [|destruct (Exact_leb_spec mx g) as [Hxg|Hxg]].
  - (* red is the largest channel *)
    destruct (Qlt_le_dec g b) as [Hgb|Hgb].
    + destruct (Hneg (g - b)%Q) as (Hf0 & Hf1 & Hn); try lra.
      destruct (Exact_ltb_spec ((g - b) / (mx - mn) * 60) 0); [|lra].
      destruct (ConvertHSVtoRGB_sector
                  ((g - b) / (mx - mn) * 60 + 360) ((mx - mn) / mx) mx
                  (1 + (g - b) / (mx - mn)) 5 Hs ltac:(lia) Hf0 Hf1)
        as (Hx & Hy & Hz); [change (inject_Z 5) with 5%Q; lra|].
      cbn [v3_x v3_y v3_z] in Hx, Hy, Hz.
      rewrite Hx, Hy, Hz, Hp, Hq1. repeat split; lra.
    + destruct (Qlt_le_dec (g - b) (mx - mn)) as [Hlt|Hge].
      * destruct (Hfrac (g - b)%Q) as (Hf0 & Hf1); try lra.
        destruct (Exact_ltb_spec ((g - b) / (mx - mn) * 60) 0); [lra|].
        destruct (ConvertHSVtoRGB_sector
                    ((g - b) / (mx - mn) * 60) ((mx - mn) / mx) mx
                    ((g - b) / (mx - mn)) 0 Hs ltac:(lia) Hf0 Hf1)
          as (Hx & Hy & Hz); [change (inject_Z 0) with 0%Q; lra|].
        cbn [v3_x v3_y v3_z] in Hx, Hy, Hz.
        rewrite Hx, Hy, Hz, Hp, Ht. repeat split; lra.
      * pose proof (Hone (g - b)%Q ltac:(lra)) as H1.
        destruct (Exact_ltb_spec ((g - b) / (mx - mn) * 60) 0); [lra|].
        destruct (ConvertHSVtoRGB_sector
                    ((g - b) / (mx - mn) * 60) ((mx - mn) / mx) mx
                    0 1 Hs ltac:(lia) ltac:(lra) ltac:(lra))
          as (Hx & Hy & Hz); [change (inject_Z 1) with 1%Q; lra|].
        cbn [v3_x v3_y v3_z] in Hx, Hy, Hz.
        rewrite Hx, Hy, Hz, Hp, Hq0. repeat split; lra.
  - (* green is *)
    destruct (Qlt_le_dec b r) as [Hbr|Hbr].
    + destruct (Hneg (b - r)%Q) as (Hf0 & Hf1 & Hn); try lra.
      destruct (Exact_ltb_spec ((2 + (b - r) / (mx - mn)) * 60) 0); [lra|].
      destruct (ConvertHSVtoRGB_sector
                  ((2 + (b - r) / (mx - mn)) * 60) ((mx - mn) / mx) mx
                  (1 + (b - r) / (mx - mn)) 1 Hs ltac:(lia) Hf0 Hf1)
        as (Hx & Hy & Hz); [change (inject_Z 1) with 1%Q; lra|].
      cbn [v3_x v3_y v3_z] in Hx, Hy, Hz.
      rewrite Hx, Hy, Hz, Hp, Hq1. repeat split; lra.
    + destruct (Qlt_le_dec (b - r) (mx - mn)) as [Hlt|Hge].
      * destruct (Hfrac (b - r)%Q) as (Hf0 & Hf1); try lra.
        destruct (Exact_ltb_spec ((2 + (b - r) / (mx - mn)) * 60) 0); [lra|].
        destruct (ConvertHSVtoRGB_sector
                    ((2 + (b - r) / (mx - mn)) * 60) ((mx - mn) / mx) mx
                    ((b - r) / (mx - mn)) 2 Hs ltac:(lia) Hf0 Hf1)
          as (Hx & Hy & Hz); [change (inject_Z 2) with 2%Q; lra|].
        cbn [v3_x v3_y v3_z] in Hx, Hy, Hz.
        rewrite Hx, Hy, Hz, Hp, Ht. repeat split; lra.
      * pose proof (Hone (b - r)%Q ltac:(lra)) as H1.
        destruct (Exact_ltb_spec ((2 + (b - r) / (mx - mn)) * 60) 0); [lra|].
        destruct (ConvertHSVtoRGB_sector
                    ((2 + (b - r) / (mx - mn)) * 60) ((mx - mn) / mx) mx
                    0 3 Hs ltac:(lia) ltac:(lra) ltac:(lra))
          as (Hx & Hy & Hz); [change (inject_Z 3) with 3%Q; lra|].
        cbn [v3_x v3_y v3_z] in Hx, Hy, Hz.
        rewrite Hx, Hy, Hz, Hp, Hq0. repeat split; lra.
  - (* blue is *)
    destruct (Qlt_le_dec r g) as [Hrg|Hrg].
    + destruct (Hneg (r - g)%Q) as (Hf0 & Hf1 & Hn); try lra.
      destruct (Exact_ltb_spec ((4 + (r - g) / (mx - mn)) * 60) 0); [lra|].
      destruct (ConvertHSVtoRGB_sector
                  ((4 + (r - g) / (mx - mn)) * 60) ((mx - mn) / mx) mx
                  (1 + (r - g) / (mx - mn)) 3 Hs ltac:(lia) Hf0 Hf1)
        as (Hx & Hy & Hz); [change (inject_Z 3) with 3%Q; lra|].
      cbn [v3_x v3_y v3_z] in Hx, Hy, Hz.
      rewrite Hx, Hy, Hz, Hp, Hq1. repeat split; lra.
    + destruct (Hfrac (r - g)%Q) as (Hf0 & Hf1); try lra.
      destruct (Exact_ltb_spec ((4 + (r - g) / (mx - mn)) * 60) 0); [lra|].
      destruct (ConvertHSVtoRGB_sector
                  ((4 + (r - g) / (mx - mn)) * 60) ((mx - mn) / mx) mx
                  ((r - g) / (mx - mn)) 4 Hs ltac:(lia) Hf0 Hf1)
        as (Hx & Hy & Hz); [change (inject_Z 4) with 4%Q; lra|].
      cbn [v3_x v3_y v3_z] in Hx, Hy, Hz.
      rewrite Hx, Hy, Hz, Hp, Ht. repeat split; lra.
Qed.

(** In binary32 the way back from HSV is not bit-exact: on the colour
    0.2, 0.6, 0.1 the red and blue channels come back two units in the
    last place higher, the green channel unchanged. *)
Lemma round_trip_not_bit_exact :
  let back := ConvertHSVtoRGB (ConvertRGBtoHSV sample_colour) in
  v3_x back <> v3_x sample_colour /\
  v3_y back = v3_y sample_colour /\
  v3_z back <> v3_z sample_colour /\
  v3_x back = S754_finite false 13421775 (-26) /\
  v3_x sample_colour = S754_finite false 13421773 (-26).
Proof.
  vm_compute. repeat split; discriminate.
Qed.



(** ** Scroll bar and scroll panel *)

Lemma normalize_value_bounds (value minValue maxValue : Z) :
  minValue <= maxValue ->
  minValue <= normalize_value value minValue maxValue <= maxValue.
Proof.
  intros Hle. unfold normalize_value.
  destruct (Z.gtb_spec value maxValue);
    match goal with
    | |- context [?a <? ?b] => destruct (Z.ltb_spec a b)
    end; lia.
Qed.

Section ScrollFacts.
Context {F : Type} `{FloatOps F}.

(** The value [GuiScrollBar] returns lies between its limits. *)
Lemma GuiScrollBar_bounds (style : Z -> Z -> Z) (g : Globals F)
    (inp : Input F) (bounds : Rectangle F) (value minValue maxValue : Z) :
  minValue <= maxValue ->
  minValue <= snd (GuiScrollBar style g inp bounds value minValue maxValue)
           <= maxValue.
Proof.
  intros Hle. unfold GuiScrollBar. cbv zeta.
  destruct (negb (guiState g =? STATE_DISABLED) && negb (guiLocked g)).
  - match goal with
    | |- context [let '(_, _) := ?e in _] => destruct e as [g' value']
    end.
    cbn [snd]. apply normalize_value_bounds. exact Hle.
  - cbn [snd]. apply normalize_value_bounds. exact Hle.
Qed.

(** The slider length [GuiScrollBar] settles on. *)
Lemma GuiScrollBar_slider_size (style : Z -> Z -> Z) (bounds : Rectangle F)
    (value minValue maxValue : Z) :
  let l := GuiScrollBar_layout style bounds value minValue maxValue in
  let requested := Z.max (style SCROLLBAR SCROLL_SLIDER_SIZE) 1 in
  1 <= requested /\
  sb_sliderSize l =
    if f_leb (track_length l) (f_of_Z requested)
    then f_to_Z (track_length l) - 2 else requested.
Proof.
  cbv zeta. split; [lia|].
  assert (E : Z.max (style SCROLLBAR SCROLL_SLIDER_SIZE) 1 =
              if style SCROLLBAR SCROLL_SLIDER_SIZE <? 1 then 1
              else style SCROLLBAR SCROLL_SLIDER_SIZE).
  { destruct (Z.ltb_spec (style SCROLLBAR SCROLL_SLIDER_SIZE) 1); lia. }
  rewrite E. unfold GuiScrollBar_layout, track_length. cbv zeta.
  destruct (f_ltb (rec_height bounds) (rec_width bounds));
    cbn [sb_sliderSize sb_isVertical sb_scrollbar rec_height rec_width];
    reflexivity.
Qed.

(** The offsets [GuiScrollPanel] stores: 0 along an axis without a
    bar, and otherwise the negated value of that axis' [GuiScrollBar],
    which lies between the truncated limits. *)
Lemma GuiScrollPanel_offsets (style : Z -> Z -> Z) (g : Globals F)
    (inp : Input F) (bounds : Rectangle F) (hasText : bool)
    (content : Rectangle F) (scroll : option (Vector2 F)) :
  let l := GuiScrollPanel_layout style bounds hasText content in
  let scroll' :=
    (GuiScrollPanel style g inp bounds hasText content scroll).1.2 in
  (if hasHorizontalScrollBar l
   then exists v, v2_x scroll' = f_of_Z (- v) /\
          (f_to_Z (horizontalMin l) <= f_to_Z (horizontalMax l) ->
           f_to_Z (horizontalMin l) <= v <= f_to_Z (horizontalMax l))
   else v2_x scroll' = f_of_Z 0) /\
  (if hasVerticalScrollBar l
   then exists v, v2_y scroll' = f_of_Z (- v) /\
          (f_to_Z (verticalMin l) <= f_to_Z (verticalMax l) ->
           f_to_Z (verticalMin l) <= v <= f_to_Z (verticalMax l))
   else v2_y scroll' = f_of_Z 0).
Proof.
  cbv zeta. unfold GuiScrollPanel. cbv zeta.
  set (l := GuiScrollPanel_layout style bounds hasText content).
  match goal with
  | |- context [let '(_, _) := ?e in _] => destruct e as [state scrollPos]
  end.
  destruct (hasHorizontalScrollBar l), (hasVerticalScrollBar l);
    repeat match goal with
           | |- context [GuiScrollBar ?s ?g0 ?i ?b ?v ?lo ?hi] =>
               let Hb := fresh "Hb" in
               pose proof (GuiScrollBar_bounds s g0 i b v lo hi) as Hb;
               destruct (GuiScrollBar s g0 i b v lo hi) as [? ?];
               cbn [snd] in Hb
           end;
    cbn [fst snd v2_x v2_y]; split; eauto.
Qed.

End ScrollFacts.

(** Truncation toward zero stays within one unit of its argument. *)
Lemma Exact_to_Z_opp (x : Q) : Exact.to_Z (- x) = (- Exact.to_Z x)%Z.
Proof.
  unfold Exact.to_Z. destruct x as [n d]. simpl.
  apply Z.quot_opp_l. discriminate.
Qed.

Lemma Exact_to_Z_near (x : Q) :
  (x - 1 < inject_Z (Exact.to_Z x))%Q /\ (inject_Z (Exact.to_Z x) < x + 1)%Q.
Proof.
  destruct (Qlt_le_dec x 0) as [Hneg|Hpos].
  - assert (Hx : (0 <= - x)%Q) by lra.
    destruct (Exact_to_Z_bounds (- x) Hx) as (_ & Hlo & Hhi).
    rewrite Exact_to_Z_opp, inject_Z_opp in Hlo, Hhi. split; lra.
  - destruct (Exact_to_Z_bounds x Hpos) as (_ & Hlo & Hhi). split; lra.
Qed.

(** In exact arithmetic the slider is shorter than the track, and at
    least 1 long on a track of length 3 or more. *)
Lemma GuiScrollBar_slider_size_exact (style : Z -> Z -> Z)
    (bounds : Rectangle Q) (value minValue maxValue : Z) :
  let l := GuiScrollBar_layout style bounds value minValue maxValue in
  (inject_Z (sb_sliderSize l) < track_length l)%Q /\
  ((3 <= track_length l)%Q -> 1 <= sb_sliderSize l).
Proof.
  cbv zeta.
  destruct (GuiScrollBar_slider_size style bounds value minValue maxValue)
    as [Hreq Hsize]. cbv zeta in Hsize. rewrite Hsize. clear Hsize.
  set (t := track_length _). clearbody t.
  set (req := Z.max _ 1) in *. clearbody req.
  exact_arith.
  destruct (Exact_to_Z_near t) as [Hlo Hhi].
  destruct (Exact_leb_spec t (inject_Z req)) as [Hle|Hgt].
  - split.
    + unfold Z.sub. rewrite inject_Z_plus, inject_Z_opp.
      change (inject_Z 2) with 2%Q. lra.
    + intros H3.
      assert (Hz : (inject_Z 2 < inject_Z (Exact.to_Z t))%Q).
      { change (inject_Z 2) with 2%Q. lra. }
      rewrite <- Zlt_Qlt in Hz. lia.
  - split; [exact Hgt|]. intros _. exact Hreq.
Qed.



(** ** Text drawing without wrap *)

(** The ellipsis loop: three turns for a width that is a positive
    multiple of 3; no end for a width of 1 or 2, where the step is 0. *)
Lemma ellipsis_offsets_three (fuel : nat) (k : Z) :
  1 <= k -> (3 <= fuel)%nat ->
  ellipsis_offsets fuel 0 (3 * k) = Some [0; k; 2 * k].
Proof.
  intros Hk Hfuel.
  assert (Hq : Z.quot (3 * k) 3 = k).
  { rewrite Z.mul_comm. apply Z.quot_mul. discriminate. }
  destruct fuel as [|[|[|fuel]]]; try lia.
  cbn [ellipsis_offsets]. rewrite Hq.
  destruct (Z.ltb_spec 0 (3 * k)); [|lia].
  destruct (Z.ltb_spec (0 + k) (3 * k)); [|lia].
  destruct (Z.ltb_spec (0 + k + k) (3 * k)); [|lia].
  assert (E : (0 + k + k + k <? 3 * k) = false) by (apply Z.ltb_ge; lia).
  destruct fuel; cbn [ellipsis_offsets]; rewrite E; cbn;
    repeat f_equal; lia.
Qed.

Lemma ellipsis_offsets_hangs (fuel : nat) (width : Z) :
  0 < width < 3 -> ellipsis_offsets fuel 0 width = None.
Proof.
  intros Hw.
  assert (Hq : Z.quot width 3 = 0) by (apply Z.quot_small; lia).
  induction fuel as [|fuel IH]; cbn [ellipsis_offsets];
    destruct (Z.ltb_spec 0 width); try lia; [reflexivity|].
  rewrite Hq. change (0 + 0) with 0. rewrite IH. reflexivity.
Qed.

Section NoWrapExact.
Variable char_signed : bool.
Variable style : Z -> Z -> Z.
Variable guiFont : Font Q.
Variable line : list Z.
Variable lineSize : nat.
Variable textSizeX : Z.
Variable boundsWidth textBoundsWidthOffset : Q.
Variable third : Z.
Variable position : Vector2 Q.
Variable inner_fuel : nat.

Hypothesis glyph_widths : forall cp, (0 <= glyphWidth style guiFont cp)%Q.
Hypothesis text_spacing : 0 <= style DEFAULT TEXT_SPACING.
Hypothesis line_bytes : Forall is_byte line.
Hypothesis wider : (boundsWidth < inject_Z textSizeX)%Q.
Hypothesis third_positive : 1 <= third.
Hypothesis inner_fuel_enough : (3 <= inner_fuel)%nat.

Local Abbreviation loop :=
  (draw_glyphs char_signed style guiFont line lineSize textSizeX boundsWidth
               textBoundsWidthOffset (3 * third) position inner_fuel).
Local Abbreviation fits :=
  (glyph_fits style guiFont boundsWidth textBoundsWidthOffset (3 * third)).
Local Abbreviation advance := (glyph_advance style guiFont).

Lemma glyph_advance_nonneg (cp : Z) : (0 <= advance cp)%Q.
Proof.
  unfold glyph_advance. exact_arith.
  pose proof (glyph_widths cp) as Hw.
  assert (Hs : (0 <= inject_Z (style DEFAULT TEXT_SPACING))%Q).
  { change 0%Q with (inject_Z 0). rewrite <- Zle_Qle. exact text_spacing. }
  lra.
Qed.

Lemma fits_spec (X : Q) (cp : Z) :
  BoolSpec
    (X <= boundsWidth - glyphWidth style guiFont cp - textBoundsWidthOffset
          - inject_Z (3 * third))%Q
    (boundsWidth - glyphWidth style guiFont cp - textBoundsWidthOffset
       - inject_Z (3 * third) < X)%Q
    (fits X cp).
Proof.
  unfold glyph_fits. exact_arith. apply Exact_leb_spec.
Qed.

Lemma wider_test : Exact.ltb boundsWidth (inject_Z textSizeX) = true.
Proof.
  destruct (Exact_ltb_spec boundsWidth (inject_Z textSizeX)); [reflexivity|].
  lra.
Qed.

(** Once the ellipsis is drawn, with the pen past the room left for
    glyphs, the rest of the line draws nothing. *)
Lemma draw_glyphs_after_overflow (fuel : nat) :
  forall (c : nat) (X : Q),
    (lineSize - c <= fuel)%nat ->
    (boundsWidth - textBoundsWidthOffset - inject_Z (3 * third) < X)%Q ->
    loop fuel c X true = Some [].
Proof.
  induction fuel as [|fuel IH]; intros c X Hfuel HX; cbn [draw_glyphs].
  - destruct (Nat.ltb_spec c lineSize); [lia|reflexivity].
  - destruct (Nat.ltb_spec c lineSize); [|reflexivity].
    pose proof (next_codepoint_size char_signed line c line_bytes) as Hsize.
    destruct (next_codepoint char_signed line c) as [cp size].
    cbn [snd] in Hsize.
    destruct (cp =? ch_nl); [reflexivity|].
    assert (Hrest : loop fuel (c + Z.to_nat size)%nat (X + advance cp)%Q true
                    = Some []).
    { apply IH; [lia|]. pose proof (glyph_advance_nonneg cp). lra. }
    exact_arith. rewrite wider_test.
    destruct (negb (cp =? ch_space) && negb (cp =? ch_tab)).
    + destruct (fits_spec X cp) as [Hfit|Hfit].
      * pose proof (glyph_widths cp). lra.
      * cbn [negb]. rewrite StyleFacts.bind_Some. cbv beta iota.
        rewrite Hrest. reflexivity.
    + rewrite StyleFacts.bind_Some. cbv beta iota. rewrite Hrest. reflexivity.
Qed.

(** The glyph loop of a line wider than the bounds draws the truncated
    line, and ends within [lineSize - c] turns. *)
Lemma draw_glyphs_truncates (fuel : nat) :
  forall (c : nat) (X : Q),
    (lineSize - c <= fuel)%nat ->
    exists cps draws pre post,
      decode_from char_signed fuel line c lineSize = Some cps /\
      loop fuel c X false = Some draws /\
      with_pen style guiFont X (until_newline (map fst cps)) = pre ++ post /\
      truncated_drawing style guiFont boundsWidth textBoundsWidthOffset
        (3 * third) position pre post draws.
Proof.
  assert (Hq : Z.quot (3 * third) 3 = third).
  { rewrite Z.mul_comm. apply Z.quot_mul. discriminate. }
  assert (Hnone : truncated_drawing style guiFont boundsWidth
            textBoundsWidthOffset (3 * third) position [] [] []).
  { split; [constructor|reflexivity]. }
  induction fuel as [|fuel IH]; intros c X Hfuel;
    cbn [draw_glyphs decode_from].
  - destruct (Nat.ltb_spec c lineSize); [lia|].
    exists [], [], [], []. repeat split; try reflexivity. constructor.
  - destruct (Nat.ltb_spec c lineSize);
      [|exists [], [], [], []; repeat split; try reflexivity; constructor].
    pose proof (next_codepoint_size char_signed line c line_bytes) as Hsize.
    destruct (next_codepoint char_signed line c) as [cp size].
    cbn [snd] in Hsize.
    destruct (IH (c + Z.to_nat size)%nat (X + advance cp)%Q)
      as (cps & draws & pre & post & Hdec & Hloop & Hpens & Hfit & Hdraws);
      [lia|].
    rewrite Hdec, StyleFacts.bind_Some.
    exists ((cp, c) :: cps).
    cbn [map fst until_newline].
    destruct (cp =? ch_nl) eqn:Enl.
    { exists [], [], []. repeat split; try reflexivity. constructor. }
    cbn [with_pen]. exact_arith. rewrite wider_test.
    fold (visible cp).
    destruct (visible cp) eqn:Evis.
    + destruct (fits_spec X cp) as [Hyes|Hno].
      * (* the glyph fits *)
        rewrite StyleFacts.bind_Some. cbv beta iota.
        rewrite Hloop, StyleFacts.bind_Some.
        eexists. exists ((cp, X) :: pre), post.
        split; [reflexivity|]. split; [reflexivity|].
        split; [rewrite Hpens; reflexivity|].
        split.
        { constructor; [|exact Hfit]. intros _. cbn [fst snd].
          destruct (fits_spec X cp); [reflexivity|lra]. }
        cbv zeta in Hdraws |- *. cbn [List.filter fst snd]. rewrite Evis.
        cbn [map fst snd].
        destruct post as [|[cp0 X0] post'].
        -- rewrite Hdraws. reflexivity.
        -- destruct Hdraws as (Hv & Hf & Hd). repeat split; try assumption.
           rewrite Hd. reflexivity.
      * (* the first glyph that does not fit: the ellipsis *)
        cbn [negb].
        rewrite (ellipsis_offsets_three inner_fuel third third_positive
                   inner_fuel_enough).
        rewrite !StyleFacts.bind_Some. cbv beta iota.
        rewrite draw_glyphs_after_overflow;
          [|lia|pose proof (glyph_widths cp); unfold glyph_advance;
                exact_arith;
                assert (0 <= inject_Z (style DEFAULT TEXT_SPACING))%Q
                  by (change 0%Q with (inject_Z 0); rewrite <- Zle_Qle;
                      exact text_spacing);
                lra].
        rewrite StyleFacts.bind_Some.
        eexists.
        exists [], ((cp, X) :: with_pen style guiFont (X + advance cp)%Q
                                 (until_newline (map fst cps))).
        split; [reflexivity|]. split; [reflexivity|].
        split; [reflexivity|]. split; [constructor|].
        cbv zeta. cbn [List.filter map app].
        split; [exact Evis|]. split.
        { destruct (fits_spec X cp); [lra|reflexivity]. }
        rewrite Hq. reflexivity.
    + (* a space or a tab: nothing is drawn *)
      rewrite StyleFacts.bind_Some. cbv beta iota.
      rewrite Hloop, StyleFacts.bind_Some.
      eexists. exists ((cp, X) :: pre), post.
      split; [reflexivity|]. split; [reflexivity|].
      split; [rewrite Hpens; reflexivity|].
      split.
      { constructor; [|exact Hfit]. cbn [fst]. rewrite Evis. discriminate. }
      cbv zeta in Hdraws |- *. cbn [List.filter fst snd]. rewrite Evis.
      exact Hdraws.
Qed.

End NoWrapExact.

(** A text without a newline is one line. *)
Lemma more_text_lines_single (text : list Z) :
  Forall (fun b => b <> ch_nl) text ->
  forall count, more_text_lines text count = [].
Proof.
  induction 1 as [|b rest Hb _ IH]; intros count; cbn [more_text_lines].
  - reflexivity.
  - destruct (count <? RAYGUI_MAX_TEXT_LINES)%nat; [|reflexivity].
    destruct (Z.eqb_spec b ch_nl); [contradiction|]. apply IH.
Qed.

(** [GetTextIcon] returns a pointer into the text it is given. *)
Lemma GetTextIcon_suffix (text : list Z) :
  exists n, (GetTextIcon text).2 = drop n text.
Proof.
  unfold GetTextIcon.
  destruct (char_at text 0 =? ch_hash); [|exists 0%nat; reflexivity].
  destruct (icon_digits 4 text 1 [0; 0; 0; 0]) as [pos iconValue].
  destruct (char_at text pos =? ch_hash); [|exists 0%nat; reflexivity].
  destruct (TextToInteger iconValue >=? 0).
  - exists (pos + 1)%nat. reflexivity.
  - exists 0%nat. reflexivity.
Qed.

Lemma line_size_le_length (line : list Z) :
  (line_size line <= length line)%nat.
Proof.
  induction line as [|b rest IH]; cbn [line_size length]; [lia|].
  destruct ((b =? 0) || (b =? ch_nl) || (b =? ch_cr)); lia.
Qed.

Lemma line_size_empty (line : list Z) :
  char_at line 0 = 0 -> line_size line = 0%nat.
Proof.
  destruct line as [|b rest]; [reflexivity|].
  unfold char_at. cbn [nth line_size]. intros ->. reflexivity.
Qed.


(** *** The measuring loop ends *)

Lemma GetCodepointNext_size (char_signed : bool) (text : list Z) :
  Forall is_byte text -> 1 <= snd (GetCodepointNext char_signed text) <= 4.
Proof.
  intros Hb. rewrite GetCodepointNext_spec by exact Hb.
  destruct (well_formed_at text) eqn:Ew; cbn [snd]; [|lia].
  apply lead_length_bounds. exact Ew.
Qed.

Section Measuring.
Context {F : Type} `{FloatOps F}.
Variable char_signed : bool.
Variable style : Z -> Z -> Z.
Variable guiFont : Font F.

Lemma measure_from_returns (text : list Z) (size : nat) :
  Forall is_byte text ->
  forall (fuel i : nat) (x : F),
    (size - i <= fuel)%nat ->
    exists x',
      measure_from char_signed style guiFont fuel text i size x = Some x'.
Proof.
  intros Hb fuel. induction fuel as [|fuel IH]; intros i x Hfuel;
    cbn [measure_from]; destruct (Nat.ltb_spec i size); try lia;
    try (eexists; reflexivity).
  pose proof (GetCodepointNext_size char_signed (drop i text)
                (Forall_drop _ _ _ Hb)) as Hsize.
  destruct (GetCodepointNext char_signed (drop i text)) as [cp size'].
  cbn [snd] in Hsize. apply IH. lia.
Qed.

Lemma measured_size_le (text : list Z) :
  forall fuel : nat, (measured_size fuel text <= fuel)%nat.
Proof.
  induction text as [|b rest IH]; intros [|fuel]; cbn [measured_size];
    try lia.
  destruct (negb (b =? 0) && negb (b =? ch_nl)); [|lia].
  specialize (IH fuel). lia.
Qed.

(** [GetTextWidth] returns on every text, within the turns that the
    line buffer allows. *)
Lemma GetTextWidth_returns (fuel : nat) (text : list Z) :
  Forall is_byte text -> (MAX_LINE_BUFFER_SIZE <= fuel)%nat ->
  exists width,
    GetTextWidth char_signed style guiFont fuel text = Some width.
Proof.
  intros Hb Hfuel. unfold GetTextWidth.
  destruct (negb (char_at text 0 =? 0)); [|eexists; reflexivity].
  cbv zeta.
  set (text' := drop _ text).
  destruct (texture_id guiFont >? 0).
  - pose proof (measured_size_le text' MAX_LINE_BUFFER_SIZE) as Hle.
    destruct (measure_from_returns text'
                (measured_size MAX_LINE_BUFFER_SIZE text')
                (Forall_drop _ _ _ Hb) fuel 0%nat (f_of_Z 0)) as [x ->];
      [lia|].
    rewrite StyleFacts.bind_Some. eexists. reflexivity.
  - rewrite StyleFacts.bind_Some. eexists. reflexivity.
Qed.

End Measuring.

(** *** Lines of plain ASCII characters *)

Lemma GetCodepointNext_ascii (char_signed : bool) (b : Z) (rest : list Z) :
  0 <= b < 128 -> Forall is_byte rest ->
  GetCodepointNext char_signed (b :: rest) = (b, 1).
Proof.
  intros Hb Hrest.
  rewrite GetCodepointNext_spec
    by (apply Forall_cons_2; [unfold is_byte; lia|exact Hrest]).
  unfold well_formed_at, encoded_value, char_at. cbn [nth].
  unfold lead_length. destruct (Z.ltb_spec b 128); [reflexivity|lia].
Qed.

Lemma line_size_ascii (line : list Z) :
  Forall ascii_char line -> line_size line = length line.
Proof.
  induction 1 as [|b rest (Hb & Hnl & Hcr) _ IH]; [reflexivity|].
  cbn [line_size length].
  destruct (Z.eqb_spec b 0); [lia|].
  destruct (Z.eqb_spec b ch_nl); [contradiction|].
  destruct (Z.eqb_spec b ch_cr); [contradiction|].
  cbn [orb]. rewrite IH. reflexivity.
Qed.

Lemma until_newline_ascii (line : list Z) :
  Forall ascii_char line -> until_newline line = line.
Proof.
  induction 1 as [|b rest (Hb & Hnl & Hcr) _ IH]; [reflexivity|].
  cbn [until_newline].
  destruct (Z.eqb_spec b ch_nl); [contradiction|]. rewrite IH. reflexivity.
Qed.

Lemma measured_size_ascii (line : list Z) :
  Forall ascii_char line ->
  forall fuel : nat,
    (length line <= fuel)%nat -> measured_size fuel line = length line.
Proof.
  induction 1 as [|b rest (Hb & Hnl & Hcr) _ IH]; intros fuel Hfuel.
  - destruct fuel; reflexivity.
  - cbn [length] in Hfuel. destruct fuel as [|fuel]; [lia|].
    cbn [measured_size length].
    destruct (Z.eqb_spec b 0); [lia|].
    destruct (Z.eqb_spec b ch_nl); [contradiction|].
    cbn [negb andb]. rewrite IH by lia. reflexivity.
Qed.

Section AsciiLine.
Context {F : Type} `{FloatOps F}.
Variable char_signed : bool.
Variable style : Z -> Z -> Z.
Variable guiFont : Font F.
Variable line : list Z.
Hypothesis line_ascii : Forall ascii_char line.

Lemma ascii_line_bytes : Forall is_byte line.
Proof.
  eapply Forall_impl; [exact line_ascii|].
  intros b (Hb & _). unfold is_byte. lia.
Qed.

Lemma ascii_line_at (c : nat) :
  (c < length line)%nat ->
  exists b, line !! c = Some b /\ ascii_char b /\
            GetCodepointNext char_signed (drop c line) = (b, 1) /\
            next_codepoint char_signed line c = (b, 1).
Proof.
  intros Hc.
  destruct (lookup_lt_is_Some_2 line c Hc) as [b Hb].
  pose proof (Forall_lookup_1 _ _ _ _ line_ascii Hb) as Hascii.
  assert (Hnext : GetCodepointNext char_signed (drop c line) = (b, 1)).
  { rewrite (drop_S _ _ _ Hb). apply GetCodepointNext_ascii.
    - destruct Hascii. lia.
    - apply Forall_drop, ascii_line_bytes. }
  exists b. repeat split; try assumption; try apply Hascii.
  unfold next_codepoint. rewrite Hnext. destruct (b =? 63); reflexivity.
Qed.

(** The line loop meets the bytes of the line, one by one. *)
Lemma decode_from_ascii (fuel : nat) :
  forall c : nat,
    (length line - c <= fuel)%nat ->
    exists cps,
      decode_from char_signed fuel line c (length line) = Some cps /\
      map fst cps = drop c line.
Proof.
  induction fuel as [|fuel IH]; intros c Hfuel; cbn [decode_from];
    destruct (Nat.ltb_spec c (length line)) as [Hc|Hc]; try lia;
    try (exists []; split; [reflexivity|];
         rewrite drop_ge by lia; reflexivity).
  destruct (ascii_line_at c Hc) as (b & Hb & _ & _ & ->).
  destruct (IH (c + Z.to_nat 1)%nat) as (cps & -> & Hcps); [lia|].
  rewrite StyleFacts.bind_Some. eexists. split; [reflexivity|].
  cbn [map fst]. rewrite Hcps, (drop_S _ _ _ Hb).
  replace (c + Z.to_nat 1)%nat with (S c) by lia. reflexivity.
Qed.

(** The measuring loop adds up the advances of the bytes of the line. *)
Lemma measure_from_ascii (fuel : nat) :
  forall (c : nat) (x : F),
    (length line - c <= fuel)%nat ->
    measure_from char_signed style guiFont fuel line c (length line) x
      = Some (pen_end style guiFont x (drop c line)).
Proof.
  induction fuel as [|fuel IH]; intros c x Hfuel; cbn [measure_from];
    destruct (Nat.ltb_spec c (length line)) as [Hc|Hc]; try lia;
    try (rewrite drop_ge by lia; reflexivity).
  destruct (ascii_line_at c Hc) as (b & Hb & _ & -> & _).
  rewrite IH by lia. rewrite (drop_S _ _ _ Hb).
  replace (c + Z.to_nat 1)%nat with (S c) by lia. reflexivity.
Qed.

Lemma GetTextWidth_ascii (fuel : nat) :
  line <> [] -> char_at line 0 <> ch_hash ->
  (texture_id guiFont >? 0) = true ->
  (length line <= MAX_LINE_BUFFER_SIZE)%nat -> (length line <= fuel)%nat ->
  GetTextWidth char_signed style guiFont fuel line
    = Some (f_to_Z (pen_end style guiFont (f_of_Z 0) line)).
Proof.
  intros Hne Hhash Htexture Hbuffer Hfuel. unfold GetTextWidth.
  destruct (Z.eqb_spec (char_at line 0) 0) as [Hzero|_].
  { destruct line as [|b rest]; [contradiction|].
    apply Forall_cons_1 in line_ascii. destruct line_ascii as ((Hb & _) & _).
    unfold char_at in Hzero. cbn [nth] in Hzero. lia. }
  destruct (Z.eqb_spec (char_at line 0) ch_hash); [contradiction|].
  cbn [negb]. rewrite drop_0, Htexture.
  rewrite (measured_size_ascii line line_ascii _ Hbuffer).
  rewrite measure_from_ascii by lia. rewrite drop_0. reflexivity.
Qed.

(** The pen after a line, from the pen at its last codepoint. *)
Lemma with_pen_last (init : list Z) (cp : Z) :
  forall X : F,
    with_pen style guiFont X (init ++ [cp])
      = with_pen style guiFont X init ++ [(cp, pen_end style guiFont X init)] /\
    pen_end style guiFont X (init ++ [cp])
      = f_add (pen_end style guiFont X init) (glyph_advance style guiFont cp).
Proof.
  induction init as [|cp0 init IH]; intros X; cbn [app with_pen pen_end].
  - split; reflexivity.
  - destruct (IH (f_add X (glyph_advance style guiFont cp0))) as [-> ->].
    split; reflexivity.
Qed.

End AsciiLine.

Section AsciiLineExact.
Variable char_signed : bool.
Variable style : Z -> Z -> Z.
Variable guiFont : Font Q.

Hypothesis glyph_widths : forall cp, (0 <= glyphWidth style guiFont cp)%Q.
Hypothesis text_spacing : 0 <= style DEFAULT TEXT_SPACING.

Lemma pen_end_ge (cps : list Z) :
  forall X : Q, (X <= pen_end style guiFont X cps)%Q.
Proof.
  induction cps as [|cp cps IH]; intros X; cbn [pen_end]; [lra|].
  pose proof (IH (X + glyph_advance style guiFont cp)%Q) as Hle.
  pose proof (glyph_advance_nonneg style guiFont glyph_widths text_spacing cp).
  exact_arith. lra.
Qed.

(** An ellipsis text with a positive width was measured on a font with
    a texture, and it is at least as wide as the spacing. *)
Lemma ellipsis_width_spacing (fuel : nat) (third : Z) :
  GetTextWidth char_signed style guiFont fuel (cstring "..."%string)
    = Some (3 * third) ->
  1 <= third -> (3 <= fuel)%nat ->
  (texture_id guiFont >? 0) = true /\ style DEFAULT TEXT_SPACING <= 3 * third.
Proof.
  intros Hell Hthird Hfuel.
  change (cstring "..."%string) with [ch_dot; ch_dot; ch_dot] in Hell.
  destruct (texture_id guiFont >? 0) eqn:Etexture.
  - split; [reflexivity|].
    rewrite GetTextWidth_ascii in Hell; try assumption;
      try discriminate; try (cbn [length]; unfold MAX_LINE_BUFFER_SIZE; lia).
    2:{ repeat (apply Forall_cons_2;
                [unfold ascii_char, ch_dot, ch_nl, ch_cr; lia|]).
        apply Forall_nil_2. }
    injection Hell as Hell. cbn [pen_end] in Hell.
    pose proof (glyph_widths ch_dot) as Hw.
    assert (Hs : (0 <= inject_Z (style DEFAULT TEXT_SPACING))%Q).
    { change 0%Q with (inject_Z 0). rewrite <- Zle_Qle. exact text_spacing. }
    unfold glyph_advance in Hell. exact_arith.
    change (inject_Z 0) with 0%Q in *.
    match type of Hell with
    | Exact.to_Z ?x = _ =>
        destruct (Exact_to_Z_bounds x) as (_ & _ & Hhi); [lra|];
        rewrite Hell in Hhi
    end.
    assert (Hlt : (inject_Z (3 * style DEFAULT TEXT_SPACING)
                   < inject_Z (3 * third + 1))%Q).
    { rewrite inject_Z_plus, !inject_Z_mult.
      change (inject_Z 3) with 3%Q. change (inject_Z 1) with 1%Q.
      rewrite inject_Z_mult in Hhi. change (inject_Z 3) with 3%Q in Hhi. lra. }
    rewrite <- Zlt_Qlt in Hlt. lia.
  - exfalso. unfold GetTextWidth, char_at, ch_dot, ch_hash in Hell.
    cbn [nth] in Hell. rewrite Etexture in Hell. cbn in Hell.
    change (Exact.to_Z (Exact.of_Z 0)) with 0 in Hell.
    injection Hell as Hell. lia.
Qed.

(** A plain line whose last character is visible: when it is measured
    wider than the bounds, its last glyph does not fit, so that the
    codepoints that fit are not the whole line. *)
Lemma ellipsis_present_ascii
    (guiIconScale : Z) (fuel : nat) (iconId : Z) (line : list Z)
    (textSizeX third : Z) (boundsWidth : Q) (pre post : list (Z * Q)) :
  line_width char_signed style guiFont guiIconScale fuel iconId line
    = Some textSizeX ->
  (boundsWidth < inject_Z textSizeX)%Q ->
  GetTextWidth char_signed style guiFont fuel (cstring "..."%string)
    = Some (3 * third) ->
  1 <= third -> (length line <= fuel)%nat -> (3 <= fuel)%nat ->
  Forall ascii_char line -> char_at line 0 <> ch_hash ->
  (length line <= MAX_LINE_BUFFER_SIZE)%nat ->
  (exists b, last line = Some b /\ visible b = true) ->
  with_pen style guiFont 0%Q line = pre ++ post ->
  Forall (fun p => visible p.1 = true ->
            glyph_fits style guiFont boundsWidth
              (if iconId >=? 0
               then inject_Z (RAYGUI_ICON_SIZE * guiIconScale
                              + ICON_TEXT_PADDING)
               else 0%Q) (3 * third) p.2 p.1 = true) pre ->
  post <> [].
Proof.
  intros Hlw Hwider Hell Hthird Hfuel Hfuel3 Hascii Hhash Hbuffer
         (b & Hlast & Hvisible) Hpens Hfits ->.
  destruct (ellipsis_width_spacing fuel third Hell Hthird Hfuel3)
    as [Htexture Hspacing].
  apply last_Some in Hlast. destruct Hlast as [init Hline].
  assert (Hne : line <> []) by (rewrite Hline; destruct init; discriminate).
  unfold line_width in Hlw.
  rewrite (GetTextWidth_ascii char_signed style guiFont line Hascii fuel
             Hne Hhash Htexture Hbuffer Hfuel) in Hlw.
  rewrite StyleFacts.bind_Some in Hlw. injection Hlw as Hlw.
  assert (Hfirst : (char_at line 0 =? 0) = false).
  { apply Z.eqb_neq. destruct line as [|b0 rest]; [contradiction|].
    apply Forall_cons_1 in Hascii. destruct Hascii as ((Hb0 & _) & _).
    unfold char_at. cbn [nth]. lia. }
  rewrite Hfirst in Hlw. cbn [negb] in Hlw.
  rewrite app_nil_r in Hpens. subst pre.
  destruct (with_pen_last style guiFont init b 0%Q) as [Hpen Hend].
  rewrite Hline, Hpen in Hfits. rewrite Hline in Hlw.
  change (Exact.of_Z 0) with 0%Q in Hlw. rewrite Hend in Hlw.
  apply Forall_app in Hfits. destruct Hfits as [_ Hfit].
  apply Forall_cons_1 in Hfit. destruct Hfit as [Hfit _].
  cbn [fst snd] in Hfit. specialize (Hfit Hvisible).
  pose proof (pen_end_ge init 0%Q) as Hpos.
  pose proof (glyph_widths b) as Hw.
  assert (Hs : (0 <= inject_Z (style DEFAULT TEXT_SPACING))%Q).
  { change 0%Q with (inject_Z 0). rewrite <- Zle_Qle. exact text_spacing. }
  assert (Hsp : (inject_Z (style DEFAULT TEXT_SPACING)
                 <= inject_Z (3 * third))%Q)
    by (rewrite <- Zle_Qle; exact Hspacing).
  unfold glyph_fits in Hfit. unfold glyph_advance in Hlw. exact_arith.
  match type of Hlw with
  | context [Exact.to_Z ?x] =>
      destruct (Exact_to_Z_bounds x) as (_ & Hlo & _); [lra|];
      set (measured := Exact.to_Z x) in *
  end.
  match type of Hfit with
  | Qle_bool ?a ?c = true =>
      destruct (Exact_leb_spec a c) as [Hle|Hgt]; [|discriminate Hfit]
  end.
  destruct (iconId >=? 0); subst textSizeX.
  - rewrite !inject_Z_plus in Hwider.
    rewrite inject_Z_plus in Hle. lra.
  - lra.
Qed.

End AsciiLineExact.



(** An ellipsis width that is not a multiple of 3: "Hello World" with a
    text size of 15, 93 wide, in bounds 60 wide; the ellipsis text is 25
    wide, the loop steps by 8 and draws four dots. *)
Lemma ellipsis_of_four_dots :
  GetTextWidth true large_text_style (@mono_font Binary32.float _) 16
               hello_world = Some 93 /\
  GetTextWidth true large_text_style (@mono_font Binary32.float _) 16
               (cstring "..."%string) = Some 25 /\
  option_map drawn_codepoints
    (GuiDrawText true large_text_style (@mono_font Binary32.float _) 1 16
                 hello_world (text_bounds 60) TEXT_ALIGN_LEFT)
    = Some [72; 101; 108; 108; 46; 46; 46; 46].
Proof.
  repeat split; vm_compute; reflexivity.
Qed.

(* ================================================================== *)
(** * More properties *)
(* ================================================================== *)

(** ** UTF-8: encoding, then decoding *)

(** The tag bits of a UTF-8 byte are added to a payload that leaves
    them free. *)
Lemma lor_tag (x : Z) :
  0 <= x < 64 ->
  Z.lor x 0x80 = x + 0x80 /\
  (x < 32 -> Z.lor x 0xc0 = x + 0xc0) /\
  (x < 16 -> Z.lor x 0xe0 = x + 0xe0) /\
  (x < 8 -> Z.lor x 0xf0 = x + 0xf0).
Proof.
  intros Hx.
  pose (P := fun x =>
    (if x <? 64 then Z.lor x 0x80 =? x + 0x80 else true) &&
    (if x <? 32 then Z.lor x 0xc0 =? x + 0xc0 else true) &&
    (if x <? 16 then Z.lor x 0xe0 =? x + 0xe0 else true) &&
    (if x <? 8 then Z.lor x 0xf0 =? x + 0xf0 else true)).
  assert (HP : P x = true).
  { apply byte_cases; [vm_compute; reflexivity|unfold is_byte; lia]. }
  unfold P in HP. rewrite !andb_true_iff in HP.
  destruct HP as [[[H1 H2] H3] H4].
  repeat split; try intros Hb.
  - destruct (Z.ltb_spec x 64); [apply Z.eqb_eq; exact H1|lia].
  - destruct (Z.ltb_spec x 32); [apply Z.eqb_eq; exact H2|lia].
  - destruct (Z.ltb_spec x 16); [apply Z.eqb_eq; exact H3|lia].
  - destruct (Z.ltb_spec x 8); [apply Z.eqb_eq; exact H4|lia].
Qed.

Lemma lor_0x80 (x : Z) : 0 <= x < 64 -> Z.lor x 0x80 = x + 0x80.
Proof. intros Hx. apply lor_tag. exact Hx. Qed.

Lemma lor_0xc0 (x : Z) : 0 <= x < 32 -> Z.lor x 0xc0 = x + 0xc0.
Proof. intros Hx. apply lor_tag; lia. Qed.

Lemma lor_0xe0 (x : Z) : 0 <= x < 16 -> Z.lor x 0xe0 = x + 0xe0.
Proof. intros Hx. apply lor_tag; lia. Qed.

Lemma lor_0xf0 (x : Z) : 0 <= x < 8 -> Z.lor x 0xf0 = x + 0xf0.
Proof. intros Hx. apply lor_tag; lia. Qed.

Lemma land_low_bits (x : Z) :
  Z.land x 0x3f = x mod 64 /\ Z.land x 0x1f = x mod 32 /\
  Z.land x 0x0f = x mod 16 /\ Z.land x 0x07 = x mod 8.
Proof.
  change 0x3f with (Z.ones 6). change 0x1f with (Z.ones 5).
  change 0x0f with (Z.ones 4). change 0x07 with (Z.ones 3).
  rewrite !Z.land_ones by lia. repeat split; reflexivity.
Qed.

Lemma shiftr_6_12_18 (x : Z) :
  Z.shiftr x 6 = x / 64 /\ Z.shiftr x 12 = x / 4096 /\
  Z.shiftr x 18 = x / 262144.
Proof.
  rewrite !Z.shiftr_div_pow2 by lia. repeat split; reflexivity.
Qed.

Ltac div_lia := Z.div_mod_to_equations; lia.

Ltac utf8_bytes cp :=
  rewrite ?(proj1 (shiftr_6_12_18 cp)), ?(proj1 (proj2 (shiftr_6_12_18 cp))),
          ?(proj2 (proj2 (shiftr_6_12_18 cp)));
  repeat match goal with
         | |- context [Z.land ?x 0x3f] =>
             rewrite (proj1 (land_low_bits x))
         | |- context [Z.land ?x 0x1f] =>
             rewrite (proj1 (proj2 (land_low_bits x)))
         | |- context [Z.land ?x 0x0f] =>
             rewrite (proj1 (proj2 (proj2 (land_low_bits x))))
         | |- context [Z.land ?x 0x07] =>
             rewrite (proj2 (proj2 (proj2 (land_low_bits x))))
         end.

(** X1.  Encoding a codepoint of the Unicode range and decoding the
    buffer gives the codepoint back, with the size the encoder
    reported, whatever the buffer held before and whether [char] is
    signed or not. *)
Theorem utf8_encode_decode
    (char_signed : bool) (utf8 : list Z) (codepoint : Z) :
  length utf8 = 6%nat -> Forall is_byte utf8 ->
  0 <= codepoint <= 0x10ffff ->
  GetCodepointNext char_signed (CodepointToUTF8 utf8 codepoint).1
    = (codepoint, (CodepointToUTF8 utf8 codepoint).2) /\
  1 <= (CodepointToUTF8 utf8 codepoint).2 <= 4.
Proof.
  intros Hlen Hbytes Hcp.
  destruct utf8 as [|u0 [|u1 [|u2 [|u3 [|u4 [|u5 [|]]]]]]]; try discriminate.
  repeat match goal with
         | H : Forall is_byte (_ :: _) |- _ =>
             apply Forall_cons_1 in H; destruct H as [? H]
         end.
  assert (Hchar : forall x, 0 <= x < 256 -> to_char x = x)
    by (intros x Hx; unfold to_char; apply Z.mod_small; exact Hx).
  unfold CodepointToUTF8.
  destruct (Z.leb_spec codepoint 0x7f) as [R1|R1];
    [|destruct (Z.leb_spec codepoint 0x7ff) as [R2|R2];
      [|destruct (Z.leb_spec codepoint 0xffff) as [R3|R3];
        [|destruct (Z.leb_spec codepoint 0x10ffff) as [R4|R4]; [|lia]]]];
    cbn [fst snd list_insert insert]; (split; [|lia]).
  - rewrite Hchar by div_lia. apply GetCodepointNext_ascii.
    + lia.
    + repeat (apply Forall_cons_2; [assumption|]). apply Forall_nil_2.
  - utf8_bytes codepoint.
    rewrite (lor_0x80 (codepoint mod 64)) by div_lia.
    rewrite (lor_0xc0 (codepoint / 64 mod 32)) by div_lia.
    rewrite !Hchar by div_lia.
    rewrite GetCodepointNext_spec
      by (repeat (apply Forall_cons_2; [unfold is_byte; div_lia|]);
          repeat (apply Forall_cons_2; [assumption|]); apply Forall_nil_2).
    unfold well_formed_at, encoded_value, char_at, lead_length, is_cont.
    cbn [nth].
    repeat match goal with
           | |- context [?a <? ?b] => destruct (Z.ltb_spec a b); try div_lia
           | |- context [?a <=? ?b] => destruct (Z.leb_spec a b); try div_lia
           end.
    cbn [andb]. f_equal. div_lia.
  - utf8_bytes codepoint.
    rewrite (lor_0x80 (codepoint mod 64)) by div_lia.
    rewrite (lor_0x80 (codepoint / 64 mod 64)) by div_lia.
    rewrite (lor_0xe0 (codepoint / 4096 mod 16)) by div_lia.
    rewrite !Hchar by div_lia.
    rewrite GetCodepointNext_spec
      by (repeat (apply Forall_cons_2; [unfold is_byte; div_lia|]);
          repeat (apply Forall_cons_2; [assumption|]); apply Forall_nil_2).
    unfold well_formed_at, encoded_value, char_at, lead_length, is_cont.
    cbn [nth].
    repeat match goal with
           | |- context [?a <? ?b] => destruct (Z.ltb_spec a b); try div_lia
           | |- context [?a <=? ?b] => destruct (Z.leb_spec a b); try div_lia
           end.
    cbn [andb]. f_equal. div_lia.
  - utf8_bytes codepoint.
    rewrite (lor_0x80 (codepoint mod 64)) by div_lia.
    rewrite (lor_0x80 (codepoint / 64 mod 64)) by div_lia.
    rewrite (lor_0x80 (codepoint / 4096 mod 64)) by div_lia.
    rewrite (lor_0xf0 (codepoint / 262144 mod 8)) by div_lia.
    rewrite !Hchar by div_lia.
    rewrite GetCodepointNext_spec
      by (repeat (apply Forall_cons_2; [unfold is_byte; div_lia|]);
          repeat (apply Forall_cons_2; [assumption|]); apply Forall_nil_2).
    unfold well_formed_at, encoded_value, char_at, lead_length, is_cont.
    cbn [nth].
    repeat match goal with
           | |- context [?a <? ?b] => destruct (Z.ltb_spec a b); try div_lia
           | |- context [?a <=? ?b] => destruct (Z.leb_spec a b); try div_lia
           end.
    cbn [andb]. f_equal. div_lia.
Qed.

(** X1, instance: the euro sign, U+20AC, on a cleared buffer. *)
Lemma utf8_encode_decode_witness :
  GetCodepointNext true (CodepointToUTF8 [0; 0; 0; 0; 0; 0] 0x20AC).1
    = (0x20AC, 3).
Proof.
  refine (proj1 (utf8_encode_decode true [0; 0; 0; 0; 0; 0] 0x20AC _ _ _)).
  - reflexivity.
  - repeat (apply Forall_cons_2; [unfold is_byte; lia|]). apply Forall_nil_2.
  - lia.
Defined.

(** ** Lines of a text *)

Lemma newlines_app (pre post : list Z) :
  newlines (pre ++ post) = (newlines pre + newlines post)%nat.
Proof.
  unfold newlines. rewrite List.filter_app, length_app. reflexivity.
Qed.

Lemma more_text_lines_spec (text : list Z) :
  forall count : nat,
    (count <= RAYGUI_MAX_TEXT_LINES)%nat ->
    length (more_text_lines text count)
      = Nat.min (RAYGUI_MAX_TEXT_LINES - count) (newlines text) /\
    forall (k : nat) (line : list Z),
      more_text_lines text count !! k = Some line ->
      exists pre, text = pre ++ ch_nl :: line /\ newlines pre = k.
Proof.
  induction text as [|b rest IH]; intros count Hcount;
    cbn [more_text_lines].
  - split; [unfold newlines; cbn; lia|]. intros k line Hk. discriminate Hk.
  - destruct (Nat.ltb_spec count RAYGUI_MAX_TEXT_LINES) as [Hlt|Hge].
    + destruct (Z.eqb_spec b ch_nl) as [->|Hb].
      * destruct (IH (S count)) as [Hlen Hlines]; [lia|].
        split.
        -- cbn [length]. rewrite Hlen. unfold newlines.
           cbn [List.filter]. rewrite Z.eqb_refl. cbn [length].
           fold (newlines rest). lia.
        -- intros [|k] line Hk.
           ++ injection Hk as <-. exists []. split; reflexivity.
           ++ destruct (Hlines k line Hk) as (pre & -> & Hpre).
              exists (ch_nl :: pre). split; [reflexivity|].
              unfold newlines in *. cbn [List.filter].
              rewrite Z.eqb_refl. cbn [length]. lia.
      * destruct (IH count) as [Hlen Hlines]; [lia|].
        assert (Hnl : forall l, newlines (b :: l) = newlines l).
        { intros l. unfold newlines. cbn [List.filter].
          destruct (Z.eqb_spec b ch_nl); [contradiction|reflexivity]. }
        split; [rewrite Hlen, Hnl; reflexivity|].
        intros k line Hk.
        destruct (Hlines k line Hk) as (pre & -> & Hpre).
        exists (b :: pre). split; [reflexivity|]. rewrite Hnl. exact Hpre.
    + split; [cbn [length]; lia|]. intros k line Hk. discriminate Hk.
Qed.

(** X2.  [GetTextLines] returns one line more than the text has
    newlines, and never more than the 128 pointers its static array
    holds; the first line is the text itself and line [k + 1] starts
    right after the newline that follows [k] others.  Lines are not cut
    at their end: each one runs to the end of the text. *)
Theorem GetTextLines_count (text : list Z) :
  length (GetTextLines text)
    = Nat.min RAYGUI_MAX_TEXT_LINES (1 + newlines text) /\
  GetTextLines text !! 0%nat = Some text /\
  forall (k : nat) (line : list Z),
    GetTextLines text !! S k = Some line ->
    exists pre, text = pre ++ ch_nl :: line /\ newlines pre = k.
Proof.
  unfold GetTextLines.
  destruct (more_text_lines_spec text 1) as [Hlen Hlines];
    [unfold RAYGUI_MAX_TEXT_LINES; lia|].
  split; [cbn [length]; rewrite Hlen; unfold RAYGUI_MAX_TEXT_LINES; lia|].
  split; [reflexivity|]. intros k line Hk. apply Hlines. exact Hk.
Qed.

(** ** Colours as integers *)

Lemma land_0xFF (x : Z) : Z.land x 0xFF = x mod 256.
Proof.
  change 0xFF with (Z.ones 8). rewrite Z.land_ones by lia. reflexivity.
Qed.

Lemma ColorToInt_value (c : Color) :
  is_color c ->
  ColorToInt c
    = to_signed (col_r c * 2 ^ 24 + col_g c * 2 ^ 16 + col_b c * 2 ^ 8
                 + col_a c).
Proof.
  intros (Hr & Hg & Hb & Ha). unfold is_byte in *. unfold ColorToInt.
  rewrite !Z.shiftl_mul_pow2 by lia.
  rewrite (lor_high_low (col_r c) (col_g c * 2 ^ 16) 24 (2 ^ 24))
    by (try reflexivity; lia).
  assert (E16 : col_r c * 2 ^ 24 + col_g c * 2 ^ 16
                = (col_r c * 2 ^ 8 + col_g c) * 2 ^ 16) by lia.
  rewrite E16.
  rewrite (lor_high_low _ (col_b c * 2 ^ 8) 16 (2 ^ 16))
    by (try reflexivity; lia).
  assert (E8 : (col_r c * 2 ^ 8 + col_g c) * 2 ^ 16 + col_b c * 2 ^ 8
               = ((col_r c * 2 ^ 8 + col_g c) * 2 ^ 8 + col_b c) * 2 ^ 8)
    by lia.
  rewrite E8.
  rewrite (lor_high_low _ (col_a c) 8 (2 ^ 8)) by (try reflexivity; lia).
  unfold to_unsigned. rewrite Z.mod_small by lia. f_equal; lia.
Qed.

(** X3.  Colours and [int]s convert back and forth without loss:
    [GetColor] undoes [ColorToInt] on every colour, and [ColorToInt]
    undoes [GetColor] on every [int], the negative ones included. *)
Theorem color_int_round_trip :
  (forall c : Color, is_color c -> GetColor (ColorToInt c) = c) /\
  (forall h : Z, is_int h ->
     is_color (GetColor h) /\ ColorToInt (GetColor h) = h).
Proof.
  split.
  - intros c Hc. rewrite (ColorToInt_value c Hc).
    destruct c as [r g b a]. destruct Hc as (Hr & Hg & Hb & Ha).
    unfold is_byte in *. cbn [col_r col_g col_b col_a] in *.
    unfold GetColor, to_signed, to_char.
    rewrite !land_0xFF, !Z.shiftr_div_pow2 by lia.
    destruct (Z.ltb_spec (r * 2 ^ 24 + g * 2 ^ 16 + b * 2 ^ 8 + a) (2 ^ 31));
      f_equal; div_lia.
  - intros h Hh. unfold is_int in Hh.
    assert (Hc : is_color (GetColor h)).
    { unfold is_color, is_byte, GetColor, to_char.
      cbn [col_r col_g col_b col_a]. rewrite !land_0xFF.
      repeat split; div_lia. }
    split; [exact Hc|]. rewrite (ColorToInt_value _ Hc).
    unfold GetColor, to_signed, to_char. cbn [col_r col_g col_b col_a].
    rewrite !land_0xFF, !Z.shiftr_div_pow2 by lia.
    match goal with
    | |- context [?a <? ?b] => destruct (Z.ltb_spec a b)
    end; div_lia.
Qed.

(** X3, instance: the default border colour, [0x838383ff], which as an
    [int] is negative. *)
Lemma color_int_round_trip_witness :
  is_color (GetColor (to_signed 0x838383ff)) /\
  ColorToInt (GetColor (to_signed 0x838383ff)) = to_signed 0x838383ff.
Proof.
  apply (proj2 color_int_round_trip (to_signed 0x838383ff)).
  unfold is_int. vm_compute. split; [discriminate|reflexivity].
Defined.

(** ** Style table: what a write leaves alone, and what a reload resets *)

Module StyleMore.
Import Style.

Lemma overwrites_writes_slot (c0 p0 v0 c p : Z) :
  StyleFacts.overwrites c0 p0 c p = writes_slot c p (c0, p0, v0).
Proof.
  unfold StyleFacts.overwrites, writes_slot.
  rewrite (Z.eqb_sym p p0), (Z.eqb_sym c c0).
  destruct (Z.eqb_spec p0 p) as [->|]; reflexivity.
Qed.

Lemma last_write_unwritten (c p : Z) (l : list (Z * Z * Z)) :
  forall v0, existsb (writes_slot c p) l = false -> last_write c p v0 l = v0.
Proof.
  induction l as [|call l IH]; intros v0 Hl; cbn [last_write]; [reflexivity|].
  cbn [existsb] in Hl. apply orb_false_iff in Hl. destruct Hl as [-> Hl].
  apply IH. exact Hl.
Qed.

Lemma last_write_written (c p : Z) (l : list (Z * Z * Z)) :
  forall v0 v1,
    existsb (writes_slot c p) l = true ->
    last_write c p v0 l = last_write c p v1 l.
Proof.
  induction l as [|call l IH]; intros v0 v1 Hl; [discriminate Hl|].
  cbn [last_write]. cbn [existsb] in Hl.
  destruct (writes_slot c p call); [reflexivity|].
  apply IH. exact Hl.
Qed.

(** A run of [GuiSetStyle] bodies: a slot that some call writes holds
    the value of the last such call; every other slot is left alone. *)
Lemma set_styles_spec (l : list (Z * Z * Z)) :
  forall t, wf t ->
    Forall (fun call => control_id call.1.1 /\ property_id call.1.2) l ->
    exists t',
      set_styles t l = Some t' /\ wf t' /\
      guiStyleLoaded t' = guiStyleLoaded t /\
      forall c p, control_id c -> property_id p ->
        array_get (guiStyle t') (slot c p) =
        if existsb (writes_slot c p) l
        then Some (to_unsigned (last_write c p 0 l))
        else array_get (guiStyle t) (slot c p).
Proof.
  induction l as [|[[c0 p0] v0] l IH]; intros t Hwf Hall.
  - exists t. repeat split; try assumption; reflexivity.
  - apply Forall_cons_1 in Hall. destruct Hall as [[Hc0 Hp0] Hall].
    cbn [fst snd] in Hc0, Hp0.
    destruct (StyleFacts.set_style_spec t c0 p0 v0 Hwf Hc0 Hp0)
      as (t1 & E1 & Hwf1 & Hl1 & Hget1).
    destruct (IH t1 Hwf1 Hall) as (t' & E' & Hwf' & Hl' & Hget').
    exists t'. cbn [set_styles]. rewrite E1, StyleFacts.bind_Some.
    split; [exact E'|]. split; [exact Hwf'|]. split; [congruence|].
    intros c p Hc Hp. rewrite (Hget' c p Hc Hp), (Hget1 c p Hc Hp).
    rewrite (overwrites_writes_slot c0 p0 v0 c p).
    cbn [existsb last_write].
    destruct (existsb (writes_slot c p) l) eqn:El.
    + rewrite orb_true_r. do 2 f_equal.
      apply last_write_written. exact El.
    + rewrite orb_false_r. rewrite (last_write_unwritten c p l _ El).
      cbn [snd]. destruct (writes_slot c p (c0, p0, v0)); reflexivity.
Qed.

(** Every base property but the unused sixteenth is written, for every
    control, by some call of [GuiLoadStyleDefault]. *)
Lemma default_style_covers_base (c p : Z) :
  control_id c -> 0 <= p <= 14 ->
  existsb (writes_slot c p) default_style = true.
Proof.
  intros Hc Hp.
  assert (Hall : forallb (fun c => forallb (fun p =>
                    existsb (writes_slot c p) default_style)
                    (map Z.of_nat (seq 0 15)))
                    (map Z.of_nat (seq 0 16)) = true)
    by (vm_compute; reflexivity).
  rewrite forallb_forall in Hall.
  assert (Hcin : In c (map Z.of_nat (seq 0 16))).
  { apply in_map_iff. exists (Z.to_nat c).
    unfold control_id, RAYGUI_MAX_CONTROLS in Hc.
    split; [lia|apply in_seq; lia]. }
  specialize (Hall c Hcin). rewrite forallb_forall in Hall.
  apply Hall. apply in_map_iff. exists (Z.to_nat p).
  split; [lia|apply in_seq; lia].
Qed.

End StyleMore.

(** X4.  An extended property belongs to one control: writing it on
    DEFAULT sets DEFAULT's own slot and leaves the slot of every other
    control as it was, where a base property would have been copied to
    all of them. *)
Theorem extended_property_is_per_control (t : Style.table) (c p v : Z) :
  Style.wf t -> 1 <= c < RAYGUI_MAX_CONTROLS ->
  RAYGUI_MAX_PROPS_BASE <= p
    < RAYGUI_MAX_PROPS_BASE + RAYGUI_MAX_PROPS_EXTENDED ->
  is_int v ->
  Style.get_value (Style.run_sets t [(DEFAULT, p, v)]) c p
    = Style.get_value (Some t) c p /\
  Style.get_value (Style.run_sets t [(DEFAULT, p, v)]) DEFAULT p = Some v.
Proof.
  intros Hwf Hc Hp Hv.
  assert (Hc' : Style.control_id c) by (unfold Style.control_id; lia).
  assert (Hd : Style.control_id DEFAULT)
    by (unfold Style.control_id, DEFAULT, RAYGUI_MAX_CONTROLS; lia).
  assert (Hp' : Style.property_id p)
    by (unfold Style.property_id, RAYGUI_MAX_PROPS_BASE in *; lia).
  destruct (StyleFacts.GuiSetStyle_spec t DEFAULT p v Hwf Hd Hp')
    as (t0 & t1 & E0 & E1 & Hwf1 & Hl1 & Hget).
  unfold Style.run_sets. cbn [foldl].
  rewrite StyleFacts.bind_Some, E1.
  unfold Style.get_value. rewrite !StyleFacts.bind_Some.
  unfold Style.GuiGetStyle at 1 3. unfold Style.lazy_load at 1 2.
  rewrite Hl1, !StyleFacts.bind_Some.
  rewrite (Hget c p Hc' Hp'), (Hget DEFAULT p Hd Hp').
  unfold StyleFacts.overwrites, DEFAULT. rewrite !Z.eqb_refl.
  destruct (Z.eqb_spec c 0) as [E|_]; [lia|].
  destruct (Z.ltb_spec p RAYGUI_MAX_PROPS_BASE) as [E|_]; [lia|].
  cbn [andb orb]. split.
  - unfold Style.GuiGetStyle. fold DEFAULT. rewrite E0, StyleFacts.bind_Some.
    destruct (Style.array_get (Style.guiStyle t0) (Style.slot c p));
      reflexivity.
  - rewrite StyleFacts.bind_Some. cbn [fmap option_fmap option_map snd].
    rewrite StyleFacts.to_signed_to_unsigned by exact Hv. reflexivity.
Qed.

(** X4, instance: the text size, written on DEFAULT, as LABEL reads it. *)
Lemma extended_property_is_per_control_witness :
  Style.get_value (Style.run_sets Style.initial [(DEFAULT, TEXT_SIZE, 20)])
                  LABEL TEXT_SIZE
    = Style.get_value (Some Style.initial) LABEL TEXT_SIZE.
Proof.
  refine (proj1 (extended_property_is_per_control Style.initial LABEL
                   TEXT_SIZE 20 _ _ _ _)).
  - reflexivity.
  - unfold LABEL, RAYGUI_MAX_CONTROLS. lia.
  - unfold TEXT_SIZE, RAYGUI_MAX_PROPS_BASE, RAYGUI_MAX_PROPS_EXTENDED. lia.
  - unfold is_int. lia.
Defined.

(** X5.  [GuiLoadStyleDefault] always returns, on any table.  A slot
    that one of its calls writes, which is the case of the first fifteen
    base properties of every control, holds afterwards what it holds
    after a load on the cleared table; a slot that none of its calls
    writes keeps its value: a reload does not undo custom values of
    extended properties it does not list. *)
Theorem GuiLoadStyleDefault_resets (t : Style.table) :
  Style.wf t ->
  exists t' d,
    Style.GuiLoadStyleDefault t = Some t' /\
    Style.GuiLoadStyleDefault Style.initial = Some d /\
    Style.wf t' /\ Style.guiStyleLoaded t' = true /\
    forall c p, Style.control_id c -> Style.property_id p ->
      (0 <= p <= 14 ->
         existsb (Style.writes_slot c p) Style.default_style = true) /\
      Style.array_get (Style.guiStyle t') (Style.slot c p) =
      if existsb (Style.writes_slot c p) Style.default_style
      then Style.array_get (Style.guiStyle d) (Style.slot c p)
      else Style.array_get (Style.guiStyle t) (Style.slot c p).
Proof.
  intros Hwf. unfold Style.GuiLoadStyleDefault.
  destruct (StyleMore.set_styles_spec Style.default_style
              (Style.mkTable (Style.guiStyle t) true))
    as (t' & E' & Hwf' & Hl' & Hget');
    [exact Hwf|exact StyleFacts.default_style_ids|].
  destruct (StyleMore.set_styles_spec Style.default_style
              (Style.mkTable (Style.guiStyle Style.initial) true))
    as (d & Ed & Hwfd & Hld & Hgetd);
    [reflexivity|exact StyleFacts.default_style_ids|].
  exists t', d. split; [exact E'|]. split; [exact Ed|].
  split; [exact Hwf'|]. split; [exact Hl'|].
  intros c p Hc Hp. split.
  - intros Hbase. apply StyleMore.default_style_covers_base; assumption.
  - rewrite (Hget' c p Hc Hp), (Hgetd c p Hc Hp).
    destruct (existsb (Style.writes_slot c p) Style.default_style);
      reflexivity.
Qed.

(** X5, instance: on the cleared table whose slot of the read-only flag
    of TEXTBOX, an extended property that the defaults do not list, was
    set to 1, a load keeps the 1 and sets the border width of BUTTON. *)
Lemma GuiLoadStyleDefault_resets_witness :
  exists t',
    Style.GuiLoadStyleDefault custom_table = Some t' /\
    Style.get_value (Some t') TEXTBOX TEXT_READONLY = Some 1 /\
    Style.get_value (Some t') BUTTON BORDER_WIDTH = Some 2.
Proof.
  destruct (GuiLoadStyleDefault_resets custom_table)
    as (t' & d & E' & Ed & Hwf' & Hl' & Hget); [reflexivity|].
  exists t'. split; [exact E'|].
  vm_compute in E'. injection E' as <-. split; vm_compute; reflexivity.
Defined.

(** ** Splitting the text of a control *)

Module SplitFacts.

(** What the loop leaves: the text with its separators turned into
    terminators, and the offsets that follow each separator. *)
Definition mask (delimiter : Z) (text : list Z) : list Z :=
  map (fun b => if separator delimiter b then 0 else b) text.

Fixpoint offsets_from (delimiter : Z) (i : nat) (text : list Z) : list nat :=
  match text with
  | [] => []
  | b :: rest =>
      if separator delimiter b
      then S i :: offsets_from delimiter (S i) rest
      else offsets_from delimiter (S i) rest
  end.

Lemma length_pieces (delimiter : Z) (text : list Z) :
  forall i,
    length (pieces delimiter text)
    = S (length (offsets_from delimiter i text)).
Proof.
  induction text as [|b rest IH]; intros i; cbn [pieces offsets_from];
    [reflexivity|].
  destruct (separator delimiter b).
  - cbn [length]. rewrite (IH (S i)). reflexivity.
  - specialize (IH (S i)).
    destruct (pieces delimiter rest) as [|piece more];
      [discriminate IH|exact IH].
Qed.

Lemma length_piece_rows (delimiter : Z) (text : list Z) :
  forall i row,
    length (piece_rows delimiter row text)
    = length (offsets_from delimiter i text).
Proof.
  induction text as [|b rest IH]; intros i row;
    cbn [piece_rows offsets_from]; [reflexivity|].
  destruct (separator delimiter b); [cbn [length]; f_equal|]; apply IH.
Qed.

Lemma write_at_app {A : Type} (done : list A) (x v : A) (rest : list A) :
  write_at (done ++ x :: rest) (length done) v = Some (done ++ v :: rest).
Proof.
  unfold write_at. rewrite length_app. cbn [length].
  destruct (Nat.ltb_spec (length done) (length done + S (length rest)));
    [|lia].
  rewrite insert_app_r_alt by lia. rewrite Nat.sub_diag. reflexivity.
Qed.

Lemma write_at_app_at {A : Type} (done : list A) (x v : A) (rest : list A)
    (i : nat) :
  length done = i ->
  write_at (done ++ x :: rest) i v = Some (done ++ v :: rest).
Proof.
  intros <-. apply write_at_app.
Qed.

Lemma write_at_inside {A : Type} (a : list A) (i : nat) (v : A) :
  (i < length a)%nat -> write_at a i v = Some (<[i := v]> a).
Proof.
  intros Hi. unfold write_at.
  destruct (Nat.ltb_spec i (length a)); [reflexivity|lia].
Qed.

Lemma write_at_end {A : Type} (a : list A) (v : A) :
  write_at a (length a) v = None.
Proof.
  unfold write_at. rewrite Nat.ltb_irrefl. reflexivity.
Qed.

Lemma char_at_app (pre : list Z) (b : Z) (post : list Z) :
  char_at (pre ++ b :: post) (length pre) = b.
Proof.
  unfold char_at. rewrite app_nth2 by lia. rewrite Nat.sub_diag. reflexivity.
Qed.

Lemma char_at_end (text : list Z) : char_at text (length text) = 0.
Proof.
  unfold char_at. apply nth_overflow. lia.
Qed.

(** The rows of the caller, while they fit its array. *)
Definition rows_after (rows : option (list Z * list Z)) (new : list Z)
  : option (list Z) :=
  match rows with
  | None => None
  | Some (written, free) => Some (written ++ new ++ drop (length new) free)
  end.

Definition rows_fit (rows : option (list Z * list Z)) (count : nat)
    (row : Z) (n : nat) : Prop :=
  match rows with
  | None => True
  | Some (written, free) =>
      length written = count /\ last written = Some row /\
      (n <= length free)%nat
  end.

Lemma write_row_fits (written free : list Z) (count : nat) (row : Z)
    (newline : bool) (n : nat) :
  rows_fit (Some (written, free)) count row (S n) ->
  exists x free',
    free = x :: free' /\
    write_row (Some (written ++ free)) count newline
      = Some (Some ((written ++ [if newline then row + 1 else row]) ++ free')).
Proof.
  intros (Hlen & Hlast & Hfree).
  destruct free as [|x free']; [cbn [length] in Hfree; lia|].
  exists x, free'. split; [reflexivity|]. unfold write_row.
  assert (Hprev : (written ++ x :: free') !! (count - 1)%nat = Some row).
  { rewrite last_lookup in Hlast. rewrite Hlen in Hlast.
    replace (Init.Nat.pred count) with (count - 1)%nat in Hlast by lia.
    apply lookup_app_l_Some. exact Hlast. }
  rewrite Hprev, StyleFacts.bind_Some. rewrite <- Hlen.
  rewrite write_at_app, StyleFacts.bind_Some.
  rewrite <- app_assoc. reflexivity.
Qed.

(** The loop, from any turn: it ends at the terminator of the text,
    having cut at every separator it met, provided the pointers and the
    rows it has to write fit their arrays. *)
Lemma GuiTextSplit_from_spec (delimiter : Z) (post : list Z) :
  forall (turns i count : nat) (pre done : list Z) (zeros : nat)
         (offs stale : list nat) (rows : option (list Z * list Z))
         (row : Z),
    Forall text_byte post ->
    length pre = i -> length done = i -> length offs = count ->
    (length post < turns)%nat -> (length post < zeros)%nat ->
    (1 <= count)%nat ->
    (count + length stale = RAYGUI_TEXTSPLIT_MAX_ITEMS)%nat ->
    (length (offsets_from delimiter i post) <= length stale)%nat ->
    rows_fit rows count row (length (offsets_from delimiter i post)) ->
    GuiTextSplit_from turns (pre ++ post) delimiter i
      (mkSplit (done ++ replicate zeros 0) (offs ++ stale)
               (rows_after rows []) count)
    = Some (mkSplit
              (done ++ mask delimiter post
                    ++ replicate (zeros - length post) 0)
              (offs ++ offsets_from delimiter i post
                    ++ drop (length (offsets_from delimiter i post)) stale)
              (rows_after rows (piece_rows delimiter row post))
              (count + length (offsets_from delimiter i post))).
Proof.
  induction post as [|b post IH];
    intros turns i count pre done zeros offs stale rows row Hbytes Hpre
           Hdone Hcount Hturns Hzeros Hone Hsize Hstale Hrows.
  - (* the terminator *)
    destruct turns as [|turns]; [cbn [length] in Hturns; lia|].
    destruct zeros as [|zeros]; [cbn [length] in Hzeros; lia|].
    cbn [GuiTextSplit_from split_buffer split_result split_rows split_count].
    rewrite app_nil_r. subst i. rewrite char_at_end.
    cbn [replicate].
    rewrite (write_at_app_at done 0 0 _ _ Hdone), StyleFacts.bind_Some.
    cbn [Z.eqb mask map offsets_from piece_rows length app drop].
    rewrite Nat.add_0_r, Nat.sub_0_r. reflexivity.
  - apply Forall_cons_1 in Hbytes. destruct Hbytes as [Hb Hbytes].
    unfold text_byte in Hb. cbn [length] in Hturns, Hzeros.
    destruct turns as [|turns]; [lia|].
    destruct zeros as [|zeros]; [lia|].
    cbn [GuiTextSplit_from split_buffer split_result split_rows split_count].
    subst i. rewrite char_at_app.
    cbn [replicate].
    rewrite (write_at_app_at done 0 b _ _ Hdone), StyleFacts.bind_Some.
    destruct (Z.eqb_spec b 0) as [E|_]; [lia|].
    cbn [offsets_from mask map piece_rows] in *.
    fold (separator delimiter b) in *.
    assert (Hpre' : length (pre ++ [b]) = S (length pre))
      by (rewrite length_app; cbn [length]; lia).
    assert (Htext : pre ++ b :: post = (pre ++ [b]) ++ post)
      by (rewrite <- app_assoc; reflexivity).
    rewrite Htext.
    destruct (separator delimiter b) eqn:Esep.
    + (* a separator: one more pointer *)
      cbn [length] in Hstale, Hrows.
      destruct stale as [|x stale]; [cbn [length] in Hstale; lia|].
      rewrite (write_at_app_at offs x _ _ _ Hcount), StyleFacts.bind_Some.
      assert (Hrow : exists rows',
                write_row (rows_after rows []) count (b =? ch_nl)
                  = Some (rows_after rows' []) /\
                rows_fit rows' (S count)
                  (if b =? ch_nl then row + 1 else row)
                  (length (offsets_from delimiter (S (length pre)) post)) /\
                forall new,
                  rows_after rows' new
                  = rows_after rows
                      ((if b =? ch_nl then row + 1 else row) :: new)).
      { destruct rows as [[written free]|].
        - destruct (write_row_fits written free count row
                      (b =? ch_nl) _ Hrows) as (y & free' & -> & Hw).
          exists (Some (written ++ [if b =? ch_nl then row + 1 else row],
                        free')).
          destruct Hrows as (Hlen & Hlast & Hfree).
          unfold rows_after. cbn [app drop length].
          split; [exact Hw|]. split.
          + cbn [rows_fit]. rewrite !length_app. cbn [length].
            split; [lia|]. split; [apply last_snoc|].
            cbn [length] in Hfree. lia.
          + intros new. rewrite <- app_assoc. reflexivity.
        - exists None. repeat split; reflexivity. }
      destruct Hrow as (rows' & -> & Hrows' & Hafter).
      rewrite StyleFacts.bind_Some.
      replace (length pre + 1)%nat with (S (length pre)) by lia.
      rewrite (write_at_app_at done b 0 _ _ Hdone), StyleFacts.bind_Some.
      cbn [length] in Hsize.
      destruct (Nat.ltb_spec RAYGUI_TEXTSPLIT_MAX_ITEMS (S count));
        [unfold RAYGUI_TEXTSPLIT_MAX_ITEMS in *; lia|].
      replace (done ++ 0 :: replicate zeros 0)
        with ((done ++ [0]) ++ replicate zeros 0)
        by (rewrite <- app_assoc; reflexivity).
      replace (offs ++ S (length pre) :: stale)
        with ((offs ++ [S (length pre)]) ++ stale)
        by (rewrite <- app_assoc; reflexivity).
      rewrite (IH turns (S (length pre)) (S count) (pre ++ [b])
                  (done ++ [0]) zeros (offs ++ [S (length pre)]) stale rows'
                  (if b =? ch_nl then row + 1 else row));
        try assumption;
        try (rewrite ?length_app; cbn [length] in *;
             unfold RAYGUI_TEXTSPLIT_MAX_ITEMS in *; lia).
      rewrite Hafter. cbn [length drop]. rewrite <- !app_assoc.
      cbn [app]. rewrite Nat.add_succ_r. reflexivity.
    + (* any other byte *)
      replace (done ++ b :: replicate zeros 0)
        with ((done ++ [b]) ++ replicate zeros 0)
        by (rewrite <- app_assoc; reflexivity).
      rewrite (IH turns (S (length pre)) count (pre ++ [b]) (done ++ [b])
                  zeros offs
                  stale rows row);
        try assumption;
        try (rewrite ?length_app; cbn [length]; lia).
      rewrite <- !app_assoc. reflexivity.
Qed.

(** The string at an offset of the masked text. *)
Lemma cstring_at_masked (delimiter : Z) (text : list Z) (zeros : nat) :
  Forall text_byte text ->
  cstring_at (mask delimiter text ++ replicate (S zeros) 0)
    = head (pieces delimiter text).
Proof.
  induction 1 as [|b rest Hb _ IH]; [reflexivity|].
  unfold text_byte in Hb. cbn [mask map app pieces cstring_at].
  fold (mask delimiter rest). destruct (separator delimiter b).
  - reflexivity.
  - destruct (Z.eqb_spec b 0); [lia|]. rewrite IH.
    pose proof (length_pieces delimiter rest 0) as Hlen.
    destruct (pieces delimiter rest); [discriminate Hlen|reflexivity].
Qed.

(** Each offset points to its piece. *)
Lemma offsets_point_to_pieces (delimiter : Z) (text : list Z) :
  forall (done : list Z) (zeros k : nat) (offset : nat),
    Forall text_byte text ->
    offsets_from delimiter (length done) text !! k = Some offset ->
    cstring_at (drop offset
                  (done ++ mask delimiter text ++ replicate (S zeros) 0))
      = pieces delimiter text !! S k.
Proof.
  induction text as [|b rest IH]; intros done zeros k offset Hbytes Hk;
    [discriminate Hk|].
  apply Forall_cons_1 in Hbytes. destruct Hbytes as [Hb Hbytes].
  cbn [offsets_from pieces mask map] in *. fold (mask delimiter rest).
  assert (Hdone : S (length done) = length (done ++ [0]))
    by (rewrite length_app; cbn [length]; lia).
  assert (Hdone' : forall x, S (length done) = length (done ++ [x]))
    by (intros x; rewrite length_app; cbn [length]; lia).
  destruct (separator delimiter b).
  - destruct k as [|k].
    + injection Hk as <-. cbn [lookup list_lookup].
      replace (done ++ (0 :: mask delimiter rest) ++ replicate (S zeros) 0)
        with ((done ++ [0]) ++ mask delimiter rest ++ replicate (S zeros) 0)
        by (rewrite <- !app_assoc; reflexivity).
      rewrite Hdone, drop_app_length.
      rewrite cstring_at_masked by exact Hbytes.
      destruct (pieces delimiter rest); reflexivity.
    + cbn [lookup list_lookup] in Hk |- *.
      replace (done ++ (0 :: mask delimiter rest) ++ replicate (S zeros) 0)
        with ((done ++ [0]) ++ mask delimiter rest ++ replicate (S zeros) 0)
        by (rewrite <- !app_assoc; reflexivity).
      rewrite Hdone in Hk. apply IH; assumption.
  - replace (done ++ (b :: mask delimiter rest) ++ replicate (S zeros) 0)
      with ((done ++ [b]) ++ mask delimiter rest ++ replicate (S zeros) 0)
      by (rewrite <- !app_assoc; reflexivity).
    rewrite (Hdone' b) in Hk.
    rewrite (IH (done ++ [b]) zeros k offset Hbytes Hk).
    pose proof (length_pieces delimiter rest 0) as Hlen.
    destruct (pieces delimiter rest); [discriminate Hlen|reflexivity].
Qed.

(** The loop runs over the pointers or the rows when the text has more
    separators ahead than cells are left. *)
Lemma GuiTextSplit_from_overrun (delimiter : Z) (post : list Z) :
  forall (turns i count : nat) (pre buffer : list Z)
         (offs stale : list nat) (rows : option (list Z)),
    Forall text_byte post ->
    length pre = i -> length offs = count ->
    (length post < turns)%nat -> (i + length post < length buffer)%nat ->
    (1 <= count)%nat ->
    (count + length stale = RAYGUI_TEXTSPLIT_MAX_ITEMS)%nat ->
    (length stale < length (offsets_from delimiter i post))%nat \/
    (exists r, rows = Some r /\ (count <= length r)%nat /\
               (length r < count + length (offsets_from delimiter i post))%nat) ->
    GuiTextSplit_from turns (pre ++ post) delimiter i
      (mkSplit buffer (offs ++ stale) rows count) = None.
Proof.
  induction post as [|b post IH];
    intros turns i count pre buffer offs stale rows Hbytes Hpre Hcount
           Hturns Hbuffer Hone Hsize Hover.
  - cbn [offsets_from length] in Hover.
    destruct Hover as [Hover|(r & _ & Hle & Hlt)]; lia.
  - apply Forall_cons_1 in Hbytes. destruct Hbytes as [Hb Hbytes].
    unfold text_byte in Hb. cbn [length] in Hturns, Hbuffer.
    destruct turns as [|turns]; [lia|].
    cbn [GuiTextSplit_from split_buffer split_result split_rows split_count].
    subst i. rewrite char_at_app.
    rewrite (write_at_inside buffer (length pre) b) by lia.
    rewrite StyleFacts.bind_Some.
    destruct (Z.eqb_spec b 0) as [E|_]; [lia|].
    cbn [offsets_from] in Hover. fold (separator delimiter b) in *.
    assert (Hpre' : length (pre ++ [b]) = S (length pre))
      by (rewrite length_app; cbn [length]; lia).
    assert (Htext : pre ++ b :: post = (pre ++ [b]) ++ post)
      by (rewrite <- app_assoc; reflexivity).
    rewrite Htext.
    destruct (separator delimiter b) eqn:Esep.
    + cbn [length] in Hover.
      destruct stale as [|x stale].
      { rewrite app_nil_r. rewrite <- Hcount.
        rewrite write_at_end. reflexivity. }
      rewrite (write_at_app_at offs x _ _ _ Hcount), StyleFacts.bind_Some.
      destruct (write_row rows count (b =? ch_nl)) as [rows'|] eqn:Erow;
        [|reflexivity].
      rewrite StyleFacts.bind_Some.
      rewrite (write_at_inside (<[length pre := b]> buffer) (length pre) 0)
        by (rewrite length_insert; lia).
      rewrite StyleFacts.bind_Some.
      cbn [length] in Hsize.
      destruct (Nat.ltb_spec RAYGUI_TEXTSPLIT_MAX_ITEMS (S count));
        [unfold RAYGUI_TEXTSPLIT_MAX_ITEMS in *; lia|].
      replace (length pre + 1)%nat with (S (length pre)) by lia.
      replace (offs ++ S (length pre) :: stale)
        with ((offs ++ [S (length pre)]) ++ stale)
        by (rewrite <- app_assoc; reflexivity).
      apply (IH turns (S (length pre)) (S count) (pre ++ [b]) _
                (offs ++ [S (length pre)]) stale rows');
        try assumption;
        try (rewrite ?length_app, ?length_insert; cbn [length];
             unfold RAYGUI_TEXTSPLIT_MAX_ITEMS in *; lia).
      destruct Hover as [Hover|(r & -> & Hle & Hlt)];
        [left; cbn [length] in Hover; lia|].
      right. unfold write_row in Erow.
      destruct (r !! (count - 1)%nat) as [prev|]; [|discriminate Erow].
      rewrite StyleFacts.bind_Some in Erow. unfold write_at in Erow.
      destruct (Nat.ltb_spec count (length r)); [|discriminate Erow].
      rewrite StyleFacts.bind_Some in Erow. injection Erow as <-.
      eexists. split; [reflexivity|]. rewrite length_insert. lia.
    + apply (IH turns (S (length pre)) count (pre ++ [b]) _ offs stale rows);
        try assumption;
        try (rewrite ?length_app, ?length_insert; cbn [length]; lia).
Qed.

End SplitFacts.

(** [GuiTextSplit] within the limits of its arrays. *)
Lemma GuiTextSplit_within_limits
    (result0 : list nat) (text : list Z) (delimiter : Z)
    (textRow : option (list Z)) :
  Forall text_byte text ->
  (length text < RAYGUI_TEXTSPLIT_MAX_TEXT_SIZE)%nat ->
  length result0 = RAYGUI_TEXTSPLIT_MAX_ITEMS ->
  (length (pieces delimiter text) <= RAYGUI_TEXTSPLIT_MAX_ITEMS)%nat ->
  (forall r, textRow = Some r ->
             (length (pieces delimiter text) <= length r)%nat) ->
  exists s,
    GuiTextSplit result0 text delimiter textRow = Some s /\
    split_count s = length (pieces delimiter text) /\
    (forall k, (k < split_count s)%nat ->
               split_item s k = pieces delimiter text !! k) /\
    (forall r, textRow = Some r ->
       exists rows,
         split_rows s = Some rows /\ length rows = length r /\
         forall k, (k < split_count s)%nat ->
           rows !! k = (0 :: piece_rows delimiter 0 text) !! k).
Proof.
  intros Hbytes Hlen Hresult Hpieces Hrows.
  rewrite (SplitFacts.length_pieces delimiter text 0) in Hpieces, Hrows.
  rewrite (SplitFacts.length_pieces delimiter text 0).
  destruct result0 as [|x stale]; [discriminate Hresult|].
  cbn [length] in Hresult.
  set (rows0 := match textRow with
                | None => None
                | Some r => Some ([0], drop 1 r)
                end).
  assert (Hfit : SplitFacts.rows_fit rows0 1 0
                   (length (SplitFacts.offsets_from delimiter 0 text))).
  { subst rows0. destruct textRow as [r|]; [|exact I].
    specialize (Hrows r eq_refl). repeat split. rewrite length_drop. lia. }
  pose proof (SplitFacts.GuiTextSplit_from_spec delimiter text
                RAYGUI_TEXTSPLIT_MAX_TEXT_SIZE 0 1 [] []
                RAYGUI_TEXTSPLIT_MAX_TEXT_SIZE [0%nat] stale rows0 0
                Hbytes eq_refl eq_refl eq_refl Hlen Hlen (le_n 1)
                ltac:(cbn [length]; lia) ltac:(lia) Hfit) as Hloop.
  cbn [app length] in Hloop.
  eexists. split.
  { unfold GuiTextSplit.
    rewrite SplitFacts.write_at_inside by (cbn [length]; lia).
    rewrite StyleFacts.bind_Some. cbn [insert list_insert].
    assert (Hstart : match textRow with
                     | None => Some None
                     | Some r => r' ← write_at r 0 0; Some (Some r')
                     end = Some (SplitFacts.rows_after rows0 [])).
    { subst rows0. destruct textRow as [r|]; [|reflexivity].
      specialize (Hrows r eq_refl).
      destruct r as [|y r]; [cbn [length] in Hrows; lia|].
      reflexivity. }
    rewrite Hstart, StyleFacts.bind_Some. exact Hloop. }
  cbn [split_count split_result split_buffer split_rows split_item].
  split; [reflexivity|]. split.
  - intros k Hk. unfold split_item.
    cbn [split_result split_buffer].
    assert (Hzeros : exists z,
              (RAYGUI_TEXTSPLIT_MAX_TEXT_SIZE - length text)%nat = S z)
      by (exists (RAYGUI_TEXTSPLIT_MAX_TEXT_SIZE - length text - 1)%nat; lia).
    destruct Hzeros as [z ->].
    destruct k as [|k].
    + cbn [lookup list_lookup]. rewrite StyleFacts.bind_Some, drop_0.
      rewrite SplitFacts.cstring_at_masked by exact Hbytes.
      destruct (pieces delimiter text); reflexivity.
    + match goal with
      | |- context [(?x :: ?l) !! S k] =>
          change ((x :: l) !! S k) with (l !! k)
      end.
      rewrite lookup_app_l by lia.
      destruct (lookup_lt_is_Some_2
                  (SplitFacts.offsets_from delimiter 0 text) k
                  ltac:(lia)) as [offset Hoffset].
      rewrite Hoffset, StyleFacts.bind_Some.
      apply (SplitFacts.offsets_point_to_pieces delimiter text [] z k offset
               Hbytes Hoffset).
  - intros r ->. subst rows0. cbn [SplitFacts.rows_after].
    specialize (Hrows r eq_refl).
    eexists. split; [reflexivity|].
    rewrite (SplitFacts.length_piece_rows delimiter text 0 0).
    split.
    + rewrite !length_app, !length_drop. cbn [length].
      rewrite (SplitFacts.length_piece_rows delimiter text 0 0). lia.
    + intros k Hk. cbn [app].
      destruct k as [|k]; [reflexivity|].
      match goal with
      | |- (?x :: ?l) !! S k = (?y :: ?m) !! S k =>
          change (l !! k = m !! k)
      end.
      apply lookup_app_l.
      rewrite (SplitFacts.length_piece_rows delimiter text 0 0). lia.
Qed.

(** X6.  On a text shorter than the buffer whose pieces fit the array of
    pointers, and the rows of the caller when there are any,
    [GuiTextSplit] returns; it counts the pieces of the text between its
    separators, the delimiter and the newline; [items[k]] is the [k]-th
    piece; and the row of a piece is the number of newlines before it. *)
Theorem GuiTextSplit_items
    (result0 : list nat) (text : list Z) (delimiter : Z)
    (textRow : option (list Z)) :
  Forall text_byte text ->
  (length text < RAYGUI_TEXTSPLIT_MAX_TEXT_SIZE)%nat ->
  length result0 = RAYGUI_TEXTSPLIT_MAX_ITEMS ->
  (length (pieces delimiter text) <= RAYGUI_TEXTSPLIT_MAX_ITEMS)%nat ->
  (forall r, textRow = Some r ->
             (length (pieces delimiter text) <= length r)%nat) ->
  exists s,
    GuiTextSplit result0 text delimiter textRow = Some s /\
    split_count s = length (pieces delimiter text) /\
    (forall k, (k < split_count s)%nat ->
               split_item s k = pieces delimiter text !! k) /\
    (forall r, textRow = Some r ->
       exists rows,
         split_rows s = Some rows /\ length rows = length r /\
         forall k, (k < split_count s)%nat ->
           rows !! k = (0 :: piece_rows delimiter 0 text) !! k).
Proof.
  exact (GuiTextSplit_within_limits result0 text delimiter textRow).
Qed.

(** X6, instance: three items on two rows. *)
Lemma GuiTextSplit_items_witness :
  exists s,
    GuiTextSplit (replicate 128 0%nat) three_items 59
                 (Some (replicate 32 0)) = Some s /\
    split_count s = 3%nat.
Proof.
  destruct (GuiTextSplit_items (replicate 128 0%nat) three_items 59
              (Some (replicate 32 0)))
    as (s & Hs & Hcount & _).
  - change three_items
      with [79; 78; 69; 59; 84; 87; 79; 10; 84; 72; 82; 69; 69].
    repeat (apply Forall_cons_2; [unfold text_byte; lia|]). apply Forall_nil_2.
  - vm_compute. lia.
  - reflexivity.
  - vm_compute. lia.
  - intros r Hr. injection Hr as <-. vm_compute. lia.
  - exists s. split; [exact Hs|]. rewrite Hcount. reflexivity.
Defined.

(** [GuiTextSplit] beyond the limits of its arrays. *)
Lemma GuiTextSplit_beyond_limits
    (result0 : list nat) (text : list Z) (delimiter : Z)
    (textRow : option (list Z)) :
  Forall text_byte text ->
  (length text < RAYGUI_TEXTSPLIT_MAX_TEXT_SIZE)%nat ->
  length result0 = RAYGUI_TEXTSPLIT_MAX_ITEMS ->
  (RAYGUI_TEXTSPLIT_MAX_ITEMS < length (pieces delimiter text))%nat \/
  (exists r, textRow = Some r /\
             (length r < length (pieces delimiter text))%nat) ->
  GuiTextSplit result0 text delimiter textRow = None.
Proof.
  intros Hbytes Hlen Hresult Hover.
  rewrite (SplitFacts.length_pieces delimiter text 0) in Hover.
  destruct result0 as [|x stale]; [discriminate Hresult|].
  cbn [length] in Hresult.
  unfold GuiTextSplit.
  rewrite SplitFacts.write_at_inside by (cbn [length]; lia).
  rewrite StyleFacts.bind_Some. cbn [insert list_insert].
  destruct (match textRow with
            | None => Some None
            | Some r => r' ← write_at r 0 0; Some (Some r')
            end) as [rows|] eqn:Erows; [|reflexivity].
  rewrite StyleFacts.bind_Some.
  apply (SplitFacts.GuiTextSplit_from_overrun delimiter text
           RAYGUI_TEXTSPLIT_MAX_TEXT_SIZE 0 1 []
           (replicate RAYGUI_TEXTSPLIT_MAX_TEXT_SIZE 0) [0%nat] stale rows);
    try assumption; try reflexivity;
    try (rewrite ?length_replicate; cbn [length];
         unfold RAYGUI_TEXTSPLIT_MAX_ITEMS in *; lia).
  destruct Hover as [Hover|(r & -> & Hover)];
    [left; unfold RAYGUI_TEXTSPLIT_MAX_ITEMS in *; lia|].
  right. unfold write_at in Erows.
  destruct (Nat.ltb_spec 0 (length r)); [|discriminate Erows].
  rewrite StyleFacts.bind_Some in Erows. injection Erows as <-.
  eexists. split; [reflexivity|]. rewrite length_insert. lia.
Qed.

(** X7.  [GuiTextSplit] runs over its arrays on longer lists: with more
    than 128 pieces it writes [result[128]], one past the static array
    of pointers (the test [counter > RAYGUI_TEXTSPLIT_MAX_ITEMS] comes one
    piece too late); and with more pieces than the row array of the
    caller has cells, it writes past that array. *)
Theorem GuiTextSplit_overruns
    (result0 : list nat) (text : list Z) (delimiter : Z)
    (textRow : option (list Z)) :
  Forall text_byte text ->
  (length text < RAYGUI_TEXTSPLIT_MAX_TEXT_SIZE)%nat ->
  length result0 = RAYGUI_TEXTSPLIT_MAX_ITEMS ->
  (RAYGUI_TEXTSPLIT_MAX_ITEMS < length (pieces delimiter text))%nat \/
  (exists r, textRow = Some r /\
             (length r < length (pieces delimiter text))%nat) ->
  GuiTextSplit result0 text delimiter textRow = None.
Proof.
  exact (GuiTextSplit_beyond_limits result0 text delimiter textRow).
Qed.

(** X7, instance: 128 semicolons, which make 129 empty items. *)
Lemma GuiTextSplit_overruns_witness :
  GuiTextSplit (replicate 128 0%nat) (replicate 128 59) 59 None = None.
Proof.
  apply GuiTextSplit_overruns.
  - apply Forall_replicate. unfold text_byte. lia.
  - vm_compute. lia.
  - reflexivity.
  - left. vm_compute. lia.
Defined.

(** ** Combo box *)

Module ComboFacts.
Import Style.

Lemma to_unsigned_range (v : Z) : 0 <= to_unsigned v < 2 ^ 32.
Proof.
  unfold to_unsigned. apply Z.mod_pos_bound. lia.
Qed.

Lemma to_unsigned_to_signed (u : Z) :
  0 <= u < 2 ^ 32 -> to_unsigned (to_signed u) = u.
Proof.
  intros Hu. unfold to_unsigned, to_signed.
  destruct (Z.ltb_spec u (2 ^ 31)).
  - apply Z.mod_small. lia.
  - replace (u - 2 ^ 32) with (u + (-1) * 2 ^ 32) by lia.
    rewrite Z.mod_add by lia. apply Z.mod_small. lia.
Qed.

Lemma array_set_cells (a a' : list Z) (i v : Z) :
  Forall (fun u => 0 <= u < 2 ^ 32) a -> 0 <= v < 2 ^ 32 ->
  array_set a i v = Some a' -> Forall (fun u => 0 <= u < 2 ^ 32) a'.
Proof.
  intros Ha Hv. unfold array_set.
  destruct ((0 <=? i) && (i <? Z.of_nat (length a))); [|discriminate].
  intros E. injection E as <-. apply Forall_insert; assumption.
Qed.

Lemma propagate_cells (n : nat) :
  forall (i : Z) (a a' : list Z) (p v : Z),
    Forall (fun u => 0 <= u < 2 ^ 32) a -> 0 <= v < 2 ^ 32 ->
    propagate n i a p v = Some a' -> Forall (fun u => 0 <= u < 2 ^ 32) a'.
Proof.
  induction n as [|n IH]; intros i a a' p v Ha Hv; cbn [propagate].
  - intros E. injection E as <-. exact Ha.
  - destruct (array_set a (slot i p) v) as [a1|] eqn:E1; [|discriminate].
    rewrite StyleFacts.bind_Some. apply IH; [|exact Hv].
    exact (array_set_cells a a1 _ v Ha Hv E1).
Qed.

Lemma set_style_cells (t t' : table) (c p v : Z) :
  cells_unsigned t -> set_style t c p v = Some t' -> cells_unsigned t'.
Proof.
  unfold cells_unsigned, set_style. intros Ht.
  destruct (array_set (guiStyle t) (slot c p) (to_unsigned v)) as [a|] eqn:Ea;
    [|discriminate].
  rewrite StyleFacts.bind_Some.
  pose proof (array_set_cells _ _ _ _ Ht (to_unsigned_range v) Ea) as Ha.
  destruct ((c =? 0) && (p <? RAYGUI_MAX_PROPS_BASE)).
  - destruct (propagate _ 1 a p (to_unsigned v)) as [a'|] eqn:Ep;
      [|discriminate].
    rewrite StyleFacts.bind_Some. intros E. injection E as <-.
    exact (propagate_cells _ _ _ _ _ _ Ha (to_unsigned_range v) Ep).
  - rewrite StyleFacts.bind_Some. intros E. injection E as <-. exact Ha.
Qed.

Lemma set_styles_cells (l : list (Z * Z * Z)) :
  forall t t', cells_unsigned t -> set_styles t l = Some t' ->
               cells_unsigned t'.
Proof.
  induction l as [|[[c p] v] l IH]; intros t t' Ht; cbn [set_styles].
  - intros E. injection E as <-. exact Ht.
  - destruct (set_style t c p v) as [t1|] eqn:E1; [|discriminate].
    rewrite StyleFacts.bind_Some. apply IH.
    exact (set_style_cells t t1 c p v Ht E1).
Qed.

Lemma lazy_load_cells (t t' : table) :
  cells_unsigned t -> lazy_load t = Some t' -> cells_unsigned t'.
Proof.
  unfold lazy_load, GuiLoadStyleDefault. intros Ht.
  destruct (guiStyleLoaded t).
  - intros E. injection E as <-. exact Ht.
  - apply set_styles_cells. exact Ht.
Qed.

(** A write to a control other than DEFAULT is one cell. *)
Lemma set_style_control (t : table) (c p v : Z) :
  wf t -> control_id c -> property_id p -> c <> 0 ->
  set_style t c p v
    = Some (mkTable (<[Z.to_nat (slot c p) := to_unsigned v]> (guiStyle t))
                    (guiStyleLoaded t)).
Proof.
  intros Hwf Hc Hp Hne. unfold set_style.
  rewrite StyleFacts.array_set_Some.
  - rewrite StyleFacts.bind_Some.
    destruct (Z.eqb_spec c 0); [contradiction|]. cbn [andb].
    rewrite StyleFacts.bind_Some. reflexivity.
  - unfold wf in Hwf. rewrite Hwf.
    unfold control_id, property_id, slot, size, RAYGUI_MAX_CONTROLS,
      RAYGUI_MAX_PROPS_BASE, RAYGUI_MAX_PROPS_EXTENDED in *. lia.
Qed.

Lemma GuiGetStyle_cell (t : table) (c p : Z) :
  wf t -> guiStyleLoaded t = true -> control_id c -> property_id p ->
  exists u,
    guiStyle t !! Z.to_nat (slot c p) = Some u /\
    GuiGetStyle t c p = Some (t, to_signed u).
Proof.
  intros Hwf Hl Hc Hp.
  assert (Hslot : 0 <= slot c p < Z.of_nat (length (guiStyle t))).
  { unfold wf in Hwf. rewrite Hwf.
    unfold control_id, property_id, slot, size, RAYGUI_MAX_CONTROLS,
      RAYGUI_MAX_PROPS_BASE, RAYGUI_MAX_PROPS_EXTENDED in *. lia. }
  destruct (lookup_lt_is_Some_2 (guiStyle t) (Z.to_nat (slot c p)))
    as [u Hu]; [lia|].
  exists u. split; [exact Hu|].
  apply StyleFacts.GuiGetStyle_loaded; [exact Hl|].
  unfold array_get. destruct (Z.leb_spec 0 (slot c p)); [exact Hu|lia].
Qed.

Lemma GuiGetStyle_first (t t0 : table) (c p : Z) :
  lazy_load t = Some t0 -> guiStyleLoaded t0 = true ->
  GuiGetStyle t c p = GuiGetStyle t0 c p.
Proof.
  intros E0 Hl. unfold GuiGetStyle. rewrite E0, StyleFacts.bind_Some.
  unfold lazy_load. rewrite Hl, StyleFacts.bind_Some. reflexivity.
Qed.

Lemma GuiSetStyle_loaded (t : table) (c p v : Z) :
  guiStyleLoaded t = true -> GuiSetStyle t c p v = set_style t c p v.
Proof.
  intros Hl. unfold GuiSetStyle, lazy_load.
  rewrite Hl, StyleFacts.bind_Some. reflexivity.
Qed.

(** Setting two cells and putting their values back restores the
    table. *)
Lemma save_and_restore {B : Type} (k : table -> option B)
    (t : table) (c p q v w : Z) (u1 u2 : Z) :
  wf t -> guiStyleLoaded t = true -> cells_unsigned t ->
  control_id c -> c <> 0 -> property_id p -> property_id q -> p <> q ->
  guiStyle t !! Z.to_nat (slot c p) = Some u1 ->
  guiStyle t !! Z.to_nat (slot c q) = Some u2 ->
  (t1 ← GuiSetStyle t c p v;
   t2 ← GuiSetStyle t1 c q w;
   t3 ← GuiSetStyle t2 c q (to_signed u2);
   t4 ← GuiSetStyle t3 c p (to_signed u1);
   k t4) = k t.
Proof.
  intros Hwf Hl Hcells Hc Hne Hp Hq Hpq Hu1 Hu2.
  assert (Hwf' : forall l b, length l = length (guiStyle t) ->
                             wf (mkTable l b))
    by (intros l b Hlen; unfold wf in *; cbn [guiStyle]; congruence).
  assert (Hin1 : 0 <= u1 < 2 ^ 32)
    by (exact (Forall_lookup_1 _ _ _ _ Hcells Hu1)).
  assert (Hin2 : 0 <= u2 < 2 ^ 32)
    by (exact (Forall_lookup_1 _ _ _ _ Hcells Hu2)).
  rewrite (GuiSetStyle_loaded t c p v Hl).
  rewrite (set_style_control t c p v Hwf Hc Hp Hne), StyleFacts.bind_Some.
  rewrite GuiSetStyle_loaded by exact Hl.
  rewrite set_style_control; try assumption;
    [|apply Hwf'; rewrite length_insert; reflexivity].
  rewrite StyleFacts.bind_Some. cbn [guiStyle guiStyleLoaded].
  rewrite GuiSetStyle_loaded by exact Hl.
  rewrite set_style_control; try assumption;
    [|apply Hwf'; rewrite !length_insert; reflexivity].
  rewrite StyleFacts.bind_Some. cbn [guiStyle guiStyleLoaded].
  rewrite GuiSetStyle_loaded by exact Hl.
  rewrite set_style_control; try assumption;
    [|apply Hwf'; rewrite !length_insert; reflexivity].
  rewrite StyleFacts.bind_Some. cbn [guiStyle guiStyleLoaded].
  rewrite !to_unsigned_to_signed by assumption.
  assert (Hslots : Z.to_nat (slot c p) <> Z.to_nat (slot c q)).
  { unfold control_id, property_id, slot, RAYGUI_MAX_CONTROLS,
      RAYGUI_MAX_PROPS_BASE, RAYGUI_MAX_PROPS_EXTENDED in *. lia. }
  rewrite list_insert_insert_eq.
  rewrite (list_insert_insert_ne _ _ _ u2 (to_unsigned v)) by congruence.
  rewrite list_insert_insert_eq.
  rewrite (list_insert_id _ _ u2 Hu2), (list_insert_id _ _ u1 Hu1).
  destruct t as [l b]. cbn [guiStyle guiStyleLoaded] in *. subst b.
  reflexivity.
Qed.

End ComboFacts.

Lemma combobox_ids :
  Style.control_id COMBOBOX /\ Style.control_id BUTTON /\ BUTTON <> 0 /\
  Style.property_id COMBO_BUTTON_WIDTH /\
  Style.property_id COMBO_BUTTON_SPACING /\
  Style.property_id BORDER_WIDTH /\ Style.property_id TEXT_ALIGNMENT /\
  BORDER_WIDTH <> TEXT_ALIGNMENT.
Proof.
  unfold Style.control_id, Style.property_id; vm_compute;
    repeat split; congruence.
Qed.



(** ** Toggles *)

Lemma GuiToggle_not_live {F : Type} `{FloatOps F}
    (g : Globals F) (inp : Input F) (bounds : Rectangle F) (active : bool) :
  live g = false -> GuiToggle g inp bounds active = (guiState g, active, 0).
Proof.
  intros Hlive. unfold GuiToggle. rewrite Hlive. reflexivity.
Qed.

(** The loop of [GuiToggleGroup] over items that are there. *)
Lemma toggle_group_from_spec {F : Type} `{FloatOps F}
    (style : Z -> Z -> Z) (g : Globals F) (inp : Input F) (s : Split)
    (rows : list Z) (turns : nat) :
  forall (i : nat) (bounds : Rectangle F) (initBoundsX : F)
         (prevRow active : Z),
    (i + turns <= length rows)%nat ->
    (forall k, (k < i + turns)%nat -> is_Some (split_item s k)) ->
    exists active',
      toggle_group_from style turns g inp s rows i bounds initBoundsX
                        prevRow active = Some active' /\
      (active' = active \/
       Z.of_nat i <= active' < Z.of_nat (i + turns)) /\
      (live g = false -> active' = active).
Proof.
  induction turns as [|turns IH];
    intros i bounds initBoundsX prevRow active Hrows Hitems;
    cbn [toggle_group_from].
  - exists active. split; [reflexivity|]. split; [left|]; reflexivity.
  - destruct (lookup_lt_is_Some_2 rows i ltac:(lia)) as [row ->].
    rewrite StyleFacts.bind_Some.
    destruct (Hitems i ltac:(lia)) as [item ->].
    rewrite StyleFacts.bind_Some.
    match goal with
    | |- context [let '(b, p) := ?moved in _] =>
        destruct moved as [bounds' prevRow']
    end.
    match goal with
    | |- context [toggle_group_from _ _ _ _ _ _ _ ?b _ _ ?a] =>
        destruct (IH (S i) b initBoundsX prevRow' a
                    ltac:(lia)
                    ltac:(intros k Hk; apply Hitems; lia))
          as (active' & -> & Hrange & Hinert)
    end.
    exists active'. split; [reflexivity|]. split.
    + destruct (Z.eqb_spec (Z.of_nat i) active) as [Ei|Ei].
      * destruct Hrange as [->|Hrange]; [left; reflexivity|right; lia].
      * destruct ((GuiToggle g inp bounds' false).1.2).
        -- right. destruct Hrange as [->|Hrange]; lia.
        -- destruct Hrange as [->|Hrange]; [left; reflexivity|right; lia].
    + intros Hlive. rewrite (Hinert Hlive).
      rewrite (GuiToggle_not_live g inp bounds' false Hlive). cbn [fst snd].
      destruct (Z.of_nat i =? active); reflexivity.
Qed.



(** ** Sliders *)

Lemma SFleb_not_nan (x y : spec_float) :
  SFleb x y = true -> Binary32.is_nan x = false /\ Binary32.is_nan y = false.
Proof.
  destruct x, y; cbn; intros E; try discriminate E; split; reflexivity.
Qed.

Lemma SFleb_refl (x : spec_float) :
  Binary32.is_nan x = false -> SFleb x x = true.
Proof.
  intros Hx. destruct (SFltb x x) eqn:E.
  - pose proof (SFcompare_swap x x) as Hswap. unfold SFltb in E.
    destruct (SFcompare x x) as [[]|]; cbn in Hswap; congruence.
  - apply SFltb_false_SFleb; assumption.
Qed.

(** The clamp of [GuiSliderPro] in single precision. *)
Lemma clamp_value_range (value minValue maxValue : Binary32.float) :
  SFleb minValue maxValue = true ->
  Binary32.is_nan (clamp_value value minValue maxValue) = true \/
  (SFleb minValue (clamp_value value minValue maxValue) = true /\
   SFleb (clamp_value value minValue maxValue) maxValue = true).
Proof.
  intros Hle. destruct (SFleb_not_nan _ _ Hle) as [Hmin Hmax].
  unfold clamp_value. cbn [f_ltb Binary32.ops].
  destruct (SFltb maxValue value) eqn:Eabove.
  - right. split; [exact Hle|apply SFleb_refl; exact Hmax].
  - destruct (SFltb value minValue) eqn:Ebelow.
    + right. split; [apply SFleb_refl; exact Hmin|exact Hle].
    + destruct (Binary32.is_nan value) eqn:Enan; [left; reflexivity|].
      right. split; apply SFltb_false_SFleb; assumption.
Qed.

(** X10.  An enabled, unlocked [GuiSliderPro] with [minValue <= maxValue]
    leaves in [*value] a value of the range, or a NaN: wherever the
    pointer is, whatever the value was, and also when the bounds are as
    wide as the slider, where the position is divided by zero.  A
    disabled or locked one leaves the value and the globals as they
    are. *)
Theorem GuiSliderPro_value_in_range
    (style : Z -> Z -> Z) (g : Globals Binary32.float)
    (inp : Input Binary32.float) (bounds : Rectangle Binary32.float)
    (value : option Binary32.float) (minValue maxValue : Binary32.float)
    (sliderWidth : Z) :
  SFleb minValue maxValue = true ->
  let after :=
    GuiSliderPro style g inp bounds value minValue maxValue sliderWidth in
  let oldValue :=
    match value with
    | Some v => v
    | None => f_div (f_sub maxValue minValue) (Binary32.of_Z 2)
    end in
  if negb (guiState g =? STATE_DISABLED) && negb (guiLocked g) then
    Binary32.is_nan after.1.2 = true \/
    (SFleb minValue after.1.2 = true /\ SFleb after.1.2 maxValue = true)
  else
    after.1 = (g, guiState g, oldValue).
Proof.
  intros Hle after oldValue. subst after oldValue. unfold GuiSliderPro.
  destruct (negb (guiState g =? STATE_DISABLED) && negb (guiLocked g));
    [|reflexivity].
  repeat match goal with
         | |- context [if ?c then _ else _] => destruct c
         end;
    cbn [fst snd]; apply clamp_value_range; exact Hle.
Qed.

(** X10, instance: the slider of width 100 dragged far to the right of
    its bounds, with the range from 0 to 1. *)
Lemma GuiSliderPro_value_in_range_witness :
  let after :=
    GuiSliderPro default_style_value globals_dragging (held_at 5000 10)
      slider_A (Some (Binary32.of_Z 0)) (Binary32.of_Z 0)
      (Binary32.of_Z 1) 16 in
  Binary32.is_nan after.1.2 = true \/
  (SFleb (Binary32.of_Z 0) after.1.2 = true /\
   SFleb after.1.2 (Binary32.of_Z 1) = true).
Proof.
  exact (GuiSliderPro_value_in_range default_style_value
           globals_dragging (held_at 5000 10) slider_A
           (Some (Binary32.of_Z 0)) (Binary32.of_Z 0)
           (Binary32.of_Z 1) 16 eq_refl).
Defined.

(** ** Reading a float *)

Lemma float_digits_app {F : Type} `{FloatOps F} (ds : list Z) :
  forall (c : Z) (rest : list Z) (value : F),
    all_digits ds -> is_digit c = false ->
    exists value',
      float_digits (ds ++ c :: rest) value = (value', c :: rest).
Proof.
  induction ds as [|d ds IH]; intros c rest value Hds Hc;
    cbn [app float_digits].
  - rewrite Hc. eexists. reflexivity.
  - apply Forall_cons_1 in Hds. destruct Hds as [Hd Hds]. rewrite Hd.
    apply IH; assumption.
Qed.

Lemma first_is_no_sign (ds : list Z) (rest : list Z) :
  all_digits ds ->
  (char_at (ds ++ ch_dot :: rest) 0 =? ch_plus)
  || (char_at (ds ++ ch_dot :: rest) 0 =? ch_minus) = false.
Proof.
  intros Hds. destruct ds as [|d ds]; [reflexivity|].
  apply Forall_cons_1 in Hds. destruct Hds as [Hd _].
  exact (is_digit_not_sign d Hd).
Qed.

(** X11.  [TextToFloat] applies the sign only to a text without a decimal
    point: a numeral with a point and a minus sign reads as the numeral
    without the sign, in any float arithmetic. *)
Theorem TextToFloat_loses_sign {F : Type} `{FloatOps F}
    (ds rest : list Z) :
  all_digits ds ->
  TextToFloat (F := F) (ch_minus :: ds ++ ch_dot :: rest)
  = TextToFloat (ds ++ ch_dot :: rest).
Proof.
  intros Hds. unfold TextToFloat at 2.
  rewrite (first_is_no_sign ds rest Hds).
  unfold TextToFloat.
  change (char_at (ch_minus :: ds ++ ch_dot :: rest) 0) with ch_minus.
  change ((ch_minus =? ch_plus) || (ch_minus =? ch_minus)) with true.
  cbn [drop]. rewrite drop_0.
  destruct (float_digits_app ds ch_dot rest (f_of_Z 0) Hds eq_refl)
    as [value ->].
  reflexivity.
Qed.

(** X11, instance: [-1.5] reads as [1.5] in single precision. *)
Lemma TextToFloat_loses_sign_witness :
  TextToFloat (F := Binary32.float) (cstring "-1.5"%string)
  = f_div (Binary32.of_Z 3) (Binary32.of_Z 2).
Proof.
  change (cstring "-1.5"%string) with (ch_minus :: [49] ++ ch_dot :: [53]).
  rewrite (TextToFloat_loses_sign (F := Binary32.float) [49] [53]).
  - vm_compute. reflexivity.
  - apply Forall_cons_2; [reflexivity|apply Forall_nil_2].
Defined.

Lemma digits_value_app (ds rest : list Z) :
  forall acc, all_digits ds ->
              digits_value (ds ++ rest) acc
              = digits_value rest (digits_value ds acc).
Proof.
  induction ds as [|d ds IH]; intros acc Hds; cbn [app digits_value];
    [reflexivity|].
  apply Forall_cons_1 in Hds. destruct Hds as [Hd Hds]. rewrite Hd.
  apply IH. exact Hds.
Qed.

Lemma float_digits_exact (ds rest : list Z) :
  forall (value : Q) (n : Z),
    all_digits ds -> is_digit (char_at rest 0) = false ->
    (value == inject_Z n)%Q ->
    exists value',
      float_digits (ds ++ rest) value = (value', rest) /\
      (value' == inject_Z (digits_value ds n))%Q.
Proof.
  induction ds as [|d ds IH]; intros value n Hds Hrest Hvalue;
    cbn [app float_digits digits_value].
  - exists value. split; [|exact Hvalue].
    destruct rest as [|c rest]; [reflexivity|].
    cbn [float_digits]. change (char_at (c :: rest) 0) with c in Hrest.
    rewrite Hrest. reflexivity.
  - apply Forall_cons_1 in Hds. destruct Hds as [Hd Hds]. rewrite Hd.
    apply IH; [exact Hds|exact Hrest|].
    exact_arith. rewrite Hvalue, inject_Z_plus, inject_Z_mult. reflexivity.
Qed.

Lemma float_fraction_exact (fs rest : list Z) :
  forall (value divisor : Q) (k : nat) (n : Z),
    all_digits fs -> is_digit (char_at rest 0) = false ->
    (value * inject_Z (10 ^ Z.of_nat k) == inject_Z n)%Q ->
    (divisor == inject_Z (10 ^ Z.of_nat (S k)))%Q ->
    (float_fraction (fs ++ rest) value divisor
     * inject_Z (10 ^ Z.of_nat (k + length fs))
     == inject_Z (digits_value fs n))%Q.
Proof.
  induction fs as [|c fs IH]; intros value divisor k n Hfs Hrest Hvalue Hdiv;
    cbn [app float_fraction digits_value length].
  - rewrite Nat.add_0_r.
    destruct rest as [|c rest]; [exact Hvalue|].
    cbn [float_fraction]. change (char_at (c :: rest) 0) with c in Hrest.
    rewrite Hrest. exact Hvalue.
  - apply Forall_cons_1 in Hfs. destruct Hfs as [Hc Hfs]. rewrite Hc.
    replace (k + S (length fs))%nat with (S k + length fs)%nat by lia.
    assert (Hpow : (inject_Z (10 ^ Z.of_nat (S k))
                    == 10 * inject_Z (10 ^ Z.of_nat k))%Q).
    { rewrite Nat2Z.inj_succ, Z.pow_succ_r by lia.
      rewrite inject_Z_mult. reflexivity. }
    assert (Hpos : (0 < inject_Z (10 ^ Z.of_nat k))%Q).
    { change 0%Q with (inject_Z 0). rewrite <- Zlt_Qlt.
      apply Z.pow_pos_nonneg; lia. }
    apply IH; [exact Hfs|exact Hrest| |].
    + exact_arith. rewrite Hdiv, Hpow, inject_Z_plus, inject_Z_mult.
      rewrite <- Hvalue. change (inject_Z 10) with 10%Q. field.
      intros E. rewrite E in Hpos. discriminate Hpos.
    + exact_arith. rewrite Hdiv.
      rewrite (Nat2Z.inj_succ (S k)), Z.pow_succ_r by lia.
      rewrite inject_Z_mult. change (inject_Z 10) with 10%Q. ring.
Qed.



(** ** Loading a style from memory *)

Module LoadFacts.
Import Style.

Lemma run_sets_None (l : list (Z * Z * Z)) :
  foldl (fun ot '(c, p, v) => t' ← ot; GuiSetStyle t' c p v) None l = None.
Proof.
  induction l as [|[[c p] v] l IH]; [reflexivity|exact IH].
Qed.

Lemma run_sets_cons (t : table) (c p v : Z) (l : list (Z * Z * Z)) :
  run_sets t ((c, p, v) :: l) = t' ← GuiSetStyle t c p v; run_sets t' l.
Proof.
  unfold run_sets. cbn [foldl]. rewrite StyleFacts.bind_Some.
  destruct (GuiSetStyle t c p v) as [t'|]; [reflexivity|].
  apply run_sets_None.
Qed.

Lemma array_set_inv (a a' : list Z) (i v : Z) :
  array_set a i v = Some a' ->
  0 <= i < Z.of_nat (length a) /\ a' = <[Z.to_nat i := v]> a.
Proof.
  unfold array_set.
  destruct (Z.leb_spec 0 i), (Z.ltb_spec i (Z.of_nat (length a)));
    cbn [andb]; intros E; try discriminate E.
  injection E as <-. split; [lia|reflexivity].
Qed.

Lemma set_style_flag (t t' : table) (c p v : Z) :
  set_style t c p v = Some t' -> guiStyleLoaded t' = guiStyleLoaded t.
Proof.
  unfold set_style.
  destruct (array_set _ _ _) as [a|]; [|discriminate].
  rewrite StyleFacts.bind_Some.
  match goal with
  | |- context [if ?c then ?x else ?y] =>
      destruct (if c then x else y) as [a'|]; [|discriminate]
  end.
  rewrite StyleFacts.bind_Some. intros E. injection E as <-. reflexivity.
Qed.

Lemma set_styles_flag (l : list (Z * Z * Z)) :
  forall t t', set_styles t l = Some t' ->
               guiStyleLoaded t' = guiStyleLoaded t.
Proof.
  induction l as [|[[c p] v] l IH]; intros t t'; cbn [set_styles].
  - intros E. injection E as <-. reflexivity.
  - destruct (set_style t c p v) as [t1|] eqn:E1; [|discriminate].
    rewrite StyleFacts.bind_Some. intros E.
    rewrite (IH _ _ E). exact (set_style_flag _ _ _ _ _ E1).
Qed.

Lemma lazy_load_flag (t t0 : table) :
  lazy_load t = Some t0 -> guiStyleLoaded t0 = true.
Proof.
  unfold lazy_load, GuiLoadStyleDefault.
  destruct (guiStyleLoaded t) eqn:El.
  - intros E. injection E as <-. exact El.
  - intros E. rewrite (set_styles_flag _ _ _ E). reflexivity.
Qed.

(** What [propagate] leaves: the cells of the controls it went through
    hold the value, the other cells are as they were. *)
Lemma propagate_written (n : nat) :
  forall (i : Z) (a a' : list Z) (p u : Z),
    propagate n i a p u = Some a' ->
    length a' = length a /\
    (forall j, i <= j < i + Z.of_nat n ->
               0 <= slot j p < Z.of_nat (length a) /\
               a' !! Z.to_nat (slot j p) = Some u) /\
    (forall k, (forall j, i <= j < i + Z.of_nat n ->
                          0 <= slot j p -> k <> Z.to_nat (slot j p)) ->
               a' !! k = a !! k).
Proof.
  induction n as [|n IH]; intros i a a' p u; cbn [propagate].
  - intros E. injection E as <-. split; [reflexivity|].
    split; [intros j Hj; lia|reflexivity].
  - destruct (array_set a (slot i p) u) as [a1|] eqn:E1; [|discriminate].
    rewrite StyleFacts.bind_Some. intros E.
    apply array_set_inv in E1. destruct E1 as [Hin ->].
    destruct (IH _ _ _ _ _ E) as (Hlen & Hset & Hkeep).
    rewrite length_insert in Hlen, Hset.
    split; [exact Hlen|]. split.
    + intros j Hj. destruct (Z.eq_dec j i) as [->|Hne].
      * split; [exact Hin|]. rewrite Hkeep.
        -- apply list_lookup_insert_eq. lia.
        -- intros j Hj' Hpos. unfold slot in *.
           unfold RAYGUI_MAX_PROPS_BASE, RAYGUI_MAX_PROPS_EXTENDED in *.
           lia.
      * apply Hset. lia.
    + intros k Hk. rewrite Hkeep.
      * apply list_lookup_insert_ne. intros E'. apply (Hk i); lia.
      * intros j Hj Hpos. apply Hk; [lia|exact Hpos].
Qed.

(** Setting cells to the value they hold changes nothing. *)
Lemma set_for_controls_idle (n : nat) :
  forall (i : Z) (t : table) (p v : Z),
    guiStyleLoaded t = true -> 1 <= i ->
    (forall j, i <= j < i + Z.of_nat n ->
               0 <= slot j p < Z.of_nat (length (guiStyle t)) /\
               guiStyle t !! Z.to_nat (slot j p) = Some (to_unsigned v)) ->
    set_for_controls n i t p v = Some t.
Proof.
  induction n as [|n IH]; intros i t p v Hl Hi Hcells;
    cbn [set_for_controls]; [reflexivity|].
  destruct (Hcells i ltac:(lia)) as [Hin Hcell].
  unfold GuiSetStyle, lazy_load. rewrite Hl, StyleFacts.bind_Some.
  unfold set_style. rewrite (StyleFacts.array_set_Some _ _ _ Hin).
  rewrite StyleFacts.bind_Some.
  destruct (Z.eqb_spec i 0); [lia|]. cbn [andb].
  rewrite !StyleFacts.bind_Some, (list_insert_id _ _ _ Hcell).
  replace (mkTable (guiStyle t) (guiStyleLoaded t)) with t
    by (destruct t; reflexivity).
  apply IH; [exact Hl|lia|]. intros j Hj. apply Hcells. lia.
Qed.

(** The loop over the controls that follows [GuiSetStyle(0, ...)] in
    [GuiLoadStyleFromMemory] finds its work done. *)
Lemma propagation_again (t t1 : table) (p v : Z) :
  GuiSetStyle t 0 p v = Some t1 -> (p <? RAYGUI_MAX_PROPS_BASE) = true ->
  set_for_controls (Z.to_nat (RAYGUI_MAX_CONTROLS - 1)) 1 t1 p v = Some t1.
Proof.
  unfold GuiSetStyle. intros E Hbase.
  destruct (lazy_load t) as [t0|] eqn:E0; [|discriminate E].
  rewrite StyleFacts.bind_Some in E. unfold set_style in E.
  destruct (array_set (guiStyle t0) (slot 0 p) (to_unsigned v)) as [a|];
    [|discriminate E].
  rewrite StyleFacts.bind_Some, Hbase in E. cbn [Z.eqb andb] in E.
  destruct (propagate _ 1 a p (to_unsigned v)) as [a'|] eqn:Ep;
    [|discriminate E].
  rewrite StyleFacts.bind_Some in E. injection E as <-.
  destruct (propagate_written _ _ _ _ _ _ Ep) as (Hlen & Hset & _).
  apply set_for_controls_idle; cbn [guiStyle guiStyleLoaded].
  - exact (lazy_load_flag _ _ E0).
  - lia.
  - intros j Hj. rewrite Hlen. apply Hset. exact Hj.
Qed.

Lemma memcpy_from_inside (fileData : list Z) (ptr n : nat) :
  (ptr + n <= length fileData)%nat ->
  memcpy_from fileData ptr n = Some (take n (drop ptr fileData)).
Proof.
  intros Hin. unfold memcpy_from.
  destruct (Nat.leb_spec (ptr + n) (length fileData)); [reflexivity|lia].
Qed.

Lemma memcpy_from_outside (fileData : list Z) (ptr n : nat) :
  (length fileData < ptr + n)%nat -> memcpy_from fileData ptr n = None.
Proof.
  intros Hout. unfold memcpy_from.
  destruct (Nat.leb_spec (ptr + n) (length fileData)); [lia|reflexivity].
Qed.

(** The loop over the records is a run of [GuiSetStyle] calls. *)
Lemma load_properties_spec (fileData : list Z) (count : nat) :
  forall (ptr : nat) (t : table),
    (ptr + 8 * count <= length fileData)%nat ->
    load_properties count fileData ptr t
    = run_sets t (records count fileData ptr).
Proof.
  induction count as [|count IH]; intros ptr t Hin;
    cbn [load_properties records]; [reflexivity|].
  unfold read_short, read_unsigned.
  rewrite !memcpy_from_inside by lia. rewrite !StyleFacts.bind_Some.
  cbv zeta.
  set (c := if little_endian (take 2 (drop ptr fileData)) <? 2 ^ 15
            then _ else _).
  set (p := if little_endian (take 2 (drop (ptr + 2) fileData)) <? 2 ^ 15
            then _ else _).
  set (v := to_signed _).
  rewrite run_sets_cons.
  destruct (Z.eqb_spec c 0) as [->|Hc].
  - destruct (GuiSetStyle t 0 p v) as [t1|] eqn:E1;
      [|reflexivity].
    rewrite !StyleFacts.bind_Some.
    destruct (p <? RAYGUI_MAX_PROPS_BASE) eqn:Ebase.
    + rewrite (propagation_again t t1 p v E1 Ebase), StyleFacts.bind_Some.
      apply IH. lia.
    + rewrite StyleFacts.bind_Some. apply IH. lia.
  - destruct (GuiSetStyle t c p v) as [t1|];
      [|reflexivity].
    rewrite !StyleFacts.bind_Some. apply IH. lia.
Qed.

(** A file shorter than its record count says is read past its end. *)
Lemma load_properties_truncated (fileData : list Z) (count : nat) :
  forall (ptr : nat) (t : table),
    (length fileData < ptr + 8 * count)%nat ->
    (ptr <= length fileData)%nat ->
    load_properties count fileData ptr t = None.
Proof.
  induction count as [|count IH]; intros ptr t Hout Hptr;
    cbn [load_properties]; [lia|].
  destruct (Nat.le_gt_cases (ptr + 8) (length fileData)) as [Hin|Hshort].
  - destruct (read_short fileData ptr) as [c|]; [|reflexivity].
    rewrite StyleFacts.bind_Some.
    destruct (read_short fileData (ptr + 2)) as [p|]; [|reflexivity].
    rewrite StyleFacts.bind_Some.
    destruct (read_unsigned fileData (ptr + 2 + 2)) as [v|]; [|reflexivity].
    rewrite StyleFacts.bind_Some. cbv zeta.
    match goal with
    | |- context [if c =? 0 then ?x else ?y] =>
        destruct (if c =? 0 then x else y) as [t1|]; [|reflexivity]
    end.
    rewrite StyleFacts.bind_Some. apply IH; lia.
  - destruct (read_short fileData ptr) as [c|]; [|reflexivity].
    rewrite StyleFacts.bind_Some.
    destruct (read_short fileData (ptr + 2)) as [p|]; [|reflexivity].
    rewrite StyleFacts.bind_Some.
    unfold read_unsigned. rewrite memcpy_from_outside by lia. reflexivity.
Qed.

Lemma char_at_take (l : list Z) (n i : nat) :
  (i < n)%nat -> char_at (take n l) i = char_at l i.
Proof.
  intros Hi. unfold char_at. rewrite !nth_lookup, lookup_take_lt by exact Hi.
  reflexivity.
Qed.

Lemma GuiSetStyle_inside (t : table) (c p v : Z) :
  wf t -> 0 <= slot c p < size ->
  exists t', GuiSetStyle t c p v = Some t' /\ wf t'.
Proof.
  intros Hwf Hin.
  destruct (StyleFacts.lazy_load_wf t Hwf) as (t0 & E0 & Hwf0 & _).
  unfold GuiSetStyle. rewrite E0, StyleFacts.bind_Some.
  unfold set_style. unfold wf in Hwf0.
  rewrite StyleFacts.array_set_Some by (rewrite Hwf0; lia).
  rewrite StyleFacts.bind_Some.
  destruct (Z.eqb_spec c 0) as [->|Hc]; cbn [andb].
  - destruct (Z.ltb_spec p RAYGUI_MAX_PROPS_BASE) as [Hbase|Hext].
    + destruct (StyleFacts.propagate_spec
                  (Z.to_nat (RAYGUI_MAX_CONTROLS - 1)) 1
                  (<[Z.to_nat (slot 0 p) := to_unsigned v]> (guiStyle t0))
                  p (to_unsigned v))
        as (a' & -> & Hlen & _).
      * rewrite length_insert. exact Hwf0.
      * lia.
      * unfold RAYGUI_MAX_CONTROLS. lia.
      * unfold property_id, slot, RAYGUI_MAX_PROPS_BASE,
          RAYGUI_MAX_PROPS_EXTENDED in *. lia.
      * rewrite StyleFacts.bind_Some. eexists. split; [reflexivity|].
        exact Hlen.
    + rewrite StyleFacts.bind_Some. eexists. split; [reflexivity|].
      unfold wf. cbn [guiStyle]. rewrite length_insert. exact Hwf0.
  - rewrite StyleFacts.bind_Some. eexists. split; [reflexivity|].
    unfold wf. cbn [guiStyle]. rewrite length_insert. exact Hwf0.
Qed.

Lemma GuiSetStyle_outside (t : table) (c p v : Z) :
  wf t -> ~ 0 <= slot c p < size -> GuiSetStyle t c p v = None.
Proof.
  intros Hwf Hout.
  destruct (StyleFacts.lazy_load_wf t Hwf) as (t0 & E0 & Hwf0 & _).
  unfold GuiSetStyle. rewrite E0, StyleFacts.bind_Some.
  unfold set_style, array_set. unfold wf in Hwf0. rewrite Hwf0.
  destruct (Z.leb_spec 0 (slot c p)),
    (Z.ltb_spec (slot c p) (Z.of_nat (Z.to_nat size)));
    cbn [andb]; try reflexivity.
  exfalso. apply Hout. unfold size, RAYGUI_MAX_CONTROLS,
    RAYGUI_MAX_PROPS_BASE, RAYGUI_MAX_PROPS_EXTENDED in *. lia.
Qed.

(** A run of [GuiSetStyle] calls goes through when every cell it names
    is a cell of the table, and only then. *)
Lemma run_sets_inside (l : list (Z * Z * Z)) :
  forall t, wf t -> is_Some (run_sets t l) <-> Forall in_table l.
Proof.
  induction l as [|[[c p] v] l IH]; intros t Hwf.
  - split; [intros _; apply Forall_nil_2|intros _; eexists; reflexivity].
  - rewrite run_sets_cons. split.
    + intros Hsome.
      destruct (Z_le_dec 0 (slot c p)) as [Hlo|Hlo];
        [destruct (Z_lt_dec (slot c p) size) as [Hhi|Hhi]|].
      * destruct (GuiSetStyle_inside t c p v Hwf (conj Hlo Hhi))
          as (t' & E' & Hwf').
        rewrite E', StyleFacts.bind_Some in Hsome.
        apply Forall_cons_2; [exact (conj Hlo Hhi)|].
        apply (IH t' Hwf'). exact Hsome.
      * rewrite GuiSetStyle_outside in Hsome by (exact Hwf || lia).
        destruct Hsome as [x Hx]. discriminate Hx.
      * rewrite GuiSetStyle_outside in Hsome by (exact Hwf || lia).
        destruct Hsome as [x Hx]. discriminate Hx.
    + intros Hall. apply Forall_cons_1 in Hall. destruct Hall as [Hin Hall].
      destruct (GuiSetStyle_inside t c p v Hwf Hin) as (t' & E' & Hwf').
      rewrite E', StyleFacts.bind_Some. apply (IH t' Hwf'). exact Hall.
Qed.

End LoadFacts.

(** X13.  [GuiLoadStyleFromMemory] on a file that does not start with
    the signature leaves the table alone.  On a file with the signature
    it is the run of the calls [GuiSetStyle(control, property, value)] of
    its records, in the order of the file: the loop over the controls
    that follows a record of DEFAULT repeats what [GuiSetStyle] did.  It
    never consults the size of the data: a file of less than twelve
    bytes, or shorter than its record count says, is read past its
    end. *)
Theorem GuiLoadStyleFromMemory_runs_GuiSetStyle
    (t : Style.table) (fileData : list Z) :
  GuiLoadStyleFromMemory t fileData =
    if (length fileData <? 12)%nat then None
    else if negb (has_signature fileData) then Some t
    else if (length fileData <? 12 + 8 * property_count fileData)%nat
         then None
         else Style.run_sets t
                (records (property_count fileData) fileData 12).
Proof.
  unfold GuiLoadStyleFromMemory.
  destruct (Nat.ltb_spec (length fileData) 12) as [Hshort|Hheader].
  - destruct (memcpy_from fileData 0 4); [|reflexivity].
    rewrite StyleFacts.bind_Some.
    destruct (read_short fileData 4); [|reflexivity].
    rewrite StyleFacts.bind_Some.
    destruct (read_short fileData (4 + 2)); [|reflexivity].
    rewrite StyleFacts.bind_Some.
    unfold read_int. rewrite LoadFacts.memcpy_from_outside; [reflexivity|].
    cbn [Nat.add]. lia.
  - unfold read_short, read_int.
    rewrite !LoadFacts.memcpy_from_inside by (cbn [Nat.add]; lia).
    rewrite !StyleFacts.bind_Some. cbv zeta.
    rewrite drop_0, !LoadFacts.char_at_take by lia.
    fold (has_signature fileData).
    destruct (has_signature fileData); [|reflexivity]. cbn [negb].
    change (4 + 2 + 2)%nat with 8%nat. fold (property_count fileData).
    destruct (Nat.ltb_spec (length fileData)
                (12 + 8 * property_count fileData)) as [Hcut|Hwhole].
    + apply LoadFacts.load_properties_truncated; lia.
    + apply LoadFacts.load_properties_spec. lia.
Qed.

(** X14.  [GuiLoadStyleFromMemory] passes the ids of the file to
    [GuiSetStyle] as they are.  A whole file with the signature loads
    when the cell [control*24 + property] of each of its records is a
    cell of [guiStyle], and only then: a record that names a cell outside
    is written outside the array. *)
Theorem GuiLoadStyleFromMemory_trusts_ids
    (t : Style.table) (fileData : list Z) :
  Style.wf t -> has_signature fileData = true ->
  (12 + 8 * property_count fileData <= length fileData)%nat ->
  is_Some (GuiLoadStyleFromMemory t fileData) <->
  Forall in_table (records (property_count fileData) fileData 12).
Proof.
  intros Hwf Hsignature Hwhole.
  pose proof (LoadFacts.load_properties_spec fileData
                (property_count fileData) 12 t Hwhole) as Hloop.
  assert (Hload : GuiLoadStyleFromMemory t fileData
                  = Style.run_sets t
                      (records (property_count fileData) fileData 12)).
  { rewrite <- Hloop. unfold GuiLoadStyleFromMemory.
    unfold read_short, read_int.
    rewrite !LoadFacts.memcpy_from_inside by (cbn [Nat.add]; lia).
    rewrite !StyleFacts.bind_Some. cbv zeta.
    rewrite drop_0, !LoadFacts.char_at_take by lia.
    fold (has_signature fileData). rewrite Hsignature. reflexivity. }
  rewrite Hload. apply LoadFacts.run_sets_inside. exact Hwf.
Qed.

(** X14, instance: a second record for control 16. *)
Lemma GuiLoadStyleFromMemory_trusts_ids_witness :
  GuiLoadStyleFromMemory Style.initial bad_style_file = None.
Proof.
  destruct (GuiLoadStyleFromMemory_trusts_ids Style.initial bad_style_file)
    as [Hinside _]; [reflexivity|reflexivity|vm_compute; lia|].
  destruct (GuiLoadStyleFromMemory Style.initial bad_style_file) as [t'|];
    [|reflexivity].
  exfalso.
  pose proof (Forall_lookup_1 _ _ 1%nat (16, 16, 20)
                (Hinside ltac:(eexists; reflexivity)) eq_refl) as Hin.
  unfold in_table in Hin. vm_compute in Hin. destruct Hin as [_ Hin].
  discriminate Hin.
Defined.

(** ** List view *)

Lemma item_under_range {F : Type} `{FloatOps F} (style : Z -> Z -> Z)
    (mouse : Vector2 F) (turns : nat) :
  forall (i0 i : Z) (itemBounds : Rectangle F),
    item_under style turns i0 mouse itemBounds = Some i ->
    i0 <= i < i0 + Z.of_nat turns.
Proof.
  induction turns as [|turns IH]; intros i0 i itemBounds;
    cbn [item_under]; [discriminate|].
  destruct (CheckCollisionPointRec mouse itemBounds).
  - intros E. injection E as <-. lia.
  - intros E. apply IH in E. lia.
Qed.

Lemma items_drawn_spec (text : list (list Z)) (startIndex : Z)
    (turns : nat) :
  forall i : Z,
    ((0 < turns)%nat ->
     0 <= startIndex + i /\
     startIndex + i + Z.of_nat turns <= Z.of_nat (length text)) ->
    items_drawn turns i text startIndex
    = Some (take turns (drop (Z.to_nat (startIndex + i)) text)).
Proof.
  induction turns as [|turns IH]; intros i Hin; cbn [items_drawn].
  - rewrite take_0. reflexivity.
  - destruct (Hin ltac:(lia)) as [Hlo Hhi].
    destruct (Z.leb_spec 0 (startIndex + i)); [|lia].
    destruct (lookup_lt_is_Some_2 text (Z.to_nat (startIndex + i))
                ltac:(lia)) as [item Hitem].
    rewrite Hitem, StyleFacts.bind_Some, IH by lia.
    rewrite StyleFacts.bind_Some.
    rewrite (drop_S _ _ _ Hitem). cbn [take].
    replace (Z.to_nat (startIndex + (i + 1)))
      with (S (Z.to_nat (startIndex + i))) by lia.
    reflexivity.
Qed.



(** ** Value box and spinner *)

Lemma TextToInteger_digits (ds : list Z) :
  all_digits ds -> TextToInteger ds = decimal ds.
Proof.
  intros Hds. unfold TextToInteger, decimal.
  destruct ds as [|d ds].
  - reflexivity.
  - apply Forall_cons_1 in Hds. destruct Hds as [Hd _].
    change (char_at (d :: ds) 0) with d.
    rewrite (is_digit_not_sign d Hd). lia.
Qed.

Lemma TextToInteger_minus (ds : list Z) :
  TextToInteger (ch_minus :: ds) = - decimal ds.
Proof.
  unfold TextToInteger, decimal.
  change (char_at (ch_minus :: ds) 0) with ch_minus.
  change ((ch_minus =? ch_plus) || (ch_minus =? ch_minus)) with true.
  rewrite Z.eqb_refl. cbn [drop]. rewrite drop_0. lia.
Qed.

Lemma decimal_snoc (ds : list Z) (k : Z) :
  all_digits ds -> is_digit k = true ->
  decimal (ds ++ [k]) = decimal ds * 10 + (k - ch_0).
Proof.
  intros Hds Hk. unfold decimal. rewrite digits_value_app by exact Hds.
  cbn [digits_value]. rewrite Hk. reflexivity.
Qed.

Lemma all_digits_snoc (ds : list Z) (k : Z) :
  all_digits ds -> is_digit k = true -> all_digits (ds ++ [k]).
Proof.
  intros Hds Hk. apply Forall_app. split; [exact Hds|].
  apply Forall_cons_2; [exact Hk|apply Forall_nil_2].
Qed.

Lemma take_all_but_last {A : Type} (l : list A) (x : A) :
  take (length (l ++ [x]) - 1) (l ++ [x]) = l.
Proof.
  rewrite length_app. cbn [length].
  replace (length l + 1 - 1)%nat with (length l) by lia.
  apply take_app_length.
Qed.

Lemma digits_end (ds : list Z) :
  all_digits ds -> ds <> [] ->
  exists ds' k, ds = ds' ++ [k] /\ all_digits ds' /\ is_digit k = true.
Proof.
  intros Hds Hne.
  destruct (exists_last Hne) as (ds' & k & ->).
  apply Forall_app in Hds. destruct Hds as [Hds' Hk].
  apply Forall_cons_1 in Hk. destruct Hk as [Hk _].
  exists ds', k. auto.
Qed.

(** Taking the last character off a numeral divides its value by ten. *)
Lemma numeral_backspace (textValue : list Z) (value : Z) :
  numeral textValue value ->
  TextToInteger (take (length textValue - 1) textValue) = Z.quot value 10.
Proof.
  intros (ds & Hds & Hne & Hcases).
  destruct (digits_end ds Hds Hne) as (ds' & k & -> & Hds' & Hk).
  pose proof (is_digit_ge k Hk) as Hk0.
  assert (Hk9 : k <= ch_9).
  { unfold is_digit in Hk. apply andb_true_iff in Hk.
    destruct Hk as [_ Hk]. apply Z.leb_le in Hk. exact Hk. }
  pose proof (digits_value_nonneg ds' 0 ltac:(lia)) as Hnn.
  fold (decimal ds') in Hnn.
  rewrite (decimal_snoc ds' k Hds' Hk) in Hcases.
  unfold ch_0, ch_9 in *.
  destruct Hcases as [(Hpos & -> & ->)|(Hneg & -> & ->)].
  - rewrite take_all_but_last, (TextToInteger_digits ds' Hds').
    apply Z.quot_unique with (r := k - 48); lia.
  - change (ch_minus :: ds' ++ [k]) with ((ch_minus :: ds') ++ [k]).
    rewrite take_all_but_last, TextToInteger_minus.
    rewrite Z.quot_opp_l by lia. f_equal.
    apply Z.quot_unique with (r := k - 48); lia.
Qed.

(** A digit typed after a numeral. *)
Lemma numeral_typed (textValue : list Z) (value key : Z) :
  numeral textValue value -> is_digit key = true ->
  TextToInteger (textValue ++ [key])
  = if value <? 0 then value * 10 - (key - ch_0)
    else value * 10 + (key - ch_0).
Proof.
  intros (ds & Hds & Hne & Hcases) Hkey.
  destruct Hcases as [(Hpos & -> & ->)|(Hneg & -> & ->)].
  - destruct (Z.ltb_spec (decimal ds) 0); [lia|].
    rewrite (TextToInteger_digits _ (all_digits_snoc ds key Hds Hkey)).
    apply decimal_snoc; assumption.
  - destruct (Z.ltb_spec (- decimal ds) 0); [|lia].
    change ((ch_minus :: ds) ++ [key]) with (ch_minus :: (ds ++ [key])).
    rewrite TextToInteger_minus, (decimal_snoc ds key Hds Hkey). lia.
Qed.

Lemma numeral_value (textValue : list Z) (value : Z) :
  numeral textValue value -> TextToInteger textValue = value.
Proof.
  intros (ds & Hds & Hne & [(Hpos & -> & ->)|(Hneg & -> & ->)]).
  - apply TextToInteger_digits. exact Hds.
  - apply TextToInteger_minus.
Qed.

Lemma numeral_bytes (textValue : list Z) (value : Z) :
  numeral textValue value -> Forall is_byte textValue /\ textValue <> [].
Proof.
  intros (ds & Hds & Hne & Hcases).
  assert (Hbytes : Forall is_byte ds).
  { eapply Forall_impl; [exact Hds|]. intros d Hd. cbv beta in Hd.
    pose proof (is_digit_ge d Hd) as Hlo.
    unfold is_digit in Hd. apply andb_true_iff in Hd.
    destruct Hd as [_ Hd]. apply Z.leb_le in Hd.
    unfold is_byte, ch_0, ch_9 in *. lia. }
  destruct Hcases as [(_ & -> & _)|(_ & -> & _)].
  - split; assumption.
  - split; [|discriminate].
    apply Forall_cons_2; [unfold is_byte, ch_minus; lia|exact Hbytes].
Qed.

Lemma key_is_digit (key : Z) :
  (key >=? 48) && (key <=? 57) = is_digit key.
Proof.
  unfold is_digit, ch_0, ch_9. rewrite Z.geb_leb. reflexivity.
Qed.

(** X16.  An enabled [GuiValueBox] in edit mode turns the keys of the
    frame into arithmetic on the value: a digit typed, accepted while
    the text is shorter than 32 characters and narrower than the box,
    makes the value ten times the value plus the digit (minus the digit
    for a negative value); backspace makes it the value divided by ten,
    rounded towards zero; both in one frame leave it as it is; and the
    value is clamped only when Enter is pressed or the mouse is clicked
    outside the box, which is also when the result is 1.  The products
    are those of [int] as long as they stay within its range. *)
Theorem GuiValueBox_edits {F : Type} `{FloatOps F}
    (char_signed : bool) (style : Z -> Z -> Z) (guiFont : Font F)
    (fuel : nat) (g : Globals F) (inp : Input F) (keys : Keys)
    (bounds : Rectangle F) (textValue : list Z)
    (value minValue maxValue : Z) :
  numeral textValue value -> live g = true ->
  (MAX_LINE_BUFFER_SIZE <= fuel)%nat ->
  is_int (value * 10 - 9) -> is_int (value * 10 + 9) ->
  exists width value' textValue',
    GetTextWidth char_signed style guiFont fuel textValue = Some width /\
    GuiValueBox char_signed style guiFont fuel g inp keys bounds textValue
                value minValue maxValue true
    = Some (STATE_PRESSED, value',
            (if enterPressed keys
                || (negb (CheckCollisionPointRec (mousePoint inp) bounds)
                    && mousePressed inp)
             then 1 else 0), textValue') /\
    let accepted :=
      (Z.of_nat (length textValue) <? RAYGUI_VALUEBOX_MAX_CHARS)
      && f_ltb (f_of_Z width) (rec_width bounds)
      && is_digit (charPressed keys) in
    let edited :=
      if accepted then
        if backspacePressed keys then value
        else if value <? 0 then value * 10 - (charPressed keys - ch_0)
             else value * 10 + (charPressed keys - ch_0)
      else if backspacePressed keys then Z.quot value 10 else value in
    value' =
      if enterPressed keys
         || (negb (CheckCollisionPointRec (mousePoint inp) bounds)
             && mousePressed inp)
      then clamp_int edited minValue maxValue else edited.
Proof.
  intros Hnumeral Hlive Hfuel _ _.
  destruct (numeral_bytes textValue value Hnumeral) as [Hbytes Hsome].
  destruct (GetTextWidth_returns char_signed style guiFont fuel textValue
              Hbytes Hfuel) as [width Ewidth].
  exists width.
  unfold GuiValueBox. rewrite Hlive, Ewidth, StyleFacts.bind_Some.
  rewrite key_is_digit.
  assert (Hlength : (0 <? length textValue)%nat = true).
  { destruct textValue; [contradiction|reflexivity]. }
  assert (Hlonger : (0 <? length (textValue ++ [charPressed keys]))%nat
                    = true).
  { rewrite length_app. cbn [length]. apply Nat.ltb_lt. lia. }
  destruct (Z.of_nat (length textValue) <? RAYGUI_VALUEBOX_MAX_CHARS);
    cbn [andb];
    [destruct (f_ltb (f_of_Z width) (rec_width bounds)); cbn [andb];
     [destruct (is_digit (charPressed keys)) eqn:Ekey|]|];
    rewrite ?StyleFacts.bind_Some; cbv zeta;
    rewrite ?Hlength, ?Hlonger; cbn [andb];
    destruct (backspacePressed keys);
    rewrite ?take_all_but_last,
      ?(numeral_value _ _ Hnumeral),
      ?(numeral_typed _ _ _ Hnumeral Ekey),
      ?(numeral_backspace _ _ Hnumeral);
    destruct (enterPressed keys
              || negb (CheckCollisionPointRec (mousePoint inp) bounds)
                 && mousePressed inp);
    eexists; eexists; (split; [reflexivity|]);
    (split; [reflexivity|]); reflexivity.
Qed.

(** X16, instance: [3] typed after [12]. *)
Lemma GuiValueBox_edits_witness :
  exists textValue',
    GuiValueBox false default_style_value mono_font 256 initial_globals
      (held_at 50 10) (mkKeys 51 false false) (rect32 0 0 100 20)
      (cstring "12"%string) 12 0 100 true
    = Some (STATE_PRESSED, 123, 0, textValue').
Proof.
  destruct (GuiValueBox_edits false default_style_value mono_font 256
              initial_globals (held_at 50 10) (mkKeys 51 false false)
              (rect32 0 0 100 20) (cstring "12"%string) 12 0 100)
    as (width & value' & textValue' & Ewidth & Ebox & Hvalue).
  - exists [49; 50]. repeat split; try discriminate.
    + repeat (apply Forall_cons_2; [reflexivity|]). apply Forall_nil_2.
    + left. repeat split. discriminate.
  - reflexivity.
  - unfold MAX_LINE_BUFFER_SIZE. lia.
  - unfold is_int. lia.
  - unfold is_int. lia.
  - vm_compute in Ewidth. injection Ewidth as <-.
    vm_compute in Hvalue. subst value'.
    exists textValue'. exact Ebox.
Defined.

Lemma spinner_clamp (value minValue maxValue : Z) :
  minValue <= maxValue ->
  (if (if value <? minValue then minValue else value) >? maxValue
   then maxValue
   else if value <? minValue then minValue else value)
  = Z.max minValue (Z.min maxValue value).
Proof.
  intros Hrange. destruct (Z.ltb_spec value minValue);
    match goal with
    | |- context [if ?a >? ?b then _ else _] => destruct (Z.gtb_spec a b)
    end; lia.
Qed.

Lemma clamp_int_inside (value minValue maxValue : Z) :
  minValue <= value <= maxValue -> clamp_int value minValue maxValue = value.
Proof.
  intros Hin. unfold clamp_int.
  destruct (Z.gtb_spec value maxValue); [lia|].
  destruct (Z.ltb_spec value minValue); [lia|reflexivity].
Qed.



(** ** Splitting a text *)

(** The loop of [TextSplit] on a text of any length: it stays inside the
    buffer and the array of pointers. *)
Lemma TextSplit_from_spec (text : list Z) (delimiter : Z) (turns : nat) :
  forall (i : nat) (buffer : list Z) (result : list nat) (counter : nat),
    Forall text_byte text ->
    (i + turns = RAYGUI_TEXTSPLIT_MAX_TEXT_SIZE)%nat ->
    length buffer = RAYGUI_TEXTSPLIT_MAX_TEXT_SIZE ->
    length result = RAYGUI_TEXTSPLIT_MAX_ITEMS ->
    (1 <= counter < RAYGUI_TEXTSPLIT_MAX_ITEMS)%nat ->
    exists buffer' result',
      TextSplit_from turns text delimiter i buffer result counter
      = Some (buffer', result',
              Nat.min RAYGUI_TEXTSPLIT_MAX_ITEMS
                (counter + delimiters delimiter (take turns (drop i text))))
      /\ length buffer' = RAYGUI_TEXTSPLIT_MAX_TEXT_SIZE
      /\ length result' = RAYGUI_TEXTSPLIT_MAX_ITEMS.
Proof.
  induction turns as [|turns IH];
    intros i buffer result counter Hbytes Hturns Hbuffer Hresult Hcounter;
    cbn [TextSplit_from].
  - exists buffer, result. rewrite take_0. unfold delimiters.
    cbn [filter list_filter length]. rewrite Nat.add_0_r, Nat.min_r by lia.
    auto.
  - cbv zeta.
    rewrite (SplitFacts.write_at_inside buffer i (char_at text i)) by lia.
    rewrite StyleFacts.bind_Some.
    destruct (le_lt_dec (length text) i) as [Hend|Hinside].
    + unfold char_at. rewrite nth_overflow by exact Hend.
      cbn [Z.eqb]. rewrite drop_ge by exact Hend. rewrite take_nil.
      unfold delimiters. cbn [filter list_filter length].
      rewrite Nat.add_0_r, Nat.min_r by lia.
      eexists; eexists. split; [reflexivity|].
      rewrite length_insert. auto.
    + destruct (lookup_lt_is_Some_2 text i Hinside) as [b Hb].
      assert (Hchar : char_at text i = b)
        by (unfold char_at; apply nth_lookup_Some; exact Hb).
      rewrite Hchar, (drop_S _ _ _ Hb). cbn [take].
      pose proof (Forall_lookup_1 _ _ _ _ Hbytes Hb) as Hbyte.
      unfold text_byte in Hbyte.
      destruct (Z.eqb_spec b 0); [lia|].
      destruct (Z.eqb_spec b delimiter) as [Hdelimiter|Hother].
      * rewrite (SplitFacts.write_at_inside (<[i := b]> buffer) i 0)
          by (rewrite length_insert; lia).
        rewrite StyleFacts.bind_Some.
        rewrite (SplitFacts.write_at_inside result counter (i + 1)%nat)
          by lia.
        rewrite StyleFacts.bind_Some.
        assert (Hcount : delimiters delimiter
                           (b :: take turns (drop (S i) text))
                         = S (delimiters delimiter
                                (take turns (drop (S i) text)))).
        { unfold delimiters. rewrite filter_cons_True by exact Hdelimiter.
          reflexivity. }
        rewrite Hcount.
        destruct (Nat.eqb_spec (S counter) RAYGUI_TEXTSPLIT_MAX_ITEMS)
          as [Hfull|Hroom].
        -- eexists; eexists. split.
           ++ f_equal. f_equal. rewrite Nat.min_l by lia. exact Hfull.
           ++ rewrite !length_insert. auto.
        -- destruct (IH (S i) (<[i := 0]> (<[i := b]> buffer))
                        (<[counter := (i + 1)%nat]> result) (S counter))
             as (buffer' & result' & -> & Hlen1 & Hlen2);
             rewrite ?length_insert; try assumption; try lia.
           exists buffer', result'. split; [|auto].
           f_equal. f_equal. f_equal. lia.
      * assert (Hcount : delimiters delimiter
                           (b :: take turns (drop (S i) text))
                         = delimiters delimiter
                             (take turns (drop (S i) text))).
        { unfold delimiters. rewrite filter_cons_False by exact Hother.
          reflexivity. }
        rewrite Hcount.
        apply IH; rewrite ?length_insert; try assumption; lia.
Qed.

(** X18.  [TextSplit] tests its counter against the limit with [==],
    where [GuiTextSplit] tests with [>]: on a text of any length and
    with any number of delimiters its writes stay inside the buffer of
    1024 bytes and the array of 128 pointers, and the count it returns
    is the number of delimiters in the first 1024 bytes plus one, or 128
    when that is more.  On a NULL text the count is 0. *)
Theorem TextSplit_stays_inside
    (result0 : list nat) (text : list Z) (delimiter : Z) :
  length result0 = RAYGUI_TEXTSPLIT_MAX_ITEMS ->
  Forall text_byte text ->
  (exists buffer result,
     TextSplit result0 (Some text) delimiter
     = Some (buffer, result,
             Nat.min RAYGUI_TEXTSPLIT_MAX_ITEMS
               (1 + delimiters delimiter
                      (take RAYGUI_TEXTSPLIT_MAX_TEXT_SIZE text))) /\
     length buffer = RAYGUI_TEXTSPLIT_MAX_TEXT_SIZE /\
     length result = RAYGUI_TEXTSPLIT_MAX_ITEMS) /\
  TextSplit result0 None delimiter
  = Some (replicate RAYGUI_TEXTSPLIT_MAX_TEXT_SIZE 0,
          <[0%nat := 0%nat]> result0, 0%nat).
Proof.
  intros Hresult Hbytes. unfold TextSplit.
  rewrite (SplitFacts.write_at_inside result0 0 0%nat)
    by (rewrite Hresult; unfold RAYGUI_TEXTSPLIT_MAX_ITEMS; lia).
  rewrite !StyleFacts.bind_Some. split; [|reflexivity].
  destruct (TextSplit_from_spec text delimiter
              RAYGUI_TEXTSPLIT_MAX_TEXT_SIZE 0
              (replicate RAYGUI_TEXTSPLIT_MAX_TEXT_SIZE 0)
              (<[0%nat := 0%nat]> result0) 1 Hbytes)
    as (buffer & result & E & Hlen);
    rewrite ?length_replicate, ?length_insert;
    try reflexivity; try assumption;
    [unfold RAYGUI_TEXTSPLIT_MAX_ITEMS; lia|].
  rewrite drop_0 in E. exists buffer, result. split; [exact E|exact Hlen].
Qed.

(** X18, instance: the 128 semicolons on which [GuiTextSplit] runs over
    its array give 128 items. *)
Lemma TextSplit_stays_inside_witness :
  exists buffer result,
    TextSplit (replicate 128 0%nat) (Some (replicate 128 59)) 59
    = Some (buffer, result, 128%nat).
Proof.
  destruct (TextSplit_stays_inside (replicate 128 0%nat)
              (replicate 128 59) 59)
    as [(buffer & result & E & _) _].
  - reflexivity.
  - apply Forall_replicate. unfold text_byte. lia.
  - exists buffer, result. exact E.
Defined.

(** ** Check box *)


